(** * heat/core/linalg.py: a shallow embedding of [matmul], [qr] and [transpose]

    The development follows the layout of the Python module.  Python
    exceptions are values of [exn] carried by [result]; Python objects that
    reach the argument checks are values of [pyval]; the arithmetic of the
    block maps is integer arithmetic on [Z], where [//] is [Z.div] and [%] is
    [Z.modulo] (both floor, as in Python) and a zero divisor raises
    [ZeroDivisionError]. *)

From Stdlib Require Import ZArith List Lia Bool String.
From stdpp Require Import base list strings.

Open Scope Z_scope.

(** ** Python values, exceptions and results *)

Module Py.

(** The classes that the argument checks of this module distinguish. *)
Inductive pytype :=
| TNoneType | TBool | TInt | TStr | TTensor | TDNDarray.

(** A formatted message: the literal text of the format string and the
    values that [str.format] puts into its [{}] fields. *)
Inductive piece :=
| Txt (s : string)
| Num (z : Z)
| Ty (t : pytype).

Definition message := list piece.

Inductive exn :=
| TypeError (m : message)
| ValueError (m : message)
| NotImplementedError (m : message)
| ZeroDivisionError
| IndexError
| RuntimeError.

Inductive result (A : Type) :=
| Ok (a : A)
| Raise (e : exn).
Arguments Ok {A} a.
Arguments Raise {A} e.

Global Instance result_ret : MRet result := fun A a => Ok a.
Global Instance result_bind : MBind result := fun A B k r =>
  match r with
  | Ok a => k a
  | Raise e => Raise e
  end.

Definition is_Ok {A} (r : result A) : bool :=
  match r with Ok _ => true | Raise _ => false end.
Definition is_TypeError (e : exn) : bool :=
  match e with TypeError _ => true | _ => false end.
Definition is_ValueError (e : exn) : bool :=
  match e with ValueError _ => true | _ => false end.

(** [x // y] and [x % y] on Python ints. *)
Definition floordiv (x y : Z) : result Z :=
  if y =? 0 then Raise ZeroDivisionError else Ok (x / y).
Definition pymod (x y : Z) : result Z :=
  if y =? 0 then Raise ZeroDivisionError else Ok (x mod y).

(** [l[i]] on a Python sequence: a negative index counts from the end. *)
Definition getitem {A} (l : list A) (i : Z) : result A :=
  let n := Z.of_nat (length l) in
  let j := if i <? 0 then i + n else i in
  if (0 <=? j) && (j <? n) then
    match l !! Z.to_nat j with
    | Some x => Ok x
    | None => Raise IndexError
    end
  else Raise IndexError.

(** [l.index(x)]: the first position holding [x]; ValueError when absent. *)
Fixpoint index_from (x : Z) (l : list Z) (pos : Z) : option Z :=
  match l with
  | [] => None
  | y :: l' => if y =? x then Some pos else index_from x l' (pos + 1)
  end.
Definition list_index (l : list Z) (x : Z) : option Z := index_from x l 0.

End Py.
Export Py.

(** A state-and-exception monad: a raised exception keeps the state reached
    so far, as a Python exception keeps the mutations already made. *)
Definition M (W A : Type) : Type := W -> result A * W.

Global Instance M_ret {W} : MRet (M W) := fun A a w => (Ok a, w).
Global Instance M_bind {W} : MBind (M W) := fun A B k m w =>
  match m w with
  | (Ok a, w') => k a w'
  | (Raise e, w') => (Raise e, w')
  end.
Definition raise {W A} (e : exn) : M W A := fun w => (Raise e, w).
Definition lift {W A} (r : result A) : M W A := fun w => (r, w).

(** ** Attributes shared by every DNDarray *)

(** heat's element types, as far as this module tells them apart. *)
Inductive htype := ht_bool | ht_uint8 | ht_int8 | ht_int16 | ht_int32 | ht_int64
                 | ht_float32 | ht_float64.
Inductive device := cpu | gpu.

Definition htype_eqb (x y : htype) : bool :=
  match x, y with
  | ht_bool, ht_bool | ht_uint8, ht_uint8 | ht_int8, ht_int8
  | ht_int16, ht_int16 | ht_int32, ht_int32 | ht_int64, ht_int64
  | ht_float32, ht_float32 | ht_float64, ht_float64 => true
  | _, _ => false
  end.

(** ** [qr]: the argument checks (linalg.py, lines 892-909) *)

Module QR.

(** What the checks read of a DNDarray: its global shape and where it is
    split; [buffer] names the local torch tensor, which lives in the
    process state. *)
Record DNDarray := mkDNDarray {
  shape : list Z;
  split : option Z;
  dtype : htype;
  buffer : nat
}.

(** The objects a caller can pass for [a], [tiles_per_proc], [calc_q] and
    [overwrite_a].  A torch tensor is known to the checks by its shape. *)
Inductive pyval :=
| VNone
| VBool (b : bool)
| VInt (z : Z)
| VStr (s : string)
| VTensor (tshape : list Z)
| VDNDarray (d : DNDarray).

Definition type_of (v : pyval) : pytype :=
  match v with
  | VNone => TNoneType
  | VBool _ => TBool
  | VInt _ => TInt
  | VStr _ => TStr
  | VTensor _ => TTensor
  | VDNDarray _ => TDNDarray
  end.

(** [isinstance(v, int)]: [bool] is a subclass of [int]. *)
Definition isinstance_int (v : pyval) : bool :=
  match v with VInt _ | VBool _ => true | _ => false end.
Definition isinstance_bool (v : pyval) : bool :=
  match v with VBool _ => true | _ => false end.
Definition isinstance_Tensor (v : pyval) : bool :=
  match v with VTensor _ => true | _ => false end.
Definition isinstance_DNDarray (v : pyval) : bool :=
  match v with VDNDarray _ => true | _ => false end.

(** [t.numel()] *)
Definition numel (tshape : list Z) : Z := fold_right Z.mul 1 tshape.

(** [qr(a, tiles_per_proc, calc_q, overwrite_a)].  The checks are the first
    statements of the function; everything after them (the local kernel for
    an unsplit [a], the tiling and the two distributed loops, which all
    communicate or write tensors) is [engine], run in the process state [W]. *)
Definition qr {W R}
    (engine : DNDarray -> pyval -> bool -> bool -> M W R)
    (a tiles_per_proc calc_q overwrite_a : pyval) : M W R :=
  match a with
  | VDNDarray d =>
    if negb (isinstance_int tiles_per_proc || isinstance_Tensor tiles_per_proc) then
      raise (TypeError [Txt "tiles_per_proc must be an int or a torch.Tensor, currently ";
                        Ty (type_of tiles_per_proc)])
    else
      match calc_q with
      | VBool cq =>
        match overwrite_a with
        | VBool ow =>
          match tiles_per_proc with
          | VTensor t =>
            raise (ValueError
                     [Txt "tiles_per_proc must be a single element torch.Tenor or int, currently has ";
                      Num (numel t); Txt " entries"])
          | _ =>
            if negb (Z.of_nat (length (shape d)) =? 2) then
              raise (ValueError [Txt "Array 'a' must be 2 dimensional"])
            else engine d tiles_per_proc cq ow
          end
        | _ => raise (TypeError [Txt "overwrite_a must be a bool, currently ";
                                 Ty (type_of overwrite_a)])
        end
      | _ => raise (TypeError [Txt "calc_q must be a bool, currently "; Ty (type_of calc_q)])
      end
  | _ => raise (TypeError [Txt "'a' must be a DNDarray"])
  end.

(** The arguments pass every check: [qr] goes on to [engine]. *)
Definition passes_validation (a tiles_per_proc calc_q overwrite_a : pyval) : bool :=
  match qr (W := unit) (fun _ _ _ _ => mret tt) a tiles_per_proc calc_q overwrite_a tt with
  | (Ok _, _) => true
  | (Raise _, _) => false
  end.

End QR.

(** ** [transpose] (linalg.py, lines 1832-1888) *)

Module Transpose.

(** A local torch tensor: its shape and its elements by multi-index. *)
Record tensor (T : Type) := mkTensor {
  tshape : list Z;
  tget : list Z -> T
}.
Arguments mkTensor {T}.
Arguments tshape {T}.
Arguments tget {T}.

Fixpoint no_repeat (l : list Z) : bool :=
  match l with
  | [] => true
  | x :: l' => negb (existsb (Z.eqb x) l') && no_repeat l'
  end.

(** [t.permute] applied to one or more [dims], as torch defines it: as many
    dims as [t] has, each in [-n, n) (IndexError otherwise) and, after
    wrapping the negative ones, no dim twice (RuntimeError otherwise).
    Dimension [i] of the result is dimension [dims[i]] of [t]. *)
Definition permute_dims {T} (dims : list Z) (t : tensor T) : result (tensor T) :=
  let n := Z.of_nat (length (tshape t)) in
  if negb (Z.of_nat (length dims) =? n) then Raise RuntimeError
  else if negb (forallb (fun d => (- n <=? d) && (d <? n)) dims) then Raise IndexError
  else
    let wrapped := map (fun d => if d <? 0 then d + n else d) dims in
    if negb (no_repeat wrapped) then Raise RuntimeError
    else Ok {| tshape := map (fun d => nth (Z.to_nat d) (tshape t) 0) wrapped;
               tget := fun idx =>
                 tget t (map (fun j => match list_index wrapped j with
                                       | Some i => nth (Z.to_nat i) idx 0
                                       | None => 0
                                       end)
                             (seqZ 0 n)) |}.

(** [t.permute( *dims )], the call of line 1880.  For an array without
    dimensions [dims] is empty and the call passes no argument at all,
    which torch refuses with a TypeError for want of the required [dims]. *)
Definition torch_permute {T} (dims : list Z) (t : tensor T) : result (tensor T) :=
  match dims with
  | [] => Raise (TypeError [Txt "permute() received an invalid combination of arguments"])
  | _ :: _ => permute_dims dims t
  end.

(** The six arguments of the [DNDarray] constructor; [comm] is known by the
    number of processes. *)
Record DNDarray (T : Type) := mkDNDarray {
  array : tensor T;
  shape : list Z;
  dtype : htype;
  split : option Z;
  dev : device;
  comm : Z
}.
Arguments mkDNDarray {T}.
Arguments array {T}.
Arguments shape {T}.
Arguments dtype {T}.
Arguments split {T}.
Arguments dev {T}.
Arguments comm {T}.

Definition axes_mismatch : exn := ValueError [Txt "axes do not match tensor shape"].

(** The loop that sanitizes a given [axes]: a negative axis counts from the
    last dimension. *)
Definition wrap_negative (dimensions : Z) (axes : list Z) : list Z :=
  map (fun axis => if axis <? 0 then axis + dimensions else axis) axes.

(** [transpose(a, axes)] for a DNDarray [a] and [axes] either [None] or a
    sequence of ints. *)
Definition transpose {T} (a : DNDarray T) (axes : option (list Z)) : result (DNDarray T) :=
  let dimensions := Z.of_nat (length (shape a)) in
  axes ← match axes with
         | None => Ok (reverse (seqZ 0 dimensions))
         | Some axes =>
           if negb (Z.of_nat (length axes) =? dimensions) then Raise axes_mismatch
           else Ok (wrap_negative dimensions axes)
         end;
  transposed_split ← match split a with
                     | None => Ok None
                     | Some s => match list_index axes s with
                                 | Some i => Ok (Some i)
                                 | None => Raise axes_mismatch
                                 end
                     end;
  match (transposed_data ← torch_permute axes (array a);
         transposed_shape ← mapM (getitem (shape a)) axes;
         Ok (mkDNDarray transposed_data transposed_shape (dtype a) transposed_split
                        (dev a) (comm a))) with
  | Raise RuntimeError | Raise IndexError => Raise (ValueError [Txt "str(exception)"])
  | r => r
  end.

(** What the constructor and the data model require of a DNDarray: the local
    tensor has as many dimensions as the global shape, there is at least one,
    and a split axis is one of them. *)
Definition well_formed {T} (a : DNDarray T) : Prop :=
  (length (tshape (array a)) = length (shape a)) /\
  (shape a <> []) /\
  (match split a with
   | None => True
   | Some s => 0 <= s < Z.of_nat (length (shape a))
   end).

(** [axes] lists every axis of an [n]-dimensional array exactly once. *)
Definition is_permutation (n : nat) (axes : list Z) : Prop :=
  Permutation axes (seqZ 0 (Z.of_nat n)).

End Transpose.

(** ** [matmul] (linalg.py, lines 80-827) *)

Module MatMul.

(** What the kernels need of the element type: torch's zero, sum and product,
    the conversion of an element to another heat type, and heat's
    [types.promote_types] (heat/core/types.py is not part of this module, so
    the promotion rule is a parameter). *)
Class Backend (T : Type) := {
  zero : T;
  add : T -> T -> T;
  mul : T -> T -> T;
  convert : htype -> T -> T;
  promote_types : htype -> htype -> htype
}.

Section Tensors.
Context {T : Type} `{Backend T}.

(** A local 2-D torch tensor: its shape and its elements. *)
Record tensor := mkTensor {
  nrows : Z;
  ncols : Z;
  elt : Z -> Z -> T
}.

(** [torch.zeros((r, c))]; [torch.empty] is modelled by it as well. *)
Definition zeros (r c : Z) : tensor := mkTensor r c (fun _ _ => zero).

(** The bounds of [start:stop] on a dimension of size [n], clipped the way
    Python clips a slice; [None] is an omitted bound. *)
Definition clip (n : Z) (i : Z) : Z :=
  if i <? 0 then Z.max (i + n) 0 else Z.min i n.
Definition slice_bounds (n : Z) (start stop : option Z) : Z * Z :=
  let s := match start with None => 0 | Some i => clip n i end in
  let e := match stop with None => n | Some i => clip n i end in
  (s, Z.max s e).

(** [t[r0:r1, c0:c1]] *)
Definition getslice (t : tensor) (r0 r1 c0 c1 : option Z) : tensor :=
  let '(rs, re) := slice_bounds (nrows t) r0 r1 in
  let '(cs, ce) := slice_bounds (ncols t) c0 c1 in
  mkTensor (re - rs) (ce - cs) (fun i j => elt t (rs + i) (cs + j)).

(** [t[r0:r1:rstep, c0:c1:cstep]] for positive steps. *)
Definition getslice_step (t : tensor) (r0 r1 : option Z) (rstep : Z)
    (c0 c1 : option Z) (cstep : Z) : tensor :=
  let '(rs, re) := slice_bounds (nrows t) r0 r1 in
  let '(cs, ce) := slice_bounds (ncols t) c0 c1 in
  mkTensor ((re - rs + rstep - 1) / rstep) ((ce - cs + cstep - 1) / cstep)
           (fun i j => elt t (rs + i * rstep) (cs + j * cstep)).

(** An int index into a dimension of size [n]. *)
Definition int_index (n i : Z) : result Z :=
  let j := if i <? 0 then i + n else i in
  if (0 <=? j) && (j <? n) then Ok j else Raise IndexError.

(** [t[i]] as a row and [t[:, j]] as a column. *)
Definition getrow (t : tensor) (i : Z) : result tensor :=
  i' ← int_index (nrows t) i;
  Ok (mkTensor 1 (ncols t) (fun _ j => elt t i' j)).
Definition getcol (t : tensor) (j : Z) : result tensor :=
  j' ← int_index (ncols t) j;
  Ok (mkTensor (nrows t) 1 (fun i _ => elt t i j')).

Definition sum_over (ks : list Z) (f : Z -> T) : T :=
  fold_left (fun acc k => add acc (f k)) ks zero.

(** [a @ b] *)
Definition torch_matmul (a b : tensor) : result tensor :=
  if ncols a =? nrows b then
    Ok (mkTensor (nrows a) (ncols b)
          (fun i j => sum_over (seqZ 0 (ncols a)) (fun k => mul (elt a i k) (elt b k j))))
  else Raise RuntimeError.

(** A dimension of size [m] broadcasts to one of size [target]. *)
Definition broadcasts (m target : Z) : bool := (m =? target) || (m =? 1).

(** [c[r0:r1, c0:c1] += x] and [c[r0:r1, c0:c1] = x] *)
Definition update_slice (f : T -> T -> T) (c : tensor) (r0 r1 c0 c1 : option Z)
    (x : tensor) : result tensor :=
  let '(rs, re) := slice_bounds (nrows c) r0 r1 in
  let '(cs, ce) := slice_bounds (ncols c) c0 c1 in
  if broadcasts (nrows x) (re - rs) && broadcasts (ncols x) (ce - cs) then
    Ok (mkTensor (nrows c) (ncols c)
          (fun i j =>
             if (rs <=? i) && (i <? re) && (cs <=? j) && (j <? ce) then
               f (elt c i j)
                 (elt x (if nrows x =? 1 then 0 else i - rs) (if ncols x =? 1 then 0 else j - cs))
             else elt c i j))
  else Raise RuntimeError.
Definition iadd_slice := update_slice add.
Definition set_slice := update_slice (fun _ new => new).

(** [c += x] *)
Definition iadd (c x : tensor) : result tensor := iadd_slice c None None None None x.

(** [c[i, :] += x], [c[:, j] += x], [c[i] = x] and [c[:, j] = x] *)
Definition iadd_row (c : tensor) (i : Z) (x : tensor) : result tensor :=
  i' ← int_index (nrows c) i;
  iadd_slice c (Some i') (Some (i' + 1)) None None x.
Definition iadd_col (c : tensor) (j : Z) (x : tensor) : result tensor :=
  j' ← int_index (ncols c) j;
  iadd_slice c None None (Some j') (Some (j' + 1)) x.
Definition set_row (c : tensor) (i : Z) (x : tensor) : result tensor :=
  i' ← int_index (nrows c) i;
  set_slice c (Some i') (Some (i' + 1)) None None x.
Definition set_col (c : tensor) (j : Z) (x : tensor) : result tensor :=
  j' ← int_index (ncols c) j;
  set_slice c None None (Some j') (Some (j' + 1)) x.

(** The sum that [Allreduce(MPI.IN_PLACE, c, MPI.SUM)] leaves on every
    process, for the buffers [cs] of the processes in rank order. *)
Definition allreduce_sum (cs : list tensor) : tensor :=
  match cs with
  | [] => zeros 0 0
  | c0 :: rest =>
    mkTensor (nrows c0) (ncols c0)
      (fun i j => fold_left (fun acc c => add acc (elt c i j)) rest (elt c0 i j))
  end.

(** The elements of a tensor, row by row. *)
Definition to_rows (t : tensor) : list (list T) :=
  map (fun i => map (fun j => elt t i j) (seqZ 0 (ncols t))) (seqZ 0 (nrows t)).
Definition of_rows (n m : Z) (rows : list (list T)) : tensor :=
  mkTensor n m (fun i j => nth (Z.to_nat j) (nth (Z.to_nat i) rows []) zero).

End Tensors.
Arguments tensor T : clear implicits.

Section Engine.
Context {T : Type} `{Backend T}.

(** A distributed matrix as the whole process group holds it: the global
    shape, the element type, the split axis and the local tensor of every
    process, in rank order. *)
Record DNDarray := mkDNDarray {
  gshape : Z * Z;
  dtype : htype;
  split : option Z;
  larray : list (tensor T)
}.

Definition ranks (size : Z) : list Z := seqZ 0 size.

(** [a._DNDarray__array] and [a.lshape] on process [rank]. *)
Definition local (a : DNDarray) (rank : Z) : tensor T :=
  nth (Z.to_nat rank) (larray a) (zeros 0 0).
Definition lshape (a : DNDarray) (rank : Z) : Z * Z :=
  (nrows (local a rank), ncols (local a rank)).

Definition split_is (a : DNDarray) (axis : Z) : bool :=
  match split a with Some s => s =? axis | None => false end.
Definition split_is_None (a : DNDarray) : bool :=
  match split a with None => true | Some _ => false end.

(** Modelled from the spec: [comm.chunk] of heat/core/communication.py, the
    standard block distribution of section 3 and 4.1: the extents of the
    ranks cover the dimension without gaps or overlaps, their sizes differ by
    at most one, and the extent of a rank is a function of the shape, the
    axis, the rank and the process count alone.  The longer extents are the
    leading ones.  The result is the pair of slices for the two dimensions,
    each as (start, stop). *)
Definition chunk_bounds (n size rank : Z) : Z * Z :=
  let chunk := n / size in
  let remainder := n mod size in
  if rank <? remainder then (rank * (chunk + 1), rank * (chunk + 1) + (chunk + 1))
  else (rank * chunk + remainder, rank * chunk + remainder + chunk).
Definition chunk (size rank : Z) (shape : Z * Z) (split : option Z)
    : (Z * Z) * (Z * Z) :=
  match split with
  | None => ((0, fst shape), (0, snd shape))
  | Some s => if s =? 0 then (chunk_bounds (fst shape) size rank, (0, snd shape))
              else ((0, fst shape), chunk_bounds (snd shape) size rank)
  end.
Definition extent (bounds : Z * Z) : Z := snd bounds - fst bounds.

(** This process's part of a tensor that every process holds in full; all
    of it when there is no split. *)
Definition take_chunk (size rank : Z) (split : option Z) (t : tensor T) : tensor T :=
  match split with
  | None => t
  | Some _ =>
    let '((r0, r1), (c0, c1)) := chunk size rank (nrows t, ncols t) split in
    getslice t (Some r0) (Some r1) (Some c0) (Some c1)
  end.

(** Modelled from the spec: the allocation helpers of heat/core/factories.py
    (section 1 names them as collaborators), following the data model of
    section 3.  [factories.zeros(shape, split, dtype)] gives every process a
    zero tensor of its chunk; [factories.array(t, split)] takes the tensor
    each process holds in full and keeps the chunk of the process;
    [factories.array(t, is_split)] takes the local tensors as the shards they
    already are, the global extent of the split axis being their sum.
    [matmul] names the element type when it calls [factories.zeros]
    ([dtype=c_type]) and not when it calls [factories.array]: there the
    type is inferred, by code that is not in linalg.py either, from a torch
    tensor that [matmul] has made with [c_type.torch_type()] or as a product
    of operands of that type, and [dt] stands for what is inferred. *)
Definition factories_zeros (size : Z) (shape : Z * Z) (split : option Z) (dt : htype)
    : DNDarray :=
  mkDNDarray shape dt split
    (map (fun rank => let '(r, c) := chunk size rank shape split in
                      zeros (extent r) (extent c))
         (ranks size)).
Definition shape_of (ts : list (tensor T)) : Z * Z :=
  match ts with
  | [] => (0, 0)
  | t :: _ => (nrows t, ncols t)
  end.
Definition factories_array (size : Z) (ts : list (tensor T)) (split : option Z) (dt : htype)
    : DNDarray :=
  mkDNDarray (shape_of ts) dt split
    (map (fun '(rank, t) => take_chunk size rank split t) (zip (ranks size) ts)).
Definition factories_array_is_split (ts : list (tensor T)) (split : Z) (dt : htype)
    : DNDarray :=
  mkDNDarray (if split =? 0 then (fold_right Z.add 0 (map nrows ts), snd (shape_of ts))
              else (fst (shape_of ts), fold_right Z.add 0 (map ncols ts)))
             dt (Some split) ts.

(** Modelled from the spec: calling a heat type on a DNDarray
    (heat/core/types.py), the upcast of section 4.2: a new array of the same
    shape and split whose elements are converted. *)
Definition astype (dt : htype) (a : DNDarray) : DNDarray :=
  mkDNDarray (gshape a) dt (split a)
    (map (fun t => mkTensor (nrows t) (ncols t) (fun i j => convert dt (elt t i j)))
         (larray a)).

(** Modelled from the spec: [a.resplit_(0)] of heat/core/dndarray.py on an
    array that is not split, as the docstring of [matmul] states it: the
    array is split in place along axis 0 and distributed in the standard
    fashion, so each process keeps its chunk of rows. *)
Definition resplit_0 (size : Z) (a : DNDarray) : DNDarray :=
  mkDNDarray (gshape a) (dtype a) (Some 0)
    (map (fun '(rank, t) => take_chunk size rank (Some 0) t) (zip (ranks size) (larray a))).

(** *** The process group's state *)

(** The collective calls of the communication layer. *)
Inductive comm_op :=
| Allreduce
| Iallreduce
| Ibcast (root : Z)
| Wait.

(** What a call does beyond computing its result: it changes an object that
    its caller can reach, or it communicates. *)
Inductive event :=
| Mutated (r : nat)
| Comm (op : comm_op).

(** The DNDarray objects, named by their position, and the effects so far in
    the order they happened. *)
Record world := mkWorld {
  heap : list DNDarray;
  log : list event
}.

(** A name always refers to an object; the RuntimeError stands for the
    case that cannot arise. *)
Definition deref (r : nat) : M world DNDarray :=
  fun w => match heap w !! r with
           | Some a => (Ok a, w)
           | None => (Raise RuntimeError, w)
           end.
Definition alloc (a : DNDarray) : M world nat :=
  fun w => (Ok (length (heap w)), mkWorld (heap w ++ [a]) (log w)).
Definition mutate (r : nat) (a : DNDarray) : M world unit :=
  fun w => (Ok tt, mkWorld (<[r := a]> (heap w)) (log w ++ [Mutated r])).
Definition communicate (ops : list comm_op) : M world unit :=
  fun w => (Ok tt, mkWorld (heap w) (log w ++ map Comm ops)).

Fixpoint foldM {A B} (f : B -> A -> result B) (l : list A) (b : B) : result B :=
  match l with
  | [] => Ok b
  | x :: l' => b' ← f b x; foldM f l' b'
  end.

End Engine.
Arguments DNDarray T : clear implicits.
Arguments world T : clear implicits.

(** *** Block sizes, remainder flags and block maps (lines 283-463) *)

Section BlockMaps.
Context {T : Type} `{Backend T}.
(** [a.comm.size], the number of processes; [b.comm] is the same group. *)
Variable size : Z.

(** A block map: a torch int tensor of shape (size, dim0, dim1, 2), which
    holds for a process and a block the local coordinates where the block
    starts. *)
Record block_map := mkBlockMap {
  bm_dim0 : Z;
  bm_dim1 : Z;
  bm_at : Z -> Z -> Z -> Z * Z
}.

Definition bm_zeros (dim0 dim1 : Z) : block_map := mkBlockMap dim0 dim1 (fun _ _ _ => (0, 0)).

Definition bm_in_range (m : block_map) (pr dim0 dim1 : Z) : bool :=
  (0 <=? pr) && (pr <? size) && (0 <=? dim0) && (dim0 <? bm_dim0 m)
  && (0 <=? dim1) && (dim1 <? bm_dim1 m).

(** [m[pr, dim0, dim1] = v] and [m[pr, dim0, dim1]] for indices that are not
    negative. *)
Definition bm_set (m : block_map) (pr dim0 dim1 : Z) (v : Z * Z) : result block_map :=
  if bm_in_range m pr dim0 dim1 then
    Ok (mkBlockMap (bm_dim0 m) (bm_dim1 m)
          (fun p i j => if (p =? pr) && (i =? dim0) && (j =? dim1) then v else bm_at m p i j))
  else Raise IndexError.
Definition bm_get (m : block_map) (pr dim0 dim1 : Z) : result (Z * Z) :=
  if bm_in_range m pr dim0 dim1 then Ok (bm_at m pr dim0 dim1) else Raise IndexError.

(** [m[:, :, cnt:, 1] += 1] and [m[:, cnt:, :, 0] += 1] *)
Definition bm_shift_dim1 (m : block_map) (cnt : Z) : block_map :=
  mkBlockMap (bm_dim0 m) (bm_dim1 m)
    (fun p i j => let '(x, y) := bm_at m p i j in if cnt <=? j then (x, y + 1) else (x, y)).
Definition bm_shift_dim0 (m : block_map) (cnt : Z) : block_map :=
  mkBlockMap (bm_dim0 m) (bm_dim1 m)
    (fun p i j => let '(x, y) := bm_at m p i j in if cnt <=? i then (x + 1, y) else (x, y)).

(** [t.min().item()] of a 1-D tensor; torch refuses an empty one. *)
Definition tensor_min (l : list Z) : result Z :=
  match l with
  | [] => Raise RuntimeError
  | x :: l' => Ok (fold_left Z.min l' x)
  end.

(** The inner block size [kB] (lines 283-297). *)
Definition inner_block (a b : DNDarray T) : result Z :=
  if split_is a 1 && split_is b 0 then
    x ← floordiv (snd (gshape a)) size;
    y ← floordiv (fst (gshape b)) size;
    Ok (Z.min x y)
  else if split_is a 0 && split_is b 1 then Ok (snd (gshape a))
  else if split_is a 1 then floordiv (snd (gshape a)) size
  else if split_is b 0 then
    kB ← floordiv (fst (gshape b)) size;
    Ok (if kB <? snd (gshape a) then kB else snd (gshape a))
  else Ok 0.

(** The four remainder flags have one form:
    [1 if n % block != 0 or (kB == 1 and n != 1) else 0]. *)
Definition rem_flag (n block kB : Z) : result Z :=
  m ← pymod n block;
  Ok (if negb (m =? 0) || ((kB =? 1) && negb (n =? 1)) then 1 else 0).

(** The table of local shapes after its Allreduce: for every rank the
    [lshape] of [a] and of [b]. *)
Definition gather_lshapes (a b : DNDarray T) : list ((Z * Z) * (Z * Z)) :=
  map (fun rank => (lshape a rank, lshape b rank)) (ranks size).

(** The index map after its Iallreduce: for every rank the chunk slices of
    [a] and of [b]. *)
Definition gather_index_map (a b : DNDarray T)
    : list (((Z * Z) * (Z * Z)) * ((Z * Z) * (Z * Z))) :=
  map (fun rank => (chunk size rank (gshape a) (split a), chunk size rank (gshape b) (split b)))
      (ranks size).

(** The loops that enter the block starts (lines 387-405 for [a] with the
    blocks [mB] by [kB], lines 437-455 for [b] with [kB] by [nB]): a process
    has [extent // block] blocks in a dimension, or [extent // block // size]
    if some process has a single element in that dimension. *)
Definition block_count (ext block : Z) (ones_flag : bool) : result Z :=
  n ← floordiv ext block;
  if ones_flag then floordiv n size else Ok n.

Definition fill_block_map (m : block_map) (bounds : list ((Z * Z) * (Z * Z)))
    (block0 block1 : Z) (d0_1s_flag d1_1s_flag : bool) : result block_map :=
  foldM (fun m '(pr, (b0, b1)) =>
           n0 ← block_count (extent b0) block0 d0_1s_flag;
           foldM (fun m dim0 =>
                    n1 ← block_count (extent b1) block1 d1_1s_flag;
                    foldM (fun m dim1 => bm_set m pr dim0 dim1 (dim0 * block0, dim1 * block1))
                          (seqZ 0 n1) m)
                 (seqZ 0 n0) m)
        (zip (ranks size) bounds) m.

(** [cnt = 0; for r in flags: if r.item(): cnt += 1; shift(cnt)] *)
Definition shift_for_remainders (shift : block_map -> Z -> block_map)
    (flags : list Z) (m : block_map) : block_map :=
  snd (fold_left (fun '(cnt, m) r => if negb (r =? 0) then (cnt + 1, shift m (cnt + 1))
                                     else (cnt, m))
                 flags (0, m)).

(** Everything the work loops read. *)
Record ring_setup := mkSetup {
  kB : Z;
  mB : Z;
  nB : Z;
  lshape_map : list ((Z * Z) * (Z * Z));
  rem_map : list ((Z * Z) * (Z * Z));
  index_map : list (((Z * Z) * (Z * Z)) * ((Z * Z) * (Z * Z)));
  a_block_map : block_map;
  b_block_map : block_map
}.

(** Lines 283-302: [kB] and, for every rank, [(rem_a, rem_b)]. *)
Definition inner_sizes (a b : DNDarray T) : result (Z * list (Z * Z)) :=
  kB ← inner_block a b;
  inner ← mapM (fun rank =>
                  rem_a ← rem_flag (snd (lshape a rank)) kB kB;
                  rem_b ← rem_flag (fst (lshape b rank)) kB kB;
                  Ok (rem_a, rem_b))
               (ranks size);
  Ok (kB, inner).

(** Lines 313-315: [mB] and [nB], the least number of rows of [a] and the
    least number of columns of [b] in the table of local shapes. *)
Definition outer_blocks (lshape_map : list ((Z * Z) * (Z * Z))) : result (Z * Z) :=
  mB ← tensor_min (map (fun row => fst (fst row)) lshape_map);
  nB ← tensor_min (map (fun row => snd (snd row)) lshape_map);
  Ok (mB, nB).

(** Lines 317-333: for every rank its row of [rem_map]: [(rem_a_out, rem_a)]
    for [a] and [(rem_b, rem_b_out)] for [b]. *)
Definition outer_flags (a b : DNDarray T) (mB kB nB : Z) (inner : list (Z * Z))
    : result (list ((Z * Z) * (Z * Z))) :=
  mapM (fun '(rank, (rem_a, rem_b)) =>
          rem_a_out ← rem_flag (fst (lshape a rank)) mB kB;
          rem_b_out ← rem_flag (snd (lshape b rank)) nB kB;
          Ok ((rem_a_out, rem_a), (rem_b, rem_b_out)))
       (zip (ranks size) inner).

(** The three block sizes as [matmul] computes them, in the order
    (mB, kB, nB). *)
Definition block_sizes (a b : DNDarray T) : result (Z * Z * Z) :=
  '(kB, inner) ← inner_sizes a b;
  '(mB, nB) ← outer_blocks (gather_lshapes a b);
  Ok (mB, kB, nB).

(** Lines 365-376 and 416-427: the zero tensors for the block maps. *)
Definition new_a_block_map (a : DNDarray T) (mB kB : Z) : result block_map :=
  if split_is a 0 then
    d0 ← (n ← floordiv (fst (gshape a)) mB; floordiv n size);
    d1 ← floordiv (snd (gshape a)) kB;
    Ok (bm_zeros d0 d1)
  else if split_is a 1 then
    d0 ← floordiv (fst (gshape a)) mB;
    d1 ← (n ← floordiv (snd (gshape a)) kB; floordiv n size);
    Ok (bm_zeros d0 d1)
  else Raise RuntimeError.
Definition new_b_block_map (b : DNDarray T) (kB nB : Z) : result block_map :=
  if split_is b 0 then
    d0 ← (n ← floordiv (fst (gshape b)) kB; floordiv n size);
    d1 ← floordiv (snd (gshape b)) nB;
    Ok (bm_zeros d0 d1)
  else if split_is b 1 then
    d0 ← floordiv (fst (gshape b)) kB;
    d1 ← (n ← floordiv (snd (gshape b)) nB; floordiv n size);
    Ok (bm_zeros d0 d1)
  else Raise RuntimeError.

(** Lines 379-405 and 430-455: the flags for a dimension with a single
    element and the loops over the processes and their blocks. *)
Definition fill_a_block_map (m : block_map) (mB kB : Z)
    (lshape_map : list ((Z * Z) * (Z * Z)))
    (index_map : list (((Z * Z) * (Z * Z)) * ((Z * Z) * (Z * Z)))) : result block_map :=
  let a_d0_1s_flag := existsb (fun row => fst (fst row) =? 1) lshape_map in
  let a_d1_1s_flag := existsb (fun row => snd (fst row) =? 1) lshape_map in
  fill_block_map m (map fst index_map) mB kB a_d0_1s_flag a_d1_1s_flag.
Definition fill_b_block_map (m : block_map) (kB nB : Z)
    (lshape_map : list ((Z * Z) * (Z * Z)))
    (index_map : list (((Z * Z) * (Z * Z)) * ((Z * Z) * (Z * Z)))) : result block_map :=
  let b_d0_1s_flag := existsb (fun row => fst (snd row) =? 1) lshape_map in
  let b_d1_1s_flag := existsb (fun row => snd (snd row) =? 1) lshape_map in
  fill_block_map m (map snd index_map) kB nB b_d0_1s_flag b_d1_1s_flag.

(** Lines 407-414 and 457-463: the blocks of [a] move along its second
    dimension by the remainders of [b] in its first, and the blocks of [b]
    along its first dimension by the remainders of [a] in its second. *)
Definition shift_a_block_map (b : DNDarray T) (rem_map : list ((Z * Z) * (Z * Z)))
    (m : block_map) : block_map :=
  if split_is b 0 then
    shift_for_remainders bm_shift_dim1 (map (fun row => fst (snd row)) rem_map) m
  else m.
Definition shift_b_block_map (a : DNDarray T) (rem_map : list ((Z * Z) * (Z * Z)))
    (m : block_map) : block_map :=
  if split_is a 1 then
    shift_for_remainders bm_shift_dim0 (map (fun row => snd (fst row)) rem_map) m
  else m.

(** Block-map construction as a whole, lines 365-463, from the block sizes
    and the gathered tables. *)
Definition build_block_maps (a b : DNDarray T) (mB kB nB : Z)
    (lshape_map rem_map : list ((Z * Z) * (Z * Z)))
    (index_map : list (((Z * Z) * (Z * Z)) * ((Z * Z) * (Z * Z))))
    : result (block_map * block_map) :=
  a_block_map ← new_a_block_map a mB kB;
  a_block_map ← fill_a_block_map a_block_map mB kB lshape_map index_map;
  let a_block_map := shift_a_block_map b rem_map a_block_map in
  b_block_map ← new_b_block_map b kB nB;
  b_block_map ← fill_b_block_map b_block_map kB nB lshape_map index_map;
  let b_block_map := shift_b_block_map a rem_map b_block_map in
  Ok (a_block_map, b_block_map).

(** Lines 283-463 for two split operands. *)
Definition setup_ring (a b : DNDarray T) : result ring_setup :=
  '(kB, inner) ← inner_sizes a b;
  let lshape_map := gather_lshapes a b in
  '(mB, nB) ← outer_blocks lshape_map;
  rem_map ← outer_flags a b mB kB nB inner;
  let index_map := gather_index_map a b in
  '(a_block_map, b_block_map) ← build_block_maps a b mB kB nB lshape_map rem_map index_map;
  Ok (mkSetup kB mB nB lshape_map rem_map index_map a_block_map b_block_map).

End BlockMaps.

(** *** The work loops (lines 465-784) and the block setter (lines 787-827) *)

Section WorkLoops.
Context {T : Type} `{Backend T}.
Variable size : Z.

(** [(flags == 1).nonzero()]: the ranks whose flag is set. *)
Definition rem_locs (flags : list Z) : list Z :=
  map fst (filter (fun '(_, f) => f =? 1) (zip (ranks size) flags)).
Definition contains (locs : list Z) (x : Z) : bool := existsb (Z.eqb x) locs.

Definition index_row (index_map : list (((Z * Z) * (Z * Z)) * ((Z * Z) * (Z * Z)))) (pr : Z)
    : ((Z * Z) * (Z * Z)) * ((Z * Z) * (Z * Z)) :=
  nth (Z.to_nat pr) index_map (((0, 0), (0, 0)), ((0, 0), (0, 0))).

(** [__mm_c_block_setter]: [shp_b[1]] and [b_block_map[b_proc].shape[0]] are
    the first block dimension of [b]'s map, [shp_a[2]] the second one of
    [a]'s. *)
Definition mm_c_block_setter (b_proc a_proc : Z) (a_data b_data : tensor T)
    (b_block_map a_block_map : block_map) (b_split a_split : Z) (mB kB nB : Z)
    (c : tensor T) : result (tensor T) :=
  let offset_a := if negb (b_proc =? 0) then b_proc * bm_dim0 b_block_map else 0 in
  let offset_b := if negb (a_proc =? 0) then a_proc * bm_dim1 a_block_map else 0 in
  foldM (fun c bl_1_a =>
    foldM (fun c bl_0_a =>
      foldM (fun c bl_1_b =>
        foldM (fun c bl_0_b =>
                 '(a_start0, a_start1) ← bm_get size a_block_map a_proc bl_0_a bl_1_a;
                 let a_block := getslice a_data (Some a_start0) (Some (a_start0 + mB))
                                         (Some a_start1) (Some (a_start1 + kB)) in
                 '(b_start0, b_start1) ← bm_get size b_block_map b_proc bl_0_b bl_1_b;
                 let b_block := getslice b_data (Some b_start0) (Some (b_start0 + kB))
                                         (Some b_start1) (Some (b_start1 + nB)) in
                 let c_start0 := a_start0 in
                 let c_start1 := b_start1 in
                 p ← torch_matmul a_block b_block;
                 iadd_slice c (Some c_start0) (Some (c_start0 + mB))
                            (Some c_start1) (Some (c_start1 + nB)) p)
              (if a_split =? 1 then seqZ offset_b (bm_dim0 a_block_map)
               else seqZ 0 (bm_dim0 b_block_map))
              c)
        (seqZ 0 (bm_dim1 b_block_map)) c)
      (seqZ 0 (bm_dim0 a_block_map)) c)
    (if b_split =? 0 then seqZ offset_a (bm_dim0 b_block_map)
     else seqZ 0 (bm_dim0 a_block_map))
    c.

Definition split_axis (a : DNDarray T) : Z :=
  match split a with Some s => s | None => 0 end.

(** Lines 468-591, [a] and [b] both split along axis 0, on process [rank]:
    the shards of [b] arrive one after the other ([b_lp_data[pr]] is the
    local tensor of process [pr]) and are multiplied into [c]. *)
Definition split_0_loop (rank : Z) (a b : DNDarray T) (st : ring_setup) (c : tensor T)
    : result (tensor T) :=
  let split_01_flag := false in
  let b_rem_locs0 := rem_locs (map (fun row => fst (snd row)) (rem_map st)) in
  let a_rem_locs0 := rem_locs (map (fun row => fst (fst row)) (rem_map st)) in
  let numel_b := Z.of_nat (length b_rem_locs0) in
  let a_node_rem_s0 :=
    getslice_step (local a rank) None (Some (mB st)) 1
                  (Some (kB st)) (Some ((kB st + 1) * numel_b)) (kB st + 1) in
  let b_rem := zeros numel_b (snd (lshape b rank)) in
  r_loc ← (if contains a_rem_locs0 rank then
             r ← getrow (local a rank) (-1);
             let own := fst (fst (index_row (index_map st) rank)) in
             Ok (Some (r, snd own - fst own - 1))
           else Ok None);
  let setter pr c :=
    mm_c_block_setter pr rank (local a rank) (local b pr) (b_block_map st) (a_block_map st)
                      (split_axis b) (split_axis a) (mB st) (kB st) (nB st) c in
  let save_rem pr b_rem :=
    if contains b_rem_locs0 pr then
      last ← getrow (local b pr) (-1); set_row b_rem pr last
    else Ok b_rem in
  '(c, b_rem) ←
    foldM (fun '(c, b_rem) pr =>
             '(c, b_rem) ←
               (if negb (pr =? 0) then
                  c ← setter (pr - 1) c;
                  b_rem ← save_rem (pr - 1) b_rem;
                  c ← (if negb (length a_rem_locs0 =? 0)%nat then
                         match r_loc with
                         | Some (r, r_loc) =>
                           let '(st0, sp0) := fst (snd (index_row (index_map st) (pr - 1))) in
                           p ← torch_matmul (getslice r None None (Some st0) (Some sp0))
                                            (local b (pr - 1));
                           iadd_row c r_loc p
                         | None => Ok c
                         end
                       else Ok c);
                  Ok (c, b_rem)
                else Ok (c, b_rem));
             if pr =? size - 1 then
               c ← setter pr c;
               b_rem ← save_rem pr b_rem;
               c ← (if negb (length a_rem_locs0 =? 0)%nat then
                      match r_loc with
                      | Some (r, r_loc) =>
                        let '(st0, sp0) := fst (snd (index_row (index_map st) pr)) in
                        p ← torch_matmul (getslice r None None (Some st0) (Some sp0))
                                         (local b pr);
                        if split_01_flag then
                          let '(st1, sp1) := snd (snd (index_row (index_map st) pr)) in
                          i ← int_index (nrows c) r_loc;
                          iadd_slice c (Some i) (Some (i + 1)) (Some st1) (Some sp1) p
                        else iadd_row c r_loc p
                      | None => Ok c
                      end
                    else Ok c);
               c ← (if negb (numel_b =? 0) then
                      p ← torch_matmul a_node_rem_s0 b_rem;
                      iadd_slice c None (Some (nrows a_node_rem_s0)) None None p
                    else Ok c);
               Ok (c, b_rem)
             else Ok (c, b_rem))
          (ranks size) (c, b_rem);
  Ok c.

(** Lines 593-711, [a] and [b] both split along axis 1: the shards of [a]
    arrive one after the other. *)
Definition split_1_loop (rank : Z) (a b : DNDarray T) (st : ring_setup) (c : tensor T)
    : result (tensor T) :=
  let b_rem_locs1 := rem_locs (map (fun row => snd (snd row)) (rem_map st)) in
  let a_rem_locs1 := rem_locs (map (fun row => snd (fst row)) (rem_map st)) in
  let numel_a := Z.of_nat (length a_rem_locs1) in
  let b_node_rem_s1 :=
    getslice_step (local b rank) (Some (kB st)) (Some ((kB st + 1) * numel_a)) (kB st + 1)
                  None (Some (nB st)) 1 in
  let a_rem := zeros (fst (lshape a rank)) numel_a in
  r_loc ← (if contains b_rem_locs1 rank then
             r ← getcol (local b rank) (-1);
             let own := snd (snd (index_row (index_map st) rank)) in
             Ok (Some (r, snd own - fst own - 1))
           else Ok None);
  let setter pr c :=
    mm_c_block_setter rank pr (local a pr) (local b rank) (b_block_map st) (a_block_map st)
                      (split_axis b) (split_axis a) (mB st) (kB st) (nB st) c in
  let save_rem pr a_rem :=
    if contains a_rem_locs1 pr then
      last ← getcol (local a pr) (-1); set_col a_rem pr last
    else Ok a_rem in
  let add_r pr c :=
    if negb (length b_rem_locs1 =? 0)%nat then
      match r_loc with
      | Some (r, r_loc) =>
        let '(st1, sp1) := snd (fst (index_row (index_map st) pr)) in
        p ← torch_matmul (local a pr) (getslice r (Some st1) (Some sp1) None None);
        iadd_col c r_loc p
      | None => Ok c
      end
    else Ok c in
  '(c, a_rem) ←
    foldM (fun '(c, a_rem) pr =>
             '(c, a_rem) ←
               (if negb (pr =? 0) then
                  c ← setter (pr - 1) c;
                  a_rem ← save_rem (pr - 1) a_rem;
                  c ← add_r (pr - 1) c;
                  Ok (c, a_rem)
                else Ok (c, a_rem));
             if pr =? size - 1 then
               c ← setter pr c;
               a_rem ← save_rem pr a_rem;
               c ← add_r pr c;
               c ← (if negb (numel_a =? 0) then
                      p ← torch_matmul a_rem b_node_rem_s1;
                      iadd_slice c None None None (Some (ncols b_node_rem_s1)) p
                    else Ok c);
               Ok (c, a_rem)
             else Ok (c, a_rem))
          (ranks size) (c, a_rem);
  Ok c.

(** Lines 713-760, [a] split along axis 0 and [b] along axis 1. *)
Definition split_01_loop (rank : Z) (a b : DNDarray T) (st : ring_setup) (c : tensor T)
    : result (tensor T) :=
  let step pr c :=
    let '(st0, sp0) := fst (fst (index_row (index_map st) pr)) in
    let sp0 := sp0 + 1 in
    let '(st1, sp1) := snd (snd (index_row (index_map st) pr)) in
    p ← torch_matmul (local a rank) (local b pr);
    iadd_slice c None (Some (sp0 - st0)) (Some st1) (Some sp1) p in
  foldM (fun c pr =>
           c ← (if negb (pr =? 0) then step (pr - 1) c else Ok c);
           if pr =? size - 1 then step pr c else Ok c)
        (ranks size) c.

(** Lines 762-779, [a] split along axis 1 and [b] along axis 0: the partial
    product of process [rank], before the Allreduce. *)
Definition split_10_partial (rank : Z) (a b : DNDarray T) (st : ring_setup)
    : result (tensor T) :=
  let a_rem_locs1 := rem_locs (map (fun row => snd (fst row)) (rem_map st)) in
  let b_rem_locs0 := rem_locs (map (fun row => fst (snd row)) (rem_map st)) in
  let res := zeros (fst (gshape a)) (snd (gshape b)) in
  n ← floordiv (snd (lshape a rank)) (kB st);
  res ← foldM (fun res i =>
                 p ← torch_matmul
                       (getslice (local a rank) None (Some (mB st))
                                 (Some (i * kB st)) (Some (i * kB st + kB st)))
                       (getslice (local b rank) (Some (i * kB st)) (Some (i * kB st + kB st))
                                 None (Some (nB st)));
                 iadd res p)
              (seqZ 0 n) res;
  if contains a_rem_locs1 rank && contains b_rem_locs0 rank then
    col ← getcol (local a rank) (-1);
    row ← getrow (local b rank) (-1);
    p ← torch_matmul col row;
    iadd res p
  else Ok res.

End WorkLoops.

(** *** [matmul] *)

Section Dispatch.
Context {T : Type} `{Backend T}.
Variable size : Z.

Definition everywhere (t : tensor T) : list (tensor T) := map (fun _ => t) (ranks size).

Definition shape_mismatch (a b : DNDarray T) : exn :=
  ValueError [Txt "If the last dimension of a ("; Num (snd (gshape a));
              Txt ") is not the same size as the second-to-last dimension of b. (";
              Num (fst (gshape b)); Txt ")"].

(** The return of a ring branch: [c] with the local tensors that the work
    loop has filled. *)
Definition with_locals (c : DNDarray T) (ls : list (tensor T)) : DNDarray T :=
  mkDNDarray (gshape c) (dtype c) (split c) ls.

(** [matmul(a, b, allow_resplit)] for two matrices, run by all [size]
    processes in step.  [a] and [b] name the caller's objects.  The operands
    being matrices, [len(gshape) < 2] is false and [vector_flag] stays
    [False].  The broadcasts and waits of a work loop are entered in the log
    together, ahead of the products that the loop computes between them. *)
Definition matmul (a b : nat) (allow_resplit : bool) : M (world T) (DNDarray T) :=
  A ← deref a;
  B ← deref b;
  if negb (snd (gshape A) =? fst (gshape B)) then raise (shape_mismatch A B)
  else
  let c_type := promote_types (dtype A) (dtype B) in
  a ← (if negb (htype_eqb (dtype A) c_type) then alloc (astype c_type A) else mret a);
  b ← (if negb (htype_eqb (dtype B) c_type) then alloc (astype c_type B) else mret b);
  A ← deref a;
  B ← deref b;
  let c_shape := (fst (gshape A), snd (gshape B)) in
  if split_is_None A && split_is_None B then
    if negb allow_resplit then
      ts ← lift (mapM (fun rank => torch_matmul (local A rank) (local B rank)) (ranks size));
      mret (factories_array size ts None c_type)
    else
      _ ← mutate a (resplit_0 size A);
      A ← deref a;
      B ← deref b;
      cs ← lift (mapM (fun rank =>
                         let slice_0 := fst (chunk size rank (gshape A) (split A)) in
                         hold ← torch_matmul (local A rank) (local B rank);
                         iadd_slice (zeros (fst c_shape) (snd c_shape))
                                    (Some (fst slice_0)) (Some (snd slice_0)) None None hold)
                      (ranks size));
      _ ← communicate [Allreduce];
      mret (mkDNDarray c_shape c_type None (everywhere (allreduce_sum cs)))
  else
  let vector_flag := false in
  if ((split_is A 0 && split_is_None B) || (split_is_None A && split_is B 1))
     && negb vector_flag then
    let split := if split_is_None A then split B else split A in
    let c := factories_zeros size c_shape split c_type in
    ls ← lift (mapM (fun rank => p ← torch_matmul (local A rank) (local B rank);
                                 iadd (local c rank) p)
                    (ranks size));
    mret (with_locals c ls)
  else if split_is A 1 && split_is_None B then
    cs ← lift (mapM (fun rank =>
                       let a_idx := chunk size rank (gshape A) (split A) in
                       p ← torch_matmul
                             (local A rank)
                             (getslice (local B rank) (Some (fst (snd a_idx)))
                                       (Some (fst (snd a_idx) + snd (lshape A rank))) None None);
                       iadd (zeros (fst c_shape) (snd c_shape)) p)
                    (ranks size));
    _ ← communicate [Allreduce];
    mret (factories_array size (everywhere (allreduce_sum cs))
                          (if 1 <? snd (gshape B) then split A else Some 0) c_type)
  else if split_is_None A && split_is B 0 then
    cs ← lift (mapM (fun rank =>
                       let b_idx := chunk size rank (gshape B) (split B) in
                       p ← torch_matmul
                             (getslice (local A rank) None None (Some (fst (fst b_idx)))
                                       (Some (fst (fst b_idx) + fst (lshape B rank))))
                             (local B rank);
                       iadd (zeros (fst c_shape) (snd c_shape)) p)
                    (ranks size));
    _ ← communicate [Allreduce];
    mret (factories_array size (everywhere (allreduce_sum cs))
                          (if 1 <? fst (gshape A) then split B else Some 0) c_type)
  else if split_is A 0 && split_is_None B then
    cs ← lift (mapM (fun rank =>
                       let a_idx := chunk size rank (gshape A) (split A) in
                       p ← torch_matmul (local A rank) (local B rank);
                       iadd_slice (zeros (fst c_shape) (snd (lshape B rank)))
                                  (Some (fst (fst a_idx))) (Some (snd (fst a_idx))) None None p)
                    (ranks size));
    _ ← communicate [Allreduce];
    let split := if 1 <? snd (gshape B) then split A else Some 0 in
    let split := if negb vector_flag then split else Some 0 in
    mret (factories_array size (everywhere (allreduce_sum cs)) split c_type)
  else if split_is_None A && split_is B 1 then
    cs ← lift (mapM (fun rank =>
                       p ← torch_matmul (local A rank) (local B rank);
                       iadd (zeros (fst c_shape) (snd (lshape B rank))) p)
                    (ranks size));
    let split := if 1 <? snd (gshape A) then split_axis B else 0 in
    let split := if negb vector_flag then split else 0 in
    mret (factories_array_is_split cs split c_type)
  else
  let split_0_flag := split_is A 0 && split_is B 0 in
  let split_1_flag := split_is A 1 && split_is B 1 in
  let split_01_flag := split_is A 0 && split_is B 1 in
  let split_10_flag := split_is A 1 && split_is B 0 in
  if negb (split_0_flag || split_1_flag || split_01_flag || split_10_flag) then
    raise (NotImplementedError [Txt "splits > 1 not implemented"])
  else
  '(kB, inner) ← lift (inner_sizes size A B);
  let lshape_map := gather_lshapes size A B in
  _ ← communicate [Allreduce];
  '(mB, nB) ← lift (outer_blocks lshape_map);
  rem_map ← lift (outer_flags size A B mB kB nB inner);
  _ ← communicate [Iallreduce];
  let index_map := gather_index_map size A B in
  _ ← communicate [Iallreduce];
  let c := factories_zeros size c_shape (split A) c_type in
  _ ← communicate [Iallreduce];
  a_block_map ← lift (new_a_block_map size A mB kB);
  _ ← communicate [Wait];
  a_block_map ← lift (fill_a_block_map size a_block_map mB kB lshape_map index_map);
  _ ← communicate [Wait];
  let a_block_map := shift_a_block_map B rem_map a_block_map in
  b_block_map ← lift (new_b_block_map size B kB nB);
  b_block_map ← lift (fill_b_block_map size b_block_map kB nB lshape_map index_map);
  let b_block_map := shift_b_block_map A rem_map b_block_map in
  _ ← communicate [Wait];
  let st := mkSetup kB mB nB lshape_map rem_map index_map a_block_map b_block_map in
  let exchange :=
    flat_map (fun pr => [Ibcast pr] ++ (if negb (pr =? 0) then [Wait] else [])
                                    ++ (if pr =? size - 1 then [Wait] else []))
             (ranks size) in
  if split_0_flag then
    _ ← communicate exchange;
    ls ← lift (mapM (fun rank => split_0_loop size rank A B st (local c rank)) (ranks size));
    mret (with_locals c ls)
  else if split_1_flag then
    _ ← communicate exchange;
    ls ← lift (mapM (fun rank => split_1_loop size rank A B st (local c rank)) (ranks size));
    mret (with_locals c ls)
  else if split_01_flag then
    _ ← communicate exchange;
    ls ← lift (mapM (fun rank => split_01_loop size rank A B st (local c rank)) (ranks size));
    mret (with_locals c ls)
  else
    rs ← lift (mapM (fun rank => split_10_partial size rank A B st) (ranks size));
    _ ← communicate [Allreduce];
    let split := if 1 <? snd (gshape B) then split A else Some 0 in
    let split := if negb vector_flag then split else Some 0 in
    mret (factories_array size (everywhere (allreduce_sum rs)) split c_type).

End Dispatch.

(** The partition axis of the product as a function of the operands' axes
    and of the number of columns [Q] of [b]: [a]'s axis, unless [a] is split
    along axis 1, [b] is not, and the product has at most one column, which
    gives axis 0; [b]'s axis if [a] is not split. *)
Definition result_split (split_a split_b : option Z) (Q : Z) : option Z :=
  match split_a with
  | None => split_b
  | Some sa =>
    match split_b with
    | Some 1 => Some sa
    | _ => if (sa =? 1) && (Q <=? 1) then Some 0 else Some sa
    end
  end.

(** The policy as the specification words it. *)
Definition preferred_split (split_a split_b : option Z) : option Z :=
  match split_a with
  | Some sa => Some sa
  | None => split_b
  end.

(** A DNDarray as [factories] builds it: every process holds its chunk of
    the global shape. *)
Definition balanced {T} `{Backend T} (size : Z) (a : DNDarray T) : Prop :=
  forall rank, 0 <= rank < size ->
    lshape a rank = (extent (fst (chunk size rank (gshape a) (split a))),
                     extent (snd (chunk size rank (gshape a) (split a)))).

(** The operand that [matmul] works on after the promotion to [c_type]. *)
Definition promoted {T} `{Backend T} (c_type : htype) (a : DNDarray T) : DNDarray T :=
  if htype_eqb (dtype a) c_type then a else astype c_type a.

(** The operand pairs of the ring exchange: 0/0, 1/1 and 0/1. *)
Definition ring_exchange {T} (a b : DNDarray T) : bool :=
  (split_is a 0 && split_is b 0) || (split_is a 1 && split_is b 1)
  || (split_is a 0 && split_is b 1).

(** [m] is the least value of [l]: it is one of the values, and none of
    them is smaller. *)
Definition least (m : Z) (l : list Z) : Prop :=
  In m l /\ forall x, In x l -> m <= x.

(** The extents that the table of local shapes records along the three
    dimensions of the product: the rows of [a]; the contraction, which is
    the columns of [a] and the rows of [b]; the columns of [b]. *)
Definition table_rows (table : list ((Z * Z) * (Z * Z))) : list Z :=
  map (fun row => fst (fst row)) table.
Definition table_inner (table : list ((Z * Z) * (Z * Z))) : list Z :=
  map (fun row => snd (fst row)) table ++ map (fun row => fst (snd row)) table.
Definition table_columns (table : list ((Z * Z) * (Z * Z))) : list Z :=
  map (fun row => snd (snd row)) table.

End MatMul.

(** ** [tril] and [triu] (linalg.py, lines 1891-2017) *)

Module Tri.
Import Transpose.

Section TriOp.
Context {T : Type} `{MatMul.Backend T}.

(** The two callables that [tril] and [triu] hand to [__tri_op]:
    [torch.tril] and [torch.triu]. *)
Inductive triangle := Lower | Upper.

(** The element in row [i] and column [j] stays: [j <= i + k] for the lower
    triangle, [j >= i + k] for the upper one. *)
Definition kept (op : triangle) (k i j : Z) : bool :=
  match op with
  | Lower => j - i <=? k
  | Upper => k <=? j - i
  end.

(** [op(t, k)] as torch defines it: on the last two dimensions of [t], the
    other elements set to zero; a tensor with fewer than two dimensions is
    refused. *)
Definition torch_tri (op : triangle) (t : tensor T) (k : Z) : result (tensor T) :=
  let d := length (tshape t) in
  if (2 <=? d)%nat then
    Ok (mkTensor (tshape t)
          (fun idx => if kept op k (nth (d - 2) idx 0) (nth (d - 1) idx 0)
                      then tget t idx else MatMul.zero))
  else Raise RuntimeError.

(** [t.expand(n, -1)] for a 1-D tensor [t]: [n] rows, each of them [t]. *)
Definition expand (n : Z) (t : tensor T) : tensor T :=
  mkTensor (n :: tshape t) (fun idx => tget t (tail idx)).

(** Modelled from the spec: the first result of [comm.chunk(shape, split)],
    where the extent of the process starts along the split axis (section 3,
    ChunkDescriptor); 0 for an array that is not split. *)
Definition chunk_offset (size rank : Z) (shape : list Z) (split : option Z) : Z :=
  match split with
  | None => 0
  | Some s => fst (MatMul.chunk_bounds (nth (Z.to_nat s) shape 0) size rank)
  end.

(** [itertools.product] of the unpacked [ranges]: the indices in
    lexicographic order. *)
Fixpoint product (ranges : list (list Z)) : list (list Z) :=
  match ranges with
  | [] => [[]]
  | r :: rs => flat_map (fun x => map (cons x) (product rs)) r
  end.

(** [t[partial_index + (slice(None), slice(None))]]: the ints of
    [partial_index] come from the ranges of their dimensions. *)
Definition select (t : tensor T) (partial_index : list Z) : result (tensor T) :=
  if (length partial_index + 2 <=? length (tshape t))%nat then
    Ok (mkTensor (drop (length partial_index) (tshape t))
                 (fun idx => tget t (partial_index ++ idx)))
  else Raise IndexError.

Fixpoint starts_with (partial_index idx : list Z) : bool :=
  match partial_index, idx with
  | [], _ => true
  | x :: p, y :: idx' => (x =? y) && starts_with p idx'
  | _ :: _, [] => false
  end.

(** [op(original[index], k, out=output[index])]: the result is written
    through the view into [output]. *)
Definition tri_into (op : triangle) (k : Z) (original output : tensor T)
    (partial_index : list Z) : result (tensor T) :=
  src ← select original partial_index;
  _ ← select output partial_index;
  r ← torch_tri op src k;
  Ok (mkTensor (tshape output)
        (fun idx => if starts_with partial_index idx
                    then tget r (drop (length partial_index) idx)
                    else tget output idx)).

(** [__tri_op(m, k, op)] on the process [rank] of the [comm m] processes,
    for a DNDarray [m] and an int [k] (so that [int(k)] is [k]). *)
Definition tri_op (rank : Z) (m : DNDarray T) (k : Z) (op : triangle)
    : result (DNDarray T) :=
  let offset := chunk_offset (comm m) rank (shape m) (split m) in
  let dimensions := Z.of_nat (length (shape m)) in
  if dimensions =? 1 then
    n ← getitem (shape m) 0;
    let triangle := expand n (array m) in
    triangle ← (if negb (QR.numel (tshape triangle) =? 0)
                then torch_tri op triangle (k - offset)
                else Ok triangle);
    Ok (mkDNDarray triangle [n; n] (dtype m)
                   (match split m with None => None | Some _ => Some 1 end)
                   (dev m) (comm m))
  else
    let original := array m in
    let output := original in
    let k := match split m with
             | None => k
             | Some s => if s + 1 =? dimensions - 1 then k + offset
                         else if s =? dimensions - 1 then k - offset
                         else k
             end in
    output ← (if dimensions =? 2 then
                if 0 <? QR.numel (tshape original) then torch_tri op original k
                else Ok output
              else
                let ranges := map (fun elements => seqZ 0 elements)
                                  (take (length (tshape original) - 2) (tshape original)) in
                MatMul.foldM (tri_into op k original) (product ranges) output);
    Ok (mkDNDarray output (shape m) (dtype m) (split m) (dev m) (comm m)).

Definition tril (rank : Z) (m : DNDarray T) (k : Z) : result (DNDarray T) :=
  tri_op rank m k Lower.
Definition triu (rank : Z) (m : DNDarray T) (k : Z) : result (DNDarray T) :=
  tri_op rank m k Upper.

(** The diagonal that [__tri_op] hands to the callable for an array of at
    least two dimensions. *)
Definition local_diagonal (rank : Z) (m : DNDarray T) (k : Z) : Z :=
  let offset := chunk_offset (comm m) rank (shape m) (split m) in
  let dimensions := Z.of_nat (length (shape m)) in
  match split m with
  | None => k
  | Some s => if s + 1 =? dimensions - 1 then k + offset
              else if s =? dimensions - 1 then k - offset
              else k
  end.

(** [idx] is an index into a tensor of shape [shape]. *)
Definition in_bounds (shape idx : list Z) : Prop :=
  Forall2 (fun d i => 0 <= i < d) shape idx.

(** The place in the global array of the element that the process [rank]
    holds at the local index [idx]. *)
Definition global_index (size rank : Z) (shape : list Z) (split : option Z)
    (idx : list Z) : list Z :=
  match split with
  | None => idx
  | Some s => <[Z.to_nat s := nth (Z.to_nat s) idx 0 + chunk_offset size rank shape split]> idx
  end.

End TriOp.
End Tri.

(** ** What [matmul] is to compute and what it may touch *)

Module MatMulSpec.
Import MatMul.
Section Defs.
Context {T : Type} `{Backend T}.

(** The DNDarray [a] holds the global matrix [g]: every process has, in a
    local tensor of the size of its chunk, the elements of [g] at the places
    of the chunk. *)
Definition holds (size : Z) (a : DNDarray T) (g : tensor T) : Prop :=
  gshape a = (nrows g, ncols g) /\
  forall rank, 0 <= rank < size ->
    let idx := chunk size rank (gshape a) (split a) in
    nrows (local a rank) = extent (fst idx) /\
    ncols (local a rank) = extent (snd idx) /\
    forall i j, 0 <= i < extent (fst idx) -> 0 <= j < extent (snd idx) ->
      elt (local a rank) i j = elt g (fst (fst idx) + i) (fst (snd idx) + j).

(** The product of two global matrices as a single process computes it:
    the sum over the contraction index in rising order, added onto the
    zeros of the result tensor. *)
Definition dense_product (ga gb : tensor T) : tensor T :=
  mkTensor (nrows ga) (ncols gb)
    (fun i j => add zero (sum_over (seqZ 0 (ncols ga)) (fun k => mul (elt ga i k) (elt gb k j)))).

(** The state [w'] is [w] with new objects and collective calls: no object
    of [w] is changed. *)
Definition extends (w w' : world T) : Prop :=
  exists objs ops, heap w' = heap w ++ objs /\ log w' = log w ++ map Comm ops.

(** A computation that only allocates and communicates. *)
Definition quiet {A} (m : M (world T) A) : Prop :=
  forall w r w', m w = (r, w') -> extends w w'.

(** The value of a remainder flag of lines 299-302 and 318-321:
    [1 if n % block != 0 or (kB == 1 and n != 1) else 0]. *)
Definition rem_value (n block kB : Z) : Z :=
  if negb (n mod block =? 0) || ((kB =? 1) && negb (n =? 1)) then 1 else 0.

(** The state of the result tensor of process [rank] in the loop for [a]
    split along axis 0 and [b] along axis 1, once the shards of the first
    [m] processes have been multiplied in: their columns hold the product,
    the others are zero still. *)
Definition filled_to (size rank : Z) (A : DNDarray T) (GB : tensor T) (m : Z) (c : tensor T)
    : Prop :=
  nrows c = nrows (local A rank) /\ ncols c = ncols GB /\
  forall i j, 0 <= i < nrows c -> 0 <= j < ncols GB ->
    elt c i j = if j <? fst (chunk_bounds (ncols GB) size m)
                then add zero (sum_over (seqZ 0 (ncols (local A rank)))
                                        (fun k => mul (elt (local A rank) i k) (elt GB k j)))
                else zero.

End Defs.
End MatMulSpec.

(** ** [dot] (linalg.py, lines 15-77) *)

Module Dot.
Import MatMul.

Section DotDef.
Context {T : Type} `{Backend T}.
(** The number of processes. *)
Variable size : Z.

(** An operand of [dot]: a Python float or int, or a DNDarray object with
    its [numdims].  An object of two dimensions is one of the matrices of
    the process group's state. *)
Inductive operand :=
| Number (x : T)
| Array (numdims : Z) (r : nat).

(** [a * b] is the work of heat/core/arithmetics.py, and the inner product
    of two vectors (lines 50-55: the chunk slice, DNDarray indexing,
    [torch.dot] and the Allreduce) that of heat/core/dndarray.py and torch;
    [dot] is given for any two computations in their place, with results of
    a type [R]. *)
Variable R : Type.
Variable multiply : operand -> operand -> M (world T) R.
Variable inner_product : nat -> nat -> M (world T) R.

(** What [dot] returns: the value of a product of scalars or of vectors, a
    new matrix, or the object that was given as [out]. *)
Inductive dot_result :=
| Value (r : R)
| Product (c : DNDarray T)
| Out (o : nat).

(** The first test of [dot]: [a] or [b] is a float or an int, or has no
    dimension; [or] looks at [numdims] only once both are known to be
    DNDarrays. *)
Definition scalar_case (a b : operand) : bool :=
  match a, b with
  | Number _, _ => true
  | _, Number _ => true
  | Array na _, Array nb _ => (na =? 0) || (nb =? 0)
  end.

Definition not_implemented : exn :=
  NotImplementedError [Txt "ht.dot not implemented for N-D dot M-D arrays"].

(** [dot(a, b, out)].  In the first two branches [out = ...] binds the
    local name only.  In the third the attributes of the object [out] are
    set one by one: its tensor, element type and split (and its device and
    communicator, which the matrices of this development do not carry). *)
Definition dot (a b : operand) (out : option nat) : M (world T) dot_result :=
  if scalar_case a b then
    match out with
    | Some _ => out ← multiply a b; mret (Value out)
    | None => r ← multiply a b; mret (Value r)
    end
  else
    match a, b with
    | Array na ra, Array nb rb =>
      if (na =? 1) && (nb =? 1) then
        ret ← inner_product ra rb;
        match out with
        | Some _ => mret (Value ret)
        | None => mret (Value ret)
        end
      else if (na =? 2) && (nb =? 2) then
        ret ← matmul size ra rb false;
        match out with
        | Some o =>
          O ← deref o;
          _ ← mutate o (mkDNDarray (gshape O) (dtype ret) (split ret) (larray ret));
          mret (Out o)
        | None => mret (Product ret)
        end
      else raise not_implemented
    | _, _ => raise not_implemented
    end.

End DotDef.
Arguments operand T : clear implicits.
Arguments dot_result T R : clear implicits.
Arguments Value {T R} r.
Arguments Product {T R} c.
Arguments Out {T R} o.
Arguments dot {T _} size {R} multiply inner_product a b out.
End Dot.

(** ** Concrete operands *)

Module Examples.
Import MatMul.

(** Elements that are small integers, which every float type holds exactly,
    with exact sums and products; the wider of two element types is the one
    later in the list of [htype]. *)
Definition width (t : htype) : Z :=
  match t with
  | ht_bool => 0 | ht_uint8 => 1 | ht_int8 => 2 | ht_int16 => 3
  | ht_int32 => 4 | ht_int64 => 5 | ht_float32 => 6 | ht_float64 => 7
  end.
Global Instance exact : Backend Z := {|
  zero := 0;
  add := Z.add;
  mul := Z.mul;
  convert := fun _ x => x;
  promote_types := fun x y => if width x <? width y then y else x
|}.

(** The global matrix [rows] of shape [n] by [m], distributed over [size]
    processes along [split]. *)
Definition distribute (size : Z) (split : option Z) (dt : htype) (n m : Z)
    (rows : list (list Z)) : DNDarray Z :=
  factories_array size (everywhere size (of_rows n m rows)) split dt.

(** The single-process product of two global matrices. *)
Definition dense (n p q : Z) (a b : list (list Z)) : result (list (list Z)) :=
  c ← torch_matmul (of_rows n p a) (of_rows p q b); Ok (to_rows c).

(** What a call returns or raises: the split and the local tensors of the
    result, process by process. *)
Definition observe (r : result (DNDarray Z) * world Z)
    : result (option Z * list (list (list Z))) :=
  match r with
  | (Ok c, _) => Ok (split c, map to_rows (larray c))
  | (Raise e, _) => Raise e
  end.

(** The state of a group whose only objects are the operands, [a] at 0 and
    [b] at 1. *)
Definition operands (a b : DNDarray Z) : world Z := mkWorld [a; b] [].

(** The operands of the cases below. *)
Definition float32_on (size : Z) (split : option Z) (n m : Z) (rows : list (list Z))
    : DNDarray Z :=
  distribute size split ht_float32 n m rows.
Definition square : list (list Z) := [[1; 2; 3]; [4; 5; 6]; [7; 8; 9]].
Definition identity3 : list (list Z) := [[1; 0; 0]; [0; 1; 0]; [0; 0; 1]].
Definition identity2 : list (list Z) := [[1; 0]; [0; 1]].

(** A three-dimensional array for [qr] and the 9 by 6 matrix of the
    docstrings, split along axis 0 over two processes, for [transpose]. *)
Definition sample_array : QR.DNDarray :=
  {| QR.shape := [9; 6; 2]; QR.split := Some 0; QR.dtype := ht_float32; QR.buffer := 0%nat |}.
Definition sample_matrix : Transpose.DNDarray Z :=
  {| Transpose.array := {| Transpose.tshape := [5; 6];
                           Transpose.tget := fun idx => nth 0 idx 0 * 6 + nth 1 idx 0 |};
     Transpose.shape := [9; 6]; Transpose.dtype := ht_int64; Transpose.split := Some 0;
     Transpose.dev := cpu; Transpose.comm := 2 |}.

End Examples.

(** ** More concrete operands *)

Module Samples.
Import MatMul Examples.

(** The shard of process 1 of the 9 by 6 matrix of [sample_matrix]: its
    last four rows. *)
Definition lower_shard : Transpose.DNDarray Z :=
  {| Transpose.array := {| Transpose.tshape := [4; 6];
                           Transpose.tget := fun idx => (5 + nth 0 idx 0) * 6 + nth 1 idx 0 |};
     Transpose.shape := [9; 6]; Transpose.dtype := ht_int64; Transpose.split := Some 0;
     Transpose.dev := cpu; Transpose.comm := 2 |}.

(** The vector [10, ..., 14] split over two processes, as process 1 holds
    it: the last two elements. *)
Definition sample_vector : Transpose.DNDarray Z :=
  {| Transpose.array := {| Transpose.tshape := [2];
                           Transpose.tget := fun idx => 13 + nth 0 idx 0 |};
     Transpose.shape := [5]; Transpose.dtype := ht_int64; Transpose.split := Some 0;
     Transpose.dev := cpu; Transpose.comm := 2 |}.

(** A 3 by 2 and a 2 by 3 matrix. *)
Definition tall : list (list Z) := [[1; 2]; [3; 4]; [5; 6]].
Definition wide : list (list Z) := [[1; 2; 3]; [4; 5; 6]].

(** A 2 by 5 and a 5 by 2 matrix. *)
Definition flat : list (list Z) := [[1; 2; 3; 4; 5]; [6; 7; 8; 9; 10]].
Definition steep : list (list Z) := [[1; 2]; [3; 4]; [5; 6]; [7; 8]; [9; 10]].

End Samples.

(** * Properties *)

(** ** [qr]: argument checks *)

Section QRChecks.
Import QR Examples.

(** C7: an [a] that is not a DNDarray or not 2-dimensional, or a [calc_q] or
    [overwrite_a] that is not a bool, makes [qr] raise a TypeError or a
    ValueError; the exception does not depend on the engine, which is never
    entered, and the process state is the one [qr] was called in. *)
Theorem qr_rejects_invalid_arguments (a tiles_per_proc calc_q overwrite_a : pyval) :
  isinstance_DNDarray a = false \/
  (exists d, a = VDNDarray d /\ length (shape d) <> 2%nat) \/
  isinstance_bool calc_q = false \/
  isinstance_bool overwrite_a = false ->
  exists e, (is_TypeError e || is_ValueError e) = true /\
    forall (W R : Type) (engine : DNDarray -> pyval -> bool -> bool -> M W R) (w : W),
      qr engine a tiles_per_proc calc_q overwrite_a w = (Raise e, w).
Proof.
  intros H. unfold qr.
  destruct a as [| | | | |d]; try (eexists; split; [|reflexivity]; reflexivity).
  destruct (negb (isinstance_int tiles_per_proc || isinstance_Tensor tiles_per_proc)) eqn:Ht;
    [eexists; split; [|reflexivity]; reflexivity|].
  destruct calc_q as [|cq| | | |]; try (eexists; split; [|reflexivity]; reflexivity).
  destruct overwrite_a as [|ow| | | |]; try (eexists; split; [|reflexivity]; reflexivity).
  destruct tiles_per_proc as [| | | |t|]; try discriminate Ht;
    try (eexists; split; [|reflexivity]; reflexivity).
  all: destruct (negb (Z.of_nat (length (shape d)) =? 2)) eqn:Hd;
    [eexists; split; [|reflexivity]; reflexivity|].
  all: exfalso; apply negb_false_iff, Z.eqb_eq in Hd.
  all: destruct H as [H|[(d' & Hd' & Hn)|[H|H]]]; try discriminate H.
  all: injection Hd' as <-; lia.
Qed.

Lemma qr_rejects_invalid_arguments_witness :
  exists e, (is_TypeError e || is_ValueError e) = true /\
    forall (W R : Type) (engine : DNDarray -> pyval -> bool -> bool -> M W R) (w : W),
      qr engine (VDNDarray sample_array) (VInt 1) (VBool true) (VBool false) w = (Raise e, w).
Proof.
  apply (qr_rejects_invalid_arguments (VDNDarray sample_array) (VInt 1) (VBool true) (VBool false)).
  right; left. exists sample_array. split; [reflexivity | simpl; lia].
Defined.

(** C9, as stated, fails in its last sentence: [True] given for
    [tiles_per_proc] is a bool and no plain int, and it passes every check
    of [qr], because [isinstance(True, int)] holds: [qr] goes on to its
    engine with it. *)
Lemma qr_bool_tiles_per_proc_passes :
  let d := {| shape := [9; 6]; split := None; dtype := ht_float32; buffer := 0%nat |} in
  type_of (VBool true) = TBool /\
  type_of (VBool true) <> TInt /\
  passes_validation (VDNDarray d) (VBool true) (VBool true) (VBool false) = true /\
  (forall (W R : Type) (engine : DNDarray -> pyval -> bool -> bool -> M W R) (w : W),
     qr engine (VDNDarray d) (VBool true) (VBool true) (VBool false) w
     = engine d (VBool true) true false w).
Proof.
  cbv zeta. split; [reflexivity|]. split; [discriminate|]. split; reflexivity.
Qed.

(** C9, amended: a tensor given for [tiles_per_proc] gets past the type
    check, and then, in a call with a DNDarray [a] and boolean flags, always
    raises the ValueError that reports its number of entries, under a
    message that allows a single element, a single-element tensor
    included; with any other arguments the call does not get past the
    checks either.  The arguments that pass every check have a
    [tiles_per_proc] that is an instance of [int], and for a matrix [a] and
    boolean flags every instance of [int] passes: the plain ints and the
    bools. *)
Theorem qr_tensor_tiles_per_proc_rejected (d : DNDarray) (t : list Z) (cq ow : bool) :
  (isinstance_int (VTensor t) || isinstance_Tensor (VTensor t)) = true /\
  (forall (W R : Type) (engine : DNDarray -> pyval -> bool -> bool -> M W R) (w : W),
     qr engine (VDNDarray d) (VTensor t) (VBool cq) (VBool ow) w
     = (Raise (ValueError
                 [Txt "tiles_per_proc must be a single element torch.Tenor or int, currently has ";
                  Num (numel t); Txt " entries"]), w)) /\
  (forall a calc_q overwrite_a, passes_validation a (VTensor t) calc_q overwrite_a = false) /\
  (forall a tiles_per_proc calc_q overwrite_a,
     passes_validation a tiles_per_proc calc_q overwrite_a = true ->
     isinstance_int tiles_per_proc = true) /\
  (forall tiles_per_proc,
     isinstance_int tiles_per_proc = true -> length (shape d) = 2%nat ->
     passes_validation (VDNDarray d) tiles_per_proc (VBool cq) (VBool ow) = true).
Proof.
  split; [reflexivity | split; [reflexivity |]]. split; [|split].
  - intros a calc_q overwrite_a. unfold passes_validation, qr.
    destruct a; try reflexivity.
    destruct calc_q; try reflexivity; destruct overwrite_a; reflexivity.
  - intros a tpp calc_q overwrite_a. unfold passes_validation, qr.
    destruct a; try discriminate.
    destruct tpp; try discriminate; try reflexivity.
    destruct calc_q; try discriminate; destruct overwrite_a; discriminate.
  - intros tpp Hint Hdim. unfold passes_validation, qr.
    destruct tpp; try discriminate Hint; cbn; rewrite Hdim; reflexivity.
Qed.

Lemma qr_tensor_tiles_per_proc_rejected_witness :
  passes_validation (VDNDarray {| shape := [9; 6]; split := Some 0;
                                  dtype := ht_float32; buffer := 0%nat |})
                    (VInt 2) (VBool true) (VBool false) = true.
Proof.
  apply (proj2 (proj2 (proj2 (proj2
           (qr_tensor_tiles_per_proc_rejected
              {| shape := [9; 6]; split := Some 0; dtype := ht_float32; buffer := 0%nat |}
              [1] true false))))).
  - reflexivity.
  - reflexivity.
Defined.

End QRChecks.

(** ** [transpose]: the split axis of the result *)

Section TransposeSplit.
Import Transpose Examples.

Lemma index_from_In (x : Z) (l : list Z) (p : Z) :
  In x l -> exists i : nat, index_from x l p = Some (p + Z.of_nat i) /\ l !! i = Some x.
Proof.
  revert p. induction l as [|y l IH]; intros p Hin; [destruct Hin|].
  simpl. destruct (y =? x) eqn:E.
  - apply Z.eqb_eq in E. subst y. exists 0%nat. split; [f_equal; lia | reflexivity].
  - destruct Hin as [->|Hin]; [rewrite Z.eqb_refl in E; discriminate|].
    destruct (IH (p + 1) Hin) as (i & Hi & Hl).
    exists (S i). split; [rewrite Hi; f_equal; lia | exact Hl].
Qed.

Lemma index_from_not_In (x : Z) (l : list Z) (p : Z) :
  ~ In x l -> index_from x l p = None.
Proof.
  revert p. induction l as [|y l IH]; intros p Hn; [reflexivity|].
  simpl. destruct (y =? x) eqn:E.
  - apply Z.eqb_eq in E. subst y. exfalso. apply Hn. left. reflexivity.
  - apply IH. intros Hin. apply Hn. right. exact Hin.
Qed.

Lemma no_repeat_NoDup (l : list Z) : NoDup l -> no_repeat l = true.
Proof.
  induction 1 as [|x l Hx Hl IH]; [reflexivity|].
  simpl. rewrite IH, andb_true_r. apply negb_true_iff.
  destruct (existsb (Z.eqb x) l) eqn:E; [|reflexivity].
  apply existsb_exists in E. destruct E as (y & Hy & Hxy).
  apply Z.eqb_eq in Hxy. subst y. exfalso. apply Hx. apply list_elem_of_In. exact Hy.
Qed.

Lemma wrap_negative_nonneg (n : Z) (l : list Z) :
  Forall (fun d => 0 <= d) l -> wrap_negative n l = l.
Proof.
  induction 1 as [|d l Hd Hl IH]; [reflexivity|].
  unfold wrap_negative in *. simpl. rewrite IH.
  destruct (d <? 0) eqn:E; [apply Z.ltb_lt in E; lia | reflexivity].
Qed.

Lemma In_seqZ_range (n d : Z) : In d (seqZ 0 n) <-> 0 <= d < n.
Proof. rewrite <- list_elem_of_In, elem_of_seqZ. lia. Qed.

Lemma permutation_in_range (n : Z) (l : list Z) :
  Permutation l (seqZ 0 n) -> Forall (fun d => 0 <= d < n) l.
Proof.
  intros HP. apply List.Forall_forall. intros d Hd.
  apply In_seqZ_range. eapply Permutation_in; eassumption.
Qed.

Lemma mapM_getitem_ok {A} (l : list A) (axes : list Z) :
  Forall (fun d => 0 <= d < Z.of_nat (length l)) axes ->
  exists r, mapM (getitem l) axes = Ok r.
Proof.
  induction 1 as [|d axes Hd Hl IH]; [exists []; reflexivity|].
  destruct IH as (r & Hr).
  assert (exists x, getitem l d = Ok x) as (x & Hx).
  { unfold getitem.
    destruct (d <? 0) eqn:E; [apply Z.ltb_lt in E; lia|].
    replace ((0 <=? d) && (d <? Z.of_nat (length l))) with true
      by (symmetry; apply andb_true_iff; split; [apply Z.leb_le | apply Z.ltb_lt]; lia).
    destruct (l !! Z.to_nat d) as [x|] eqn:El; [eauto|].
    apply lookup_ge_None in El. lia. }
  exists (x :: r). simpl. rewrite Hx. simpl. rewrite Hr. reflexivity.
Qed.

(** With at least one dim, [permute] is called with arguments. *)
Lemma torch_permute_args {T} (dims : list Z) (t : tensor T) :
  dims <> [] -> torch_permute dims t = permute_dims dims t.
Proof. destruct dims; [contradiction | reflexivity]. Qed.

Lemma torch_permute_Ok_inv {T} (dims : list Z) (t t' : tensor T) :
  torch_permute dims t = Ok t' -> permute_dims dims t = Ok t'.
Proof. destruct dims; [discriminate | exact (fun E => E)]. Qed.

Lemma permutation_nonempty (dims : list Z) (n : nat) :
  n <> 0%nat -> Permutation dims (seqZ 0 (Z.of_nat n)) -> dims <> [].
Proof.
  intros Hn HP ->. apply Permutation_length in HP. rewrite length_seqZ in HP.
  cbn in HP. lia.
Qed.

Lemma torch_permute_ok {T} (dims : list Z) (t : tensor T) :
  tshape t <> [] ->
  Permutation dims (seqZ 0 (Z.of_nat (length (tshape t)))) ->
  exists t', torch_permute dims t = Ok t'.
Proof.
  intros Hne HP.
  rewrite torch_permute_args
    by (apply (permutation_nonempty dims (length (tshape t))); [destruct (tshape t) |];
        [congruence | discriminate | exact HP]).
  unfold permute_dims.
  set (n := Z.of_nat (length (tshape t))) in *.
  assert (Z.of_nat (length dims) = n) as Hlen.
  { rewrite (Permutation_length HP), length_seqZ. lia. }
  rewrite Hlen, Z.eqb_refl. simpl.
  pose proof (permutation_in_range _ _ HP) as Hr.
  replace (forallb (fun d => (- n <=? d) && (d <? n)) dims) with true.
  2:{ symmetry. apply forallb_forall. intros d Hd.
      rewrite List.Forall_forall in Hr. specialize (Hr d Hd).
      apply andb_true_iff. split; [apply Z.leb_le | apply Z.ltb_lt]; lia. }
  simpl.
  fold (wrap_negative n dims). rewrite wrap_negative_nonneg.
  2:{ eapply Forall_impl; [exact Hr|]. simpl. intros; lia. }
  rewrite no_repeat_NoDup; [simpl; eauto|].
  rewrite HP. apply NoDup_seqZ.
Qed.

(** A sanitized [axes] that is a permutation: [transpose] returns, and the
    new split is the place of the old one in [axes]. *)
Lemma transpose_sanitized_permutation {T} (a : DNDarray T) (given : option (list Z))
    (axes : list Z) :
  well_formed a ->
  match given with
  | None => axes = reverse (seqZ 0 (Z.of_nat (length (shape a))))
  | Some g => axes = wrap_negative (Z.of_nat (length (shape a))) g
  end ->
  is_permutation (length (shape a)) axes ->
  exists a', transpose a given = Ok a' /\
    match split a with
    | None => split a' = None
    | Some s => exists i : nat, split a' = Some (Z.of_nat i) /\ axes !! i = Some s
    end.
Proof.
  intros (Hlen & Hne & Hs) Hax HP. unfold is_permutation in HP.
  set (n := Z.of_nat (length (shape a))) in *.
  assert (Z.of_nat (length axes) = n) as Hn.
  { rewrite (Permutation_length HP), length_seqZ. lia. }
  unfold transpose. fold n.
  assert (match given with
          | None => Ok (reverse (seqZ 0 n))
          | Some axes0 =>
            if negb (Z.of_nat (length axes0) =? n) then Raise axes_mismatch
            else Ok (wrap_negative n axes0)
          end = Ok axes) as ->.
  { destruct given as [g|]; [|congruence].
    assert (length g = length axes) as -> by (subst axes; unfold wrap_negative; now rewrite length_map).
    rewrite Hn, Z.eqb_refl. simpl. congruence. }
  cbn [mbind result_bind].
  destruct (torch_permute_ok axes (array a)) as (t' & Ht').
  { intros E. apply Hne. destruct (shape a); [reflexivity|]. rewrite E in Hlen. discriminate Hlen. }
  { rewrite Hlen. exact HP. }
  destruct (mapM_getitem_ok (shape a) axes) as (shp & Hshp).
  { exact (permutation_in_range _ _ HP). }
  destruct (split a) as [s|] eqn:Es.
  - assert (In s axes) as Hin.
    { eapply Permutation_in; [symmetry; exact HP|]. apply In_seqZ_range. exact Hs. }
    destruct (index_from_In s axes 0 Hin) as (i & Hi & Hl).
    unfold list_index. rewrite Hi. cbn [mbind result_bind]. rewrite Ht'.
    cbn [mbind result_bind]. rewrite Hshp. cbn [mbind result_bind].
    eexists. split; [reflexivity|]. simpl. exists i. split; [reflexivity | exact Hl].
  - cbn [mbind result_bind]. rewrite Ht'. cbn [mbind result_bind]. rewrite Hshp.
    cbn [mbind result_bind]. eexists. split; reflexivity.
Qed.

(** C8: for a well-formed DNDarray and an [axes] that, once its negative
    entries are wrapped, is a permutation of the array's axes (or for the
    default [None], the reversed axes), [transpose] returns an array split
    at the position that the old split axis has in [axes], and unsplit if
    [a] is; and for any [axes] that does not hold the split axis of [a],
    [transpose] raises the ValueError "axes do not match tensor shape". *)
Theorem transpose_split_follows_axes {T} (a : DNDarray T) (axes : list Z) :
  well_formed a ->
  (is_permutation (length (shape a)) (wrap_negative (Z.of_nat (length (shape a))) axes) ->
   exists a', transpose a (Some axes) = Ok a' /\
     match split a with
     | None => split a' = None
     | Some s => exists i : nat,
         split a' = Some (Z.of_nat i) /\
         wrap_negative (Z.of_nat (length (shape a))) axes !! i = Some s
     end) /\
  (exists a', transpose a None = Ok a' /\
     match split a with
     | None => split a' = None
     | Some s => split a' = Some (Z.of_nat (length (shape a)) - 1 - s)
     end) /\
  (forall s, split a = Some s ->
     ~ In s (wrap_negative (Z.of_nat (length (shape a))) axes) ->
     transpose a (Some axes) = Raise axes_mismatch).
Proof.
  intros Hwf. split; [|split].
  - intros HP. eapply transpose_sanitized_permutation; [exact Hwf | reflexivity | exact HP].
  - destruct (transpose_sanitized_permutation a None _ Hwf eq_refl) as (a' & Ha & Hsp).
    { unfold is_permutation. rewrite reverse_Permutation. reflexivity. }
    exists a'. split; [exact Ha|].
    destruct (split a) as [s|]; [|exact Hsp].
    destruct Hsp as (i & Hi & Hl). rewrite Hi. f_equal.
    destruct Hwf as (_ & _ & Hs).
    pose proof (lookup_lt_Some _ _ _ Hl) as Hlt. rewrite length_reverse in Hlt.
    rewrite reverse_lookup in Hl by exact Hlt.
    apply lookup_seqZ in Hl. rewrite length_seqZ in Hl, Hlt. lia.
  - intros s Hs Hn. unfold transpose. 
    destruct (negb (Z.of_nat (length axes) =? Z.of_nat (length (shape a)))); [reflexivity|].
    cbn [mbind result_bind]. rewrite Hs. unfold list_index.
    rewrite index_from_not_In by exact Hn. reflexivity.
Qed.

Lemma transpose_split_follows_axes_witness :
  (exists a', transpose sample_matrix (Some [-1; 0]) = Ok a' /\ split a' = Some 1) /\
  transpose sample_matrix (Some [1; 1]) = Raise axes_mismatch.
Proof.
  assert (well_formed sample_matrix) as Hwf.
  { unfold well_formed. simpl. split; [reflexivity | split; [discriminate | lia]]. }
  destruct (transpose_split_follows_axes sample_matrix [-1; 0] Hwf) as (H1 & _ & _).
  destruct (transpose_split_follows_axes sample_matrix [1; 1] Hwf) as (_ & _ & H3).
  split.
  - destruct H1 as (a' & Ha & i & Hi & Hl); [vm_compute; apply perm_swap|].
    exists a'. split; [exact Ha|]. rewrite Hi.
    destruct i as [|[|i]]; simpl in Hl; try discriminate Hl; reflexivity.
  - apply (H3 0); [reflexivity|]. vm_compute. intros [H|[H|[]]]; discriminate H.
Defined.

End TransposeSplit.

(** ** [matmul] *)

Section MonadLemmas.
Context {W : Type}.

Lemma bind_Ok {A B} (m : M W A) (k : A -> M W B) (w w' : W) (r : B) :
  (m ≫= k) w = (Ok r, w') ->
  exists x w1, m w = (Ok x, w1) /\ k x w1 = (Ok r, w').
Proof.
  unfold mbind, M_bind. destruct (m w) as [[x|e] w1]; [eauto | discriminate].
Qed.

Lemma ret_Ok {A} (x y : A) (w w' : W) :
  (mret x : M W A) w = (Ok y, w') -> y = x /\ w' = w.
Proof. unfold mret, M_ret. intros [= -> ->]. auto. Qed.

Lemma raise_Ok {A} (e : exn) (w w' : W) (x : A) :
  raise e w = (Ok x, w') -> False.
Proof. unfold raise. discriminate. Qed.

End MonadLemmas.

Section MatMulProps.
Import MatMul.
Context {T : Type} `{Backend T}.

Lemma deref_Ok (r : nat) (w w' : world T) (x : DNDarray T) :
  deref r w = (Ok x, w') -> heap w !! r = Some x /\ w' = w.
Proof.
  unfold deref. destruct (heap w !! r); [intros [= -> ->]; auto | discriminate].
Qed.

Lemma deref_lookup (r : nat) (w : world T) (x : DNDarray T) :
  heap w !! r = Some x -> deref r w = (Ok x, w).
Proof. unfold deref. intros ->. reflexivity. Qed.

(** C3: for operands whose inner dimensions differ, [matmul] raises the
    ValueError that quotes both dimensions; it does so for the whole process
    group, the test reading nothing but the two global shapes, and it leaves
    the state as it was: no object is changed and nothing is communicated. *)
Theorem matmul_inner_dimension_mismatch (size : Z) (a b : nat) (allow_resplit : bool)
    (w : world T) (A B : DNDarray T) :
  heap w !! a = Some A ->
  heap w !! b = Some B ->
  snd (gshape A) <> fst (gshape B) ->
  matmul size a b allow_resplit w
  = (Raise (ValueError
              [Txt "If the last dimension of a ("; Num (snd (gshape A));
               Txt ") is not the same size as the second-to-last dimension of b. (";
               Num (fst (gshape B)); Txt ")"]), w).
Proof.
  intros Ha Hb Hne. unfold matmul.
  unfold mbind at 1. unfold M_bind at 1. rewrite (deref_lookup _ _ _ Ha).
  unfold mbind at 1. unfold M_bind at 1. rewrite (deref_lookup _ _ _ Hb).
  destruct (Z.eqb_spec (snd (gshape A)) (fst (gshape B))) as [E|_]; [contradiction|].
  reflexivity.
Qed.

Lemma alloc_Ok (x : DNDarray T) (w w' : world T) (r : nat) :
  alloc x w = (Ok r, w') -> r = length (heap w) /\ w' = mkWorld (heap w ++ [x]) (log w).
Proof. unfold alloc. intros [= <- <-]. auto. Qed.

Lemma promotion_keeps_layout (w w1 w2 : world T) (a b a' b' : nat) (A B A' B' : DNDarray T)
    (c_type : htype) :
  heap w !! a = Some A ->
  heap w !! b = Some B ->
  (if negb (htype_eqb (dtype A) c_type) then alloc (astype c_type A) else mret a) w
    = (Ok a', w1) ->
  (if negb (htype_eqb (dtype B) c_type) then alloc (astype c_type B) else mret b) w1
    = (Ok b', w2) ->
  heap w2 !! a' = Some A' ->
  heap w2 !! b' = Some B' ->
  (A' = A \/ A' = astype c_type A) /\ (B' = B \/ B' = astype c_type B).
Proof.
  intros Ha Hb Ha' Hb' HA' HB'.
  pose proof (lookup_lt_Some _ _ _ Ha) as La.
  pose proof (lookup_lt_Some _ _ _ Hb) as Lb.
  destruct (negb (htype_eqb (dtype A) c_type)), (negb (htype_eqb (dtype B) c_type)).
  - apply alloc_Ok in Ha' as [-> ->]. apply alloc_Ok in Hb' as [-> ->]. simpl in *.
    rewrite lookup_app_l, lookup_app_r in HA' by (rewrite ?length_app; simpl; lia).
    rewrite Nat.sub_diag in HA'. simpl in HA'.
    rewrite length_app in HB'. simpl in HB'.
    rewrite lookup_app_r in HB' by (rewrite length_app; simpl; lia).
    rewrite length_app in HB'. simpl in HB'.
    rewrite Nat.sub_diag in HB'. simpl in HB'.
    split; right; congruence.
  - apply alloc_Ok in Ha' as [-> ->]. apply ret_Ok in Hb' as [-> ->]. simpl in *.
    rewrite lookup_app_r in HA' by lia. rewrite Nat.sub_diag in HA'. simpl in HA'.
    rewrite lookup_app_l in HB' by lia.
    split; [right | left]; congruence.
  - apply ret_Ok in Ha' as [-> ->]. apply alloc_Ok in Hb' as [-> ->]. simpl in *.
    rewrite lookup_app_l in HA' by lia.
    rewrite lookup_app_r in HB' by lia. rewrite Nat.sub_diag in HB'. simpl in HB'.
    split; [left | right]; congruence.
  - apply ret_Ok in Ha' as [-> ->]. apply ret_Ok in Hb' as [-> ->].
    split; left; congruence.
Qed.

Ltac bind_in H :=
  let x := fresh "x" in let w := fresh "w" in let Hx := fresh "Hx" in
  apply bind_Ok in H as (x & w & Hx & H);
  try match type of H with
      | (let '(_, _) := ?p in _) _ = _ => destruct p
      end.
Ltac returns H := repeat bind_in H; apply ret_Ok in H as [-> _].

(** C4, amended: whenever [matmul] returns, the partition axis of the result
    is [result_split] of the operands' axes: [a]'s axis if [a] is split,
    except that an [a] split along axis 1 times a [b] that is unsplit or
    split along axis 0 gives axis 0 when the product has at most one column;
    [b]'s axis if only [b] is split; none if neither is.  The axis is a
    function of the operands' axes and of the shape of [b] alone. *)
Theorem matmul_result_split (size : Z) (a b : nat) (allow_resplit : bool)
    (w w' : world T) (A B c : DNDarray T) :
  heap w !! a = Some A ->
  heap w !! b = Some B ->
  matmul size a b allow_resplit w = (Ok c, w') ->
  split c = result_split (split A) (split B) (snd (gshape B)).
Proof.
  intros Ha Hb Hrun. unfold matmul in Hrun.
  apply bind_Ok in Hrun as (A0 & w0 & HA0 & Hrun). apply deref_Ok in HA0 as [HA0 ->].
  apply bind_Ok in Hrun as (B0 & w0 & HB0 & Hrun). apply deref_Ok in HB0 as [HB0 ->].
  assert (A0 = A) as -> by congruence. assert (B0 = B) as -> by congruence.
  destruct (negb (snd (gshape A) =? fst (gshape B))); [apply raise_Ok in Hrun; contradiction|].
  apply bind_Ok in Hrun as (a' & w1 & Ha' & Hrun).
  apply bind_Ok in Hrun as (b' & w2 & Hb' & Hrun).
  apply bind_Ok in Hrun as (A' & w3 & HA' & Hrun). apply deref_Ok in HA' as [HA' ->].
  apply bind_Ok in Hrun as (B' & w3 & HB' & Hrun). apply deref_Ok in HB' as [HB' ->].
  destruct (promotion_keeps_layout _ _ _ _ _ _ _ _ _ _ _ _ Ha Hb Ha' Hb' HA' HB') as [HlA HlB].
  assert (split A' = split A /\ gshape A' = gshape A) as [EsA EgA]
    by (destruct HlA as [->| ->]; auto).
  assert (split B' = split B /\ gshape B' = gshape B) as [EsB EgB]
    by (destruct HlB as [->| ->]; auto).
  clear HlA HlB Ha' Hb' HA' HB' HA0.
  unfold split_is_None, split_is, split_axis in Hrun.
  rewrite EsA, EsB, ?EgA, ?EgB in Hrun.
  destruct (split A) as [sa|], (split B) as [sb|]; cbn [andb orb negb] in Hrun.
  4:{ destruct (negb allow_resplit); returns Hrun; reflexivity. }
  all: rewrite ?andb_false_r, ?orb_false_r, ?andb_true_r, ?orb_false_l in Hrun.
  all: repeat match type of Hrun with
              | context [?x =? 0] => is_var x; destruct (Z.eqb_spec x 0); subst;
                                     cbn [andb orb negb Z.eqb Pos.eqb] in Hrun
              | context [?x =? 1] => is_var x; destruct (Z.eqb_spec x 1); subst;
                                     cbn [andb orb negb Z.eqb Pos.eqb] in Hrun
              end.
  all: try (apply raise_Ok in Hrun; contradiction).
  all: returns Hrun.
  all: unfold result_split, factories_array, with_locals, factories_zeros; cbn [split].
  all: try reflexivity.
  all: match goal with |- context [1 <? ?q] => destruct (Z.ltb_spec 1 q) end.
  all: cbn [Z.eqb Pos.eqb andb]; try reflexivity.
  all: match goal with |- context [?q <=? 1] => destruct (Z.leb_spec q 1) end.
  all: try reflexivity; lia.
Qed.

Lemma mapM_result_Ok {A B} (f : A -> result B) (l : list A) :
  (forall x, In x l -> exists y, f x = Ok y) -> exists ys, mapM f l = Ok ys.
Proof.
  induction l as [|x l IH]; intros Hf; [exists []; reflexivity|].
  destruct (Hf x) as (y & Hy); [left; reflexivity|].
  destruct IH as (ys & Hys); [intros z Hz; apply Hf; right; exact Hz|].
  exists (y :: ys). cbn. rewrite Hy. cbn. rewrite Hys. reflexivity.
Qed.

Lemma ranks_cons (size : Z) : 1 <= size -> ranks size = 0 :: seqZ 1 (size - 1).
Proof.
  intros Hs. unfold ranks. rewrite (seqZ_cons 0 size) by lia. f_equal.
Qed.

Lemma In_ranks (size rank : Z) : In rank (ranks size) <-> 0 <= rank < size.
Proof. unfold ranks. rewrite <- list_elem_of_In, elem_of_seqZ. lia. Qed.

Lemma fold_min_le (l : list Z) (x : Z) : fold_left Z.min l x <= x.
Proof.
  revert x. induction l as [|y l IH]; intros x; simpl; [lia|].
  specialize (IH (Z.min x y)). lia.
Qed.

Lemma fold_min_lower (l : list Z) (x v : Z) :
  v <= x -> (forall y, In y l -> v <= y) -> v <= fold_left Z.min l x.
Proof.
  revert x. induction l as [|y l IH]; intros x Hx Hl; simpl; [exact Hx|].
  apply IH; [|intros z Hz; apply Hl; right; exact Hz].
  specialize (Hl y (or_introl eq_refl)). lia.
Qed.

Lemma fold_min_attained (l : list Z) (x v : Z) :
  In v l -> fold_left Z.min l x <= v.
Proof.
  revert x. induction l as [|y l IH]; intros x Hin; simpl; [destruct Hin|].
  destruct Hin as [->|Hin]; [|apply IH; exact Hin].
  pose proof (fold_min_le l (Z.min x v)). lia.
Qed.

(** The least value of [f] over the ranks. *)
Lemma tensor_min_ranks (size : Z) (f : Z -> Z) (v : Z) :
  1 <= size ->
  (forall rank, 0 <= rank < size -> v <= f rank) ->
  (exists rank, 0 <= rank < size /\ f rank = v) ->
  tensor_min (map f (ranks size)) = Ok v.
Proof.
  intros Hs Hlow (r & Hr & Hv).
  rewrite (ranks_cons size Hs). cbn [map tensor_min]. f_equal.
  apply Z.le_antisymm.
  - destruct (Z.eq_dec r 0) as [->|Hr0].
    + rewrite Hv. apply fold_min_le.
    + apply fold_min_attained. rewrite <- Hv. apply in_map.
      apply list_elem_of_In, elem_of_seqZ. lia.
  - apply fold_min_lower; [apply Hlow; lia|].
    intros y Hy. apply in_map_iff in Hy as (q & <- & Hq).
    apply list_elem_of_In, elem_of_seqZ in Hq. apply Hlow. lia.
Qed.

Lemma chunk_extent_bounds (n size rank : Z) :
  1 <= size -> 0 <= n -> 0 <= rank < size ->
  n / size <= extent (chunk_bounds n size rank) <= n.
Proof.
  intros Hs Hn Hr. unfold extent, chunk_bounds.
  pose proof (Z.div_mod n size ltac:(lia)) as Hdm.
  pose proof (Z.mod_pos_bound n size ltac:(lia)) as Hm.
  assert (0 <= n / size) by (apply Z.div_pos; lia).
  destruct (rank <? n mod size) eqn:E; cbn [fst snd].
  - apply Z.ltb_lt in E. nia.
  - nia.
Qed.

Lemma chunk_extent_last (n size : Z) :
  1 <= size -> extent (chunk_bounds n size (size - 1)) = n / size.
Proof.
  intros Hs. unfold extent, chunk_bounds.
  pose proof (Z.mod_pos_bound n size ltac:(lia)) as Hm.
  destruct (size - 1 <? n mod size) eqn:E; [apply Z.ltb_lt in E; lia|].
  cbn [fst snd]. lia.
Qed.

Lemma rem_flag_Ok (n block k : Z) : block <> 0 -> exists f, rem_flag n block k = Ok f.
Proof.
  intros Hb. unfold rem_flag, pymod.
  destruct (Z.eqb_spec block 0) as [E|_]; [contradiction|]. cbn. eauto.
Qed.

Lemma inner_block_ring (size : Z) (a b : DNDarray T) :
  1 <= size -> 0 <= snd (gshape a) -> snd (gshape a) = fst (gshape b) ->
  balanced size a -> balanced size b -> ring_exchange a b = true ->
  exists k,
    inner_block size a b = Ok k /\
    tensor_min (map (fun row : (Z * Z) * (Z * Z) => Z.min (snd (fst row)) (fst (snd row)))
                    (gather_lshapes size a b)) = Ok k.
Proof.
  intros Hs HP HPb Ha Hb Hring.
  unfold gather_lshapes. rewrite map_map. cbn [fst snd].
  unfold ring_exchange, inner_block, split_is in *. unfold floordiv.
  destruct (Z.eqb_spec size 0) as [E|_]; [lia|].
  pose proof (Z.div_mod (snd (gshape a)) size ltac:(lia)) as Hdm.
  pose proof (Z.mod_pos_bound (snd (gshape a)) size ltac:(lia)) as Hm.
  assert (0 <= snd (gshape a) / size) as Hq by (apply Z.div_pos; lia).
  assert (snd (gshape a) / size <= snd (gshape a)) as Hle by nia.
  destruct (split a) as [sa|] eqn:Esa; [|discriminate Hring].
  destruct (split b) as [sb|] eqn:Esb;
    [|rewrite !andb_false_r in Hring; discriminate Hring].
  assert (forall rank, 0 <= rank < size ->
            snd (lshape a rank) = (if sa =? 0 then snd (gshape a)
                                   else extent (chunk_bounds (snd (gshape a)) size rank)) /\
            fst (lshape b rank) = (if sb =? 0 then extent (chunk_bounds (fst (gshape b)) size rank)
                                   else fst (gshape b))) as Hl.
  { intros rank Hr. rewrite (Ha rank Hr), (Hb rank Hr), Esa, Esb. unfold chunk.
    destruct (sa =? 0), (sb =? 0); cbn [fst snd]; unfold extent; cbn [fst snd]; split; lia. }
  rewrite <- HPb in Hl.
  destruct (Z.eqb_spec sa 0) as [->|Hsa0], (Z.eqb_spec sb 0) as [->|Hsb0];
    cbn [andb orb Z.eqb] in *.
  - (* 0/0 *)
    exists (snd (gshape a) / size). split.
    + cbn. rewrite <- HPb. destruct (Z.ltb_spec (snd (gshape a) / size) (snd (gshape a)));
        f_equal; lia.
    + apply tensor_min_ranks; [exact Hs | |].
      * intros rank Hr. destruct (Hl rank Hr) as [-> ->].
        pose proof (chunk_extent_bounds (snd (gshape a)) size rank Hs HP Hr). lia.
      * exists (size - 1). split; [lia|]. destruct (Hl (size - 1) ltac:(lia)) as [-> ->].
        rewrite chunk_extent_last by exact Hs. lia.
  - (* 0/1 *)
    destruct (Z.eqb_spec sb 1) as [->|]; [|discriminate Hring].
    exists (snd (gshape a)). split; [reflexivity|].
    apply tensor_min_ranks; [exact Hs | |].
    + intros rank Hr. destruct (Hl rank Hr) as [-> ->]. lia.
    + exists 0. split; [lia|]. destruct (Hl 0 ltac:(lia)) as [-> ->]. lia.
  - (* 1/0 is not a ring exchange *)
    destruct (Z.eqb_spec sa 1); discriminate Hring.
  - (* 1/1 *)
    destruct (Z.eqb_spec sa 1) as [->|]; [|destruct (sb =? 1); discriminate Hring].
    destruct (Z.eqb_spec sb 1) as [->|]; [|discriminate Hring].
    exists (snd (gshape a) / size). split; [reflexivity|].
    apply tensor_min_ranks; [exact Hs | |].
    + intros rank Hr. destruct (Hl rank Hr) as [-> ->].
      pose proof (chunk_extent_bounds (snd (gshape a)) size rank Hs HP Hr). lia.
    + exists (size - 1). split; [lia|]. destruct (Hl (size - 1) ltac:(lia)) as [-> ->].
      rewrite chunk_extent_last by exact Hs. lia.
Qed.

Lemma fold_min_In (l : list Z) (x : Z) : In (fold_left Z.min l x) (x :: l).
Proof.
  revert x. induction l as [|y l IH]; intros x; [left; reflexivity|].
  cbn [fold_left]. destruct (IH (Z.min x y)) as [E|Hin].
  - rewrite <- E. destruct (Z.min_spec x y) as [[_ ->]|[_ ->]];
      [left | right; left]; reflexivity.
  - right. right. exact Hin.
Qed.

(** What [min()] gives is the least value. *)
Lemma tensor_min_least (l : list Z) (m : Z) : tensor_min l = Ok m -> least m l.
Proof.
  destruct l as [|x l]; [discriminate|]. intros [= <-]. split.
  - apply fold_min_In.
  - intros y [<-|Hy]; [apply fold_min_le | apply fold_min_attained; exact Hy].
Qed.

(** [kB] for the operands of a ring exchange, as lines 290-297 compute it
    from the global shape and the number of processes. *)
Lemma inner_block_of_ring (size : Z) (a b : DNDarray T) :
  1 <= size -> 0 <= snd (gshape a) -> snd (gshape a) = fst (gshape b) ->
  ring_exchange a b = true ->
  inner_block size a b
  = Ok (if split_is a 0 && split_is b 1 then snd (gshape a) else snd (gshape a) / size).
Proof.
  intros Hs HP HPb Hring.
  unfold ring_exchange, inner_block, split_is in *. unfold floordiv. rewrite <- HPb.
  destruct (Z.eqb_spec size 0) as [E|_]; [lia|].
  pose proof (Z.div_mod (snd (gshape a)) size ltac:(lia)) as Hdm.
  pose proof (Z.mod_pos_bound (snd (gshape a)) size ltac:(lia)) as Hm.
  assert (0 <= snd (gshape a) / size) as Hq by (apply Z.div_pos; lia).
  assert (snd (gshape a) / size <= snd (gshape a)) as Hle by nia.
  destruct (split a) as [sa|]; [|discriminate Hring].
  destruct (split b) as [sb|]; [|rewrite !andb_false_r in Hring; discriminate Hring].
  destruct (Z.eqb_spec sa 0) as [Ha0|Ha0]; destruct (Z.eqb_spec sb 0) as [Hb0|Hb0];
    subst; cbn [andb orb Z.eqb] in *.
  - cbn [mbind result_bind].
    destruct (Z.ltb_spec (snd (gshape a) / size) (snd (gshape a))); f_equal; lia.
  - destruct (sb =? 1); [reflexivity | discriminate Hring].
  - destruct (sa =? 1); discriminate Hring.
  - destruct (sa =? 1); [|destruct (sb =? 1); discriminate Hring].
    destruct (sb =? 1); [reflexivity | discriminate Hring].
Qed.

(** C5, amended: for the operands of a ring exchange (both split along axis
    0, both along axis 1, or [a] along 0 and [b] along 1) on at least one
    process.  [mB] and [nB], which lines 314 and 315 take from the table of
    local shapes, are the least number of rows of [a] and the least number
    of columns of [b] that the table records.  [kB] is not read from the
    table: it is the contraction length [P] for the splits 0 and 1 and
    [P // size] otherwise; for operands in the standard block distribution
    that is the least contraction extent in the table as well.  These three
    are the block sizes of the setup whenever [kB] is not zero. *)
Theorem block_sizes_are_table_minima (size : Z) (a b : DNDarray T) :
  1 <= size -> 0 <= snd (gshape a) -> snd (gshape a) = fst (gshape b) ->
  ring_exchange a b = true ->
  let k := if split_is a 0 && split_is b 1 then snd (gshape a) else snd (gshape a) / size in
  inner_block size a b = Ok k /\
  (exists m n,
     outer_blocks (gather_lshapes size a b) = Ok (m, n) /\
     least m (table_rows (gather_lshapes size a b)) /\
     least n (table_columns (gather_lshapes size a b)) /\
     (k <> 0 -> block_sizes size a b = Ok (m, k, n))) /\
  (balanced size a -> balanced size b -> least k (table_inner (gather_lshapes size a b))).
Proof.
  intros Hs HP HPb Hring k.
  pose proof (inner_block_of_ring size a b Hs HP HPb Hring) as Hk. fold k in Hk.
  split; [exact Hk|]. split.
  - assert (exists m, tensor_min (table_rows (gather_lshapes size a b)) = Ok m) as (m & Hm).
    { unfold table_rows, gather_lshapes. rewrite (ranks_cons size Hs). cbn [map tensor_min]. eauto. }
    assert (exists n, tensor_min (table_columns (gather_lshapes size a b)) = Ok n) as (n & Hn).
    { unfold table_columns, gather_lshapes. rewrite (ranks_cons size Hs).
      cbn [map tensor_min]. eauto. }
    assert (outer_blocks (gather_lshapes size a b) = Ok (m, n)) as Hout.
    { unfold outer_blocks. fold (table_rows (gather_lshapes size a b)).
      fold (table_columns (gather_lshapes size a b)). rewrite Hm, Hn. reflexivity. }
    exists m, n. split; [exact Hout|].
    split; [apply tensor_min_least; exact Hm|]. split; [apply tensor_min_least; exact Hn|].
    intros Hk0. unfold block_sizes, inner_sizes. rewrite Hk. cbn [mbind result_bind].
    destruct (mapM_result_Ok
                (fun rank => rem_a ← rem_flag (snd (lshape a rank)) k k;
                             rem_b ← rem_flag (fst (lshape b rank)) k k;
                             Ok (rem_a, rem_b)) (ranks size)) as (inner & Hinner).
    { intros rank _.
      destruct (rem_flag_Ok (snd (lshape a rank)) k k Hk0) as (fa & ->).
      destruct (rem_flag_Ok (fst (lshape b rank)) k k Hk0) as (fb & ->).
      cbn. eauto. }
    rewrite Hinner. cbn [mbind result_bind]. rewrite Hout. reflexivity.
  - intros Ha Hb.
    destruct (inner_block_ring size a b Hs HP HPb Ha Hb Hring) as (k' & Hk' & Hmin).
    assert (k' = k) as -> by congruence.
    apply tensor_min_least in Hmin as [Hin Hlow]. unfold table_inner. split.
    + apply in_map_iff in Hin as (row & Hrow & Hin). apply in_or_app.
      destruct (Z.min_spec (snd (fst row)) (fst (snd row))) as [[_ E]|[_ E]];
        rewrite E in Hrow; [left | right]; apply in_map_iff; exists row; auto.
    + intros x Hx. apply in_app_or in Hx as [Hx|Hx];
        apply in_map_iff in Hx as (row & <- & Hin');
        specialize (Hlow (Z.min (snd (fst row)) (fst (snd row)))
                         (in_map (fun row : (Z * Z) * (Z * Z) =>
                                    Z.min (snd (fst row)) (fst (snd row))) _ row Hin'));
        lia.
Qed.


Lemma bind_step {W A B} (m : M W A) (k : A -> M W B) (w w1 : W) (x : A) :
  m w = (Ok x, w1) -> (m ≫= k) w = k x w1.
Proof. intros Hm. unfold mbind, M_bind. rewrite Hm. reflexivity. Qed.

Lemma mapM_result_Forall2 {A B} (f : A -> result B) (l : list A) (ys : list B) :
  mapM f l = Ok ys -> Forall2 (fun x y => f x = Ok y) l ys.
Proof.
  revert ys. induction l as [|x l IH]; intros ys Hm; cbn in Hm.
  - injection Hm as <-. constructor.
  - destruct (f x) as [y|e] eqn:Hx; cbn in Hm; [|discriminate].
    destruct (mapM f l) as [ys'|e] eqn:Hl; cbn in Hm; [|discriminate].
    injection Hm as <-. constructor; [exact Hx | apply IH; reflexivity].
Qed.

Lemma unsplit_chunks (size : Z) (l : list Z) (ts : list (tensor T)) :
  length l = length ts ->
  map (fun '(rank, t) => take_chunk size rank None t) (zip l ts) = ts.
Proof.
  revert ts. induction l as [|x l IH]; intros [|t ts] Hlen; try discriminate; [reflexivity|].
  cbn. f_equal. apply IH. injection Hlen as ->. reflexivity.
Qed.

(** The promotion of the two operands: it allocates the upcast copies and
    touches neither the caller's objects nor the log. *)
Lemma promotion_run (w : world T) (a b : nat) (A B : DNDarray T) (c_type : htype) :
  heap w !! a = Some A ->
  heap w !! b = Some B ->
  exists a' b' w1 w2,
    (if negb (htype_eqb (dtype A) c_type) then alloc (astype c_type A) else mret a) w
      = (Ok a', w1) /\
    (if negb (htype_eqb (dtype B) c_type) then alloc (astype c_type B) else mret b) w1
      = (Ok b', w2) /\
    heap w2 !! a' = Some (promoted c_type A) /\
    heap w2 !! b' = Some (promoted c_type B) /\
    heap w2 !! a = Some A /\
    heap w2 !! b = Some B /\
    log w2 = log w /\
    a' = (if htype_eqb (dtype A) c_type then a else length (heap w)).
Proof.
  intros Ha Hb.
  pose proof (lookup_lt_Some _ _ _ Ha) as La.
  pose proof (lookup_lt_Some _ _ _ Hb) as Lb.
  unfold promoted.
  destruct (htype_eqb (dtype A) c_type) eqn:EA, (htype_eqb (dtype B) c_type) eqn:EB;
    cbn [negb]; do 4 eexists;
    (split; [reflexivity|]); (split; [reflexivity|]); cbn [heap log].
  all: repeat split; auto; try discriminate.
  all: try (rewrite !lookup_app_l by (rewrite ?length_app; cbn; lia); assumption).
  all: try (rewrite lookup_app_r by lia; rewrite Nat.sub_diag; reflexivity).
  all: try (rewrite lookup_app_l by (rewrite length_app; cbn; lia);
            rewrite lookup_app_r by lia; rewrite Nat.sub_diag; reflexivity).
  all: try (rewrite length_app; cbn; rewrite lookup_app_r by (rewrite length_app; cbn; lia);
            rewrite length_app; cbn; rewrite Nat.sub_diag; reflexivity).
Qed.

Lemma promoted_local_shape (c_type : htype) (A : DNDarray T) (rank : Z) :
  nrows (local (promoted c_type A) rank) = nrows (local A rank) /\
  ncols (local (promoted c_type A) rank) = ncols (local A rank).
Proof.
  unfold promoted. destruct (htype_eqb (dtype A) c_type); [auto|].
  unfold local, astype. cbn [larray].
  generalize (Z.to_nat rank) as n. induction (larray A) as [|t l IH]; intros [|n]; cbn; auto.
Qed.

Lemma promoted_layout (c_type : htype) (A : DNDarray T) :
  split (promoted c_type A) = split A /\ gshape (promoted c_type A) = gshape A.
Proof. unfold promoted. destruct (htype_eqb (dtype A) c_type); auto. Qed.

(** The branch for two unsplit matrices (lines 169-184) as the code has it,
    for inner dimensions that agree.  With [allow_resplit] set, the object
    that [matmul] splits in place is the caller's [a] when [a] has the
    promoted element type already, and the upcast copy otherwise, in which
    case the caller's [a] stays as it was; the split object has axis 0 and
    on each process its chunk of rows, and when a result is returned it is
    unsplit and the log shows the change of that object just before the one
    Allreduce.  Without [allow_resplit], whatever the outcome, both operands
    are as before and nothing has been communicated, and a returned result
    is unsplit with, on each process, the local product of the promoted
    operands; the call does return when on every process the local tensors
    have matching inner dimensions. *)
Theorem matmul_unsplit_operands (size : Z) (a b : nat) (w : world T) (A B : DNDarray T) :
  heap w !! a = Some A ->
  heap w !! b = Some B ->
  split A = None ->
  split B = None ->
  snd (gshape A) = fst (gshape B) ->
  let c_type := promote_types (dtype A) (dtype B) in
  (forall r w', matmul size a b true w = (r, w') ->
     heap w' !! a = Some (if htype_eqb (dtype A) c_type then resplit_0 size A else A) /\
     forall c, r = Ok c ->
       split c = None /\
       log w' = log w ++ [Mutated (if htype_eqb (dtype A) c_type then a else length (heap w));
                          Comm Allreduce]) /\
  (forall r w', matmul size a b false w = (r, w') ->
     heap w' !! a = Some A /\ heap w' !! b = Some B /\ log w' = log w /\
     forall c, r = Ok c ->
       split c = None /\
       Forall2 (fun rank t => torch_matmul (local (promoted c_type A) rank)
                                           (local (promoted c_type B) rank) = Ok t)
               (ranks size) (larray c)) /\
  ((forall rank, 0 <= rank < size -> ncols (local A rank) = nrows (local B rank)) ->
   is_Ok (fst (matmul size a b false w)) = true).
Proof.
  intros Ha Hb HsA HsB Hdim c_type.
  destruct (promotion_run w a b A B c_type Ha Hb)
    as (a' & b' & w1 & w2 & H1 & H2 & Ha' & Hb' & Ha2 & Hb2 & Hlog & Ea').
  destruct (promoted_layout c_type A) as [EsA EgA].
  destruct (promoted_layout c_type B) as [EsB EgB].
  assert (forall flag, matmul size a b flag w =
    (if negb flag then
       ts ← lift (mapM (fun rank => torch_matmul (local (promoted c_type A) rank)
                                                 (local (promoted c_type B) rank))
                       (ranks size));
       mret (factories_array size ts None c_type)
     else
       _ ← mutate a' (resplit_0 size (promoted c_type A));
       A0 ← deref a';
       B0 ← deref b';
       cs ← lift (mapM (fun rank =>
                          let slice_0 := fst (chunk size rank (gshape A0) (split A0)) in
                          hold ← torch_matmul (local A0 rank) (local B0 rank);
                          iadd_slice (zeros (fst (gshape A)) (snd (gshape B)))
                                     (Some (fst slice_0)) (Some (snd slice_0)) None None hold)
                       (ranks size));
       _ ← communicate [Allreduce];
       mret (mkDNDarray (fst (gshape A), snd (gshape B)) c_type None
                        (everywhere size (allreduce_sum cs)))) w2) as Hrun.
  { intros flag. unfold matmul.
    rewrite (bind_step _ _ _ _ _ (deref_lookup _ _ _ Ha)).
    rewrite (bind_step _ _ _ _ _ (deref_lookup _ _ _ Hb)).
    destruct (Z.eqb_spec (snd (gshape A)) (fst (gshape B))) as [_|N]; [|contradiction].
    cbn [negb]. fold c_type.
    rewrite (bind_step _ _ _ _ _ H1).
    rewrite (bind_step _ _ _ _ _ H2).
    rewrite (bind_step _ _ _ _ _ (deref_lookup _ _ _ Ha')).
    rewrite (bind_step _ _ _ _ _ (deref_lookup _ _ _ Hb')).
    unfold split_is_None. rewrite EsA, EsB, HsA, HsB, EgA, EgB. cbn [andb fst snd].
    reflexivity. }
  pose proof (lookup_lt_Some _ _ _ Ha') as La'.
  pose proof (lookup_lt_Some _ _ _ Hb') as Lb'.
  split; [|split].
  - intros r w' Hr. rewrite (Hrun true) in Hr. cbn [negb] in Hr.
    set (X := resplit_0 size (promoted c_type A)) in *.
    set (w3 := mkWorld (<[a' := X]> (heap w2)) (log w2 ++ [Mutated a'])).
    rewrite (bind_step (mutate a' X) _ w2 w3 tt eq_refl) in Hr.
    assert (heap w3 !! a' = Some X) as HX
      by (cbn [heap w3]; apply list_lookup_insert_eq; exact La').
    rewrite (bind_step _ _ _ _ _ (deref_lookup _ _ _ HX)) in Hr.
    assert (exists B0, heap w3 !! b' = Some B0) as (B0 & HB0).
    { apply lookup_lt_is_Some. cbn [heap w3]. rewrite length_insert. exact Lb'. }
    rewrite (bind_step _ _ _ _ _ (deref_lookup _ _ _ HB0)) in Hr.
    assert (heap w3 !! a = Some (if htype_eqb (dtype A) c_type then resplit_0 size A else A))
      as Hfin.
    { cbn [heap w3]. subst X. unfold promoted in *.
      destruct (htype_eqb (dtype A) c_type); subst a'.
      - apply list_lookup_insert_eq. exact La'.
      - rewrite list_lookup_insert_ne; [exact Ha2|].
        apply lookup_lt_Some in Ha. lia. }
    match type of Hr with context [lift ?m] => destruct m as [cs|e] end.
    + unfold mbind, M_bind, lift, communicate, mret, M_ret in Hr. cbn in Hr.
      injection Hr as <- <-. split; [exact Hfin|].
      intros c [= <-]. split; [reflexivity|].
      cbn [log]. rewrite Hlog, <- app_assoc, Ea'. reflexivity.
    + unfold mbind, M_bind, lift in Hr. injection Hr as <- <-.
      split; [exact Hfin | discriminate].
  - intros r w' Hr. rewrite (Hrun false) in Hr. cbn [negb] in Hr.
    destruct (mapM (fun rank => torch_matmul (local (promoted c_type A) rank)
                                             (local (promoted c_type B) rank))
                   (ranks size)) as [ts|e] eqn:Hm.
    + unfold mbind, M_bind, lift, mret, M_ret in Hr. injection Hr as <- <-.
      repeat (split; [assumption|]).
      intros c [= <-]. split; [reflexivity|].
      apply mapM_result_Forall2 in Hm.
      unfold factories_array. cbn [larray].
      rewrite unsplit_chunks by (apply (Forall2_length _ _ _ Hm)).
      exact Hm.
    + unfold mbind, M_bind, lift in Hr. injection Hr as <- <-.
      repeat (split; [assumption|]). discriminate.
  - intros Hshape. rewrite (Hrun false). cbn [negb].
    destruct (mapM_result_Ok
                (fun rank => torch_matmul (local (promoted c_type A) rank)
                                          (local (promoted c_type B) rank))
                (ranks size)) as (ts & Hts).
    { intros rank Hr. apply In_ranks in Hr. unfold torch_matmul.
      destruct (promoted_local_shape c_type A rank) as [_ ->].
      destruct (promoted_local_shape c_type B rank) as [-> _].
      rewrite (Hshape rank Hr), Z.eqb_refl. eauto. }
    unfold mbind, M_bind, lift. rewrite Hts. reflexivity.
Qed.

End MatMulProps.

(** ** Block-map construction without empty shards *)

Section BlockMapBounds.
Import MatMul.
Context {T : Type} `{Backend T}.
Variable size : Z.
Hypothesis Hsize : 1 <= size.

Lemma foldM_invariant {A B} (I : B -> Prop) (f : B -> A -> result B) (l : list A) (b : B) :
  I b ->
  (forall b x, I b -> In x l -> exists b', f b x = Ok b' /\ I b') ->
  exists b', foldM f l b = Ok b' /\ I b'.
Proof.
  revert b. induction l as [|x l IH]; intros b Hb Hf; [exists b; auto|].
  destruct (Hf b x Hb (or_introl eq_refl)) as (b1 & Hb1 & HI1).
  destruct (IH b1 HI1) as (b' & Hb' & HI'); [intros; apply Hf; auto; right; auto|].
  exists b'. split; [|exact HI']. cbn. rewrite Hb1. cbn. exact Hb'.
Qed.

Lemma floordiv_Ok (x y : Z) : y <> 0 -> floordiv x y = Ok (x / y).
Proof. intros Hy. unfold floordiv. destruct (Z.eqb_spec y 0); [contradiction | reflexivity]. Qed.

Lemma block_count_Ok (ext block : Z) (flag : bool) :
  block <> 0 ->
  block_count size ext block flag = Ok (if flag then ext / block / size else ext / block).
Proof using Hsize.
  intros Hb. unfold block_count. rewrite floordiv_Ok by exact Hb. cbn.
  destruct flag; [apply floordiv_Ok; lia | reflexivity].
Qed.

(** The loops that enter the block starts stay inside a map that has, for
    every process, at least as many blocks as the process counts. *)
Lemma fill_block_map_Ok (m : block_map) (bounds : list ((Z * Z) * (Z * Z)))
    (block0 block1 : Z) (f0 f1 : bool) :
  block0 <> 0 -> block1 <> 0 ->
  (forall b0 b1, In (b0, b1) bounds ->
     (if f0 then extent b0 / block0 / size else extent b0 / block0) <= bm_dim0 m /\
     (if f1 then extent b1 / block1 / size else extent b1 / block1) <= bm_dim1 m) ->
  exists m', fill_block_map size m bounds block0 block1 f0 f1 = Ok m'.
Proof using Hsize.
  intros Hb0 Hb1 Hfit.
  set (I := fun m' : block_map => bm_dim0 m' = bm_dim0 m /\ bm_dim1 m' = bm_dim1 m).
  destruct (foldM_invariant I
              (fun m '(pr, (b0, b1)) =>
                 n0 ← block_count size (extent b0) block0 f0;
                 foldM (fun m dim0 =>
                          n1 ← block_count size (extent b1) block1 f1;
                          foldM (fun m dim1 => bm_set size m pr dim0 dim1
                                                      (dim0 * block0, dim1 * block1))
                                (seqZ 0 n1) m)
                       (seqZ 0 n0) m)
              (zip (ranks size) bounds) m) as (m' & Hm' & _).
  - split; reflexivity.
  - intros m0 [pr [b0 b1]] HI Hin.
    apply list_elem_of_In in Hin.
    pose proof (elem_of_zip_l _ _ _ _ Hin) as Hpr.
    pose proof (elem_of_zip_r _ _ _ _ Hin) as Hb.
    apply elem_of_seqZ in Hpr. apply list_elem_of_In in Hb.
    destruct (Hfit b0 b1 Hb) as [Hfit0 Hfit1].
    rewrite (block_count_Ok (extent b0) block0 f0 Hb0). cbn [mbind result_bind].
    apply foldM_invariant; [exact HI|].
    intros m1 dim0 HI1 Hd0. apply list_elem_of_In, elem_of_seqZ in Hd0.
    rewrite (block_count_Ok (extent b1) block1 f1 Hb1). cbn [mbind result_bind].
    apply foldM_invariant; [exact HI1|].
    intros m2 dim1 [HI20 HI21] Hd1. apply list_elem_of_In, elem_of_seqZ in Hd1.
    unfold bm_set, bm_in_range.
    replace ((0 <=? pr) && (pr <? size) && (0 <=? dim0) && (dim0 <? bm_dim0 m2)
             && (0 <=? dim1) && (dim1 <? bm_dim1 m2)) with true.
    2:{ symmetry. rewrite !andb_true_iff, !Z.leb_le, !Z.ltb_lt. lia. }
    eexists. split; [reflexivity|]. split; cbn; assumption.
  - exists m'. exact Hm'.
Qed.

Lemma split_dim_count (n rank : Z) (flag : bool) :
  0 <= n -> 0 <= rank < size -> 1 <= n / size -> (flag = true <-> n / size = 1) ->
  (if flag then extent (chunk_bounds n size rank) / (n / size) / size
   else extent (chunk_bounds n size rank) / (n / size))
  <= n / (n / size) / size.
Proof using Hsize.
  intros Hn Hr Hq Hflag.
  pose proof (Z.div_mod n size ltac:(lia)) as Hdm.
  pose proof (Z.mod_pos_bound n size ltac:(lia)) as Hm.
  assert (1 <= n / (n / size) / size) as Hd.
  { apply Z.div_le_lower_bound; [lia|]. apply Z.div_le_lower_bound; [lia|]. nia. }
  assert (n / size <= extent (chunk_bounds n size rank) <= n / size + 1
          /\ (extent (chunk_bounds n size rank) = n / size + 1 -> 2 <= size)) as [He Hs2].
  { unfold extent, chunk_bounds. destruct (rank <? n mod size) eqn:E; cbn [fst snd].
    - apply Z.ltb_lt in E. split; lia.
    - split; lia. }
  etransitivity; [|exact Hd].
  destruct flag.
  - assert (n / size = 1) as Hq1 by (apply Hflag; reflexivity). rewrite Hq1 in *.
    rewrite Z.div_1_r. apply Z.div_le_upper_bound; [lia|].
    destruct (Z.eq_dec (extent (chunk_bounds n size rank)) 2) as [E2|]; [|lia].
    specialize (Hs2 E2). lia.
  - assert (n / size <> 1) as Hq1 by (intros E; apply Hflag in E; discriminate).
    assert (extent (chunk_bounds n size rank) / (n / size) < 2)
      by (apply Z.div_lt_upper_bound; lia).
    lia.
Qed.

Lemma unsplit_dim_count (n block : Z) (flag : bool) :
  0 <= n -> 1 <= block ->
  (if flag then n / block / size else n / block) <= n / block.
Proof using Hsize.
  intros Hn Hb. assert (0 <= n / block) by (apply Z.div_pos; lia).
  destruct flag; [|lia]. apply Z.div_le_upper_bound; [lia | nia].
Qed.

Lemma ones_flag_split (a b : DNDarray T) (f : (Z * Z) * (Z * Z) -> Z) (n : Z) :
  (forall rank, 0 <= rank < size ->
     f (lshape a rank, lshape b rank) = extent (chunk_bounds n size rank)) ->
  0 <= n -> 1 <= n / size ->
  existsb (fun row => f row =? 1) (gather_lshapes size a b) = true <-> n / size = 1.
Proof using Hsize.
  intros Hf Hn Hq. rewrite existsb_exists. unfold gather_lshapes. split.
  - intros (row & Hin & Hrow). apply in_map_iff in Hin as (rank & <- & Hr).
    apply In_ranks in Hr. rewrite (Hf rank Hr) in Hrow. apply Z.eqb_eq in Hrow.
    pose proof (chunk_extent_bounds n size rank Hsize Hn Hr). lia.
  - intros Hq1. exists (lshape a (size - 1), lshape b (size - 1)). split.
    + apply in_map_iff. exists (size - 1). split; [reflexivity | apply In_ranks; lia].
    + rewrite Hf by lia. rewrite chunk_extent_last by exact Hsize. apply Z.eqb_eq. exact Hq1.
Qed.

(** The block map of one operand: the loops succeed on the map that
    [new_a_block_map] or [new_b_block_map] allocates. *)
Lemma operand_block_map_Ok (R C s block0 block1 : Z) (f0 f1 : bool) (m0 : block_map) :
  0 <= R -> 0 <= C -> 1 <= block0 -> 1 <= block1 ->
  bm_dim0 m0 = (if s =? 0 then R / block0 / size else R / block0) ->
  bm_dim1 m0 = (if s =? 0 then C / block1 else C / block1 / size) ->
  (s = 0 -> block0 = R / size /\ (f0 = true <-> block0 = 1)) ->
  (s <> 0 -> block1 = C / size /\ (f1 = true <-> block1 = 1)) ->
  exists m',
    fill_block_map size m0 (map (fun rank => chunk size rank (R, C) (Some s)) (ranks size))
                   block0 block1 f0 f1 = Ok m'.
Proof using Hsize.
  intros HR HC Hb0 Hb1 Hd0 Hd1 Hs0 Hs1.
  apply fill_block_map_Ok; [lia | lia |].
  intros b0 b1 Hin. apply in_map_iff in Hin as (rank & Hchunk & Hr). apply In_ranks in Hr.
  unfold chunk in Hchunk. cbn [fst snd] in Hchunk. rewrite Hd0, Hd1.
  destruct (Z.eqb_spec s 0) as [Es|Es]; injection Hchunk as <- <-.
  - destruct (Hs0 Es) as [Eb Hflag]. split.
    + rewrite Eb in *. apply split_dim_count; auto.
    + unfold extent; cbn [fst snd]. rewrite Z.sub_0_r. apply unsplit_dim_count; auto.
  - destruct (Hs1 Es) as [Eb Hflag]. split.
    + unfold extent; cbn [fst snd]. rewrite Z.sub_0_r. apply unsplit_dim_count; auto.
    + rewrite Eb in *. apply split_dim_count; auto.
Qed.


Lemma tensor_min_ranks_inv (f : Z -> Z) (v m : Z) :
  (forall rank, 0 <= rank < size -> v <= f rank) ->
  (exists rank, 0 <= rank < size /\ f rank = v) ->
  tensor_min (map f (ranks size)) = Ok m -> m = v.
Proof using Hsize.
  intros Hlow Hex Hm. rewrite (tensor_min_ranks size f v Hsize Hlow Hex) in Hm.
  injection Hm as <-. reflexivity.
Qed.

(** The least extent over the ranks of one dimension of an operand. *)
Lemma least_extent (n : Z) (is_split : bool) (g : Z -> Z) (m : Z) :
  0 <= n ->
  (forall rank, 0 <= rank < size ->
     g rank = if is_split then extent (chunk_bounds n size rank) else n) ->
  tensor_min (map g (ranks size)) = Ok m ->
  m = if is_split then n / size else n.
Proof using Hsize.
  intros Hn Hg. apply tensor_min_ranks_inv.
  - intros rank Hr. rewrite (Hg rank Hr). destruct is_split; [|lia].
    pose proof (chunk_extent_bounds n size rank Hsize Hn Hr). lia.
  - exists (size - 1). split; [lia|]. rewrite Hg by lia.
    destruct is_split; [apply chunk_extent_last; exact Hsize | reflexivity].
Qed.

Lemma balanced_lshape (a : DNDarray T) (s : Z) (rank : Z) :
  balanced size a -> split a = Some s -> 0 <= rank < size ->
  lshape a rank =
    (if s =? 0 then extent (chunk_bounds (fst (gshape a)) size rank) else fst (gshape a),
     if s =? 0 then snd (gshape a) else extent (chunk_bounds (snd (gshape a)) size rank)).
Proof.
  intros Hbal Hs Hr. rewrite (Hbal rank Hr), Hs. unfold chunk.
  destruct (s =? 0); unfold extent; cbn [fst snd]; f_equal; lia.
Qed.

(** Block-map construction completes for two split, balanced operands once
    the three block sizes are positive, that is, once no shard is empty
    along a blocked dimension; a shard of one element does not prevent it. *)
Lemma block_maps_built_for_positive_blocks (a b : DNDarray T) (mB kB nB : Z)
    (rem_map : list ((Z * Z) * (Z * Z))) :
  0 <= fst (gshape a) -> 0 <= snd (gshape a) -> 0 <= snd (gshape b) ->
  snd (gshape a) = fst (gshape b) ->
  balanced size a -> balanced size b ->
  (split_is a 0 || split_is a 1) && (split_is b 0 || split_is b 1) = true ->
  inner_block size a b = Ok kB ->
  outer_blocks (gather_lshapes size a b) = Ok (mB, nB) ->
  1 <= mB -> 1 <= kB -> 1 <= nB ->
  exists maps,
    build_block_maps size a b mB kB nB (gather_lshapes size a b) rem_map
                     (gather_index_map size a b) = Ok maps.
Proof using Hsize.
  intros HL HP HQ HPb Ha Hb Hsplit HkB Hout HmB1 HkB1 HnB1.
  unfold split_is in Hsplit.
  destruct (split a) as [sa|] eqn:Esa; [|discriminate Hsplit].
  destruct (split b) as [sb|] eqn:Esb; [|rewrite andb_false_r in Hsplit; discriminate Hsplit].
  assert ((sa = 0 \/ sa = 1) /\ (sb = 0 \/ sb = 1)) as [Hsa Hsb].
  { apply andb_true_iff in Hsplit as [H1 H2].
    apply orb_true_iff in H1, H2. rewrite !Z.eqb_eq in H1, H2. auto. }
  (* the block sizes *)
  unfold outer_blocks, gather_lshapes in Hout. rewrite !map_map in Hout. cbn [fst snd] in Hout.
  destruct (tensor_min (map (fun rank => fst (lshape a rank)) (ranks size))) as [m|] eqn:Em;
    [|discriminate Hout].
  destruct (tensor_min (map (fun rank => snd (lshape b rank)) (ranks size))) as [n|] eqn:En;
    [|discriminate Hout].
  cbn in Hout. injection Hout as -> ->.
  apply (least_extent (fst (gshape a)) (sa =? 0)) in Em;
    [|exact HL|intros rank Hr; rewrite (balanced_lshape a sa rank Ha Esa Hr); reflexivity].
  apply (least_extent (snd (gshape b)) (negb (sb =? 0))) in En;
    [|exact HQ|intros rank Hr; rewrite (balanced_lshape b sb rank Hb Esb Hr);
               destruct (sb =? 0); reflexivity].
  assert ((sa = 1 \/ sb = 0) -> kB = snd (gshape a) / size) as HkBv.
  { unfold inner_block, split_is, floordiv in HkB. rewrite Esa, Esb, <- HPb in HkB.
    destruct (Z.eqb_spec size 0) as [E|_]; [lia|].
    assert (snd (gshape a) / size <= snd (gshape a)).
    { pose proof (Z.div_mod (snd (gshape a)) size ltac:(lia)).
      pose proof (Z.mod_pos_bound (snd (gshape a)) size ltac:(lia)).
      assert (0 <= snd (gshape a) / size) by (apply Z.div_pos; lia). nia. }
    intros Hcase.
    destruct Hsa as [-> | ->], Hsb as [-> | ->]; cbn in HkB; try lia.
    - destruct (Z.ltb_spec (snd (gshape a) / size) (snd (gshape a)));
        injection HkB as <-; lia.
    - injection HkB as <-. lia.
    - injection HkB as <-. reflexivity. }
  (* the block map of [a] *)
  unfold build_block_maps.
  assert (exists am0, new_a_block_map size a mB kB = Ok am0 /\
            bm_dim0 am0 = (if sa =? 0 then fst (gshape a) / mB / size else fst (gshape a) / mB) /\
            bm_dim1 am0 = (if sa =? 0 then snd (gshape a) / kB else snd (gshape a) / kB / size))
    as (am0 & -> & Had0 & Had1).
  { unfold new_a_block_map, split_is. rewrite Esa.
    rewrite !floordiv_Ok by lia. cbn [mbind result_bind]. rewrite !floordiv_Ok by lia.
    destruct Hsa as [-> | ->]; cbn; eexists; (split; [reflexivity|]); split; reflexivity. }
  cbn [mbind result_bind].
  assert (exists am1, fill_a_block_map size am0 mB kB (gather_lshapes size a b)
                                       (gather_index_map size a b) = Ok am1) as (am1 & ->).
  { unfold fill_a_block_map.
    replace (map fst (gather_index_map size a b))
      with (map (fun rank => chunk size rank (fst (gshape a), snd (gshape a)) (Some sa))
                (ranks size)).
    2:{ unfold gather_index_map. rewrite map_map. cbn [fst]. rewrite Esa.
        rewrite <- surjective_pairing. reflexivity. }
    apply operand_block_map_Ok; try assumption.
    - intros E0. subst sa. cbn in Em. split; [exact Em|]. rewrite Em.
      apply (ones_flag_split a b (fun row => fst (fst row))); [|exact HL|lia].
      intros rank Hr. cbn [fst]. rewrite (balanced_lshape a 0 rank Ha Esa Hr). reflexivity.
    - intros E0. assert (sa = 1) as -> by lia.
      rewrite (HkBv (or_introl eq_refl)) in *. split; [reflexivity|].
      apply (ones_flag_split a b (fun row => snd (fst row))); [|exact HP|lia].
      intros rank Hr. cbn [fst snd]. rewrite (balanced_lshape a 1 rank Ha Esa Hr). reflexivity. }
  cbn [mbind result_bind].
  (* the block map of [b] *)
  assert (exists bm0, new_b_block_map size b kB nB = Ok bm0 /\
            bm_dim0 bm0 = (if sb =? 0 then fst (gshape b) / kB / size else fst (gshape b) / kB) /\
            bm_dim1 bm0 = (if sb =? 0 then snd (gshape b) / nB else snd (gshape b) / nB / size))
    as (bm0 & -> & Hbd0 & Hbd1).
  { unfold new_b_block_map, split_is. rewrite Esb.
    rewrite !floordiv_Ok by lia. cbn [mbind result_bind]. rewrite !floordiv_Ok by lia.
    destruct Hsb as [-> | ->]; cbn; eexists; (split; [reflexivity|]); split; reflexivity. }
  cbn [mbind result_bind].
  assert (exists bm1, fill_b_block_map size bm0 kB nB (gather_lshapes size a b)
                                       (gather_index_map size a b) = Ok bm1) as (bm1 & ->).
  { unfold fill_b_block_map.
    replace (map snd (gather_index_map size a b))
      with (map (fun rank => chunk size rank (fst (gshape b), snd (gshape b)) (Some sb))
                (ranks size)).
    2:{ unfold gather_index_map. rewrite map_map. cbn [snd]. rewrite Esb.
        rewrite <- surjective_pairing. reflexivity. }
    apply operand_block_map_Ok; try assumption; try lia.
    - intros E0. subst sb. rewrite <- HPb in *.
      rewrite (HkBv (or_intror eq_refl)) in *. split; [reflexivity|].
      apply (ones_flag_split a b (fun row => fst (snd row))); [|exact HP|lia].
      intros rank Hr. cbn [fst snd]. rewrite (balanced_lshape b 0 rank Hb Esb Hr).
      cbn. rewrite <- HPb. reflexivity.
    - intros E0. assert (sb = 1) as -> by lia. cbn in En. split; [exact En|]. rewrite En.
      apply (ones_flag_split a b (fun row => snd (snd row))); [|exact HQ|lia].
      intros rank Hr. cbn [fst snd]. rewrite (balanced_lshape b 1 rank Hb Esb Hr). reflexivity. }
  cbn [mbind result_bind]. eauto.
Qed.

End BlockMapBounds.

(** ** [matmul] on concrete operands *)

Section MatMulCases.
Import MatMul Examples.

(** C1 at a failing input: the 3 by 3 matrix [square], split along axis 1,
    times the identity, split along axis 0.  The single-process product is
    [square], and so is the result on one process; on two processes the
    inner block size is 1, process 0 goes through both of its columns in the
    block loop and then once more through the last of them as a remainder,
    and the result has the second column of [square] doubled.  With a
    single contraction index on two processes the inner block size is 0 and
    the remainder test divides by it. *)
Theorem matmul_split_1_0_adds_a_column_twice :
  dense 3 3 3 square identity3 = Ok square /\
  observe (matmul 1 0%nat 1%nat false
             (operands (float32_on 1 (Some 1) 3 3 square) (float32_on 1 (Some 0) 3 3 identity3)))
  = Ok (Some 1, [square]) /\
  observe (matmul 2 0%nat 1%nat false
             (operands (float32_on 2 (Some 1) 3 3 square) (float32_on 2 (Some 0) 3 3 identity3)))
  = Ok (Some 1, [[[1; 4]; [4; 10]; [7; 16]]; [[3]; [6]; [9]]]) /\
  observe (matmul 2 0%nat 1%nat false
             (operands (float32_on 2 (Some 1) 2 1 [[1]; [2]]) (float32_on 2 (Some 0) 1 2 [[1; 1]])))
  = Raise ZeroDivisionError.
Proof. vm_compute. repeat split. Qed.

(** C6 at a failing input: a 1 by 2 matrix split along axis 0 over two
    processes, times a 2 by 2 matrix split along axis 1.  Process 0 holds a
    shard of one row and process 1 an empty one, so [mB] is 0; the
    allocation of the block map of [a] divides by it, whatever the remainder
    flags, and [matmul] does not get that far: the remainder test on the
    rows of [a] has divided by [mB] already. *)
Theorem block_maps_divide_by_zero_beside_a_single_row :
  let a := float32_on 2 (Some 0) 1 2 [[1; 2]] in
  let b := float32_on 2 (Some 1) 2 2 identity2 in
  map fst (gather_lshapes 2 a b) = [(1, 2); (0, 2)] /\
  block_sizes 2 a b = Ok (0, 2, 1) /\
  (forall rem_map,
     build_block_maps 2 a b 0 2 1 (gather_lshapes 2 a b) rem_map (gather_index_map 2 a b)
     = Raise ZeroDivisionError) /\
  setup_ring 2 a b = Raise ZeroDivisionError /\
  observe (matmul 2 0%nat 1%nat false (operands a b)) = Raise ZeroDivisionError.
Proof.
  cbv zeta. split; [reflexivity|]. split; [reflexivity|].
  split; [intros rem_map; reflexivity|]. split; reflexivity.
Qed.

(** C4, as stated, fails: a 2 by 2 matrix split along axis 1 times an
    unsplit 2 by 1 matrix gives a result split along axis 0, where the stated
    policy prefers the axis of [a]; so the result does not always have the
    preferred axis. *)
Lemma matmul_single_column_result_is_split_0 :
  observe (matmul 2 0%nat 1%nat false
             (operands (float32_on 2 (Some 1) 2 2 [[1; 2]; [3; 4]])
                       (float32_on 2 None 2 1 [[1]; [1]])))
  = Ok (Some 0, [[[3]]; [[7]]]) /\
  preferred_split (Some 1) None = Some 1 /\
  ~ (forall (size : Z) (a b : nat) (allow_resplit : bool) (w w' : world Z) (A B c : DNDarray Z),
       heap w !! a = Some A -> heap w !! b = Some B ->
       matmul size a b allow_resplit w = (Ok c, w') ->
       split c = preferred_split (split A) (split B)).
Proof.
  assert (observe (matmul 2 0%nat 1%nat false
                     (operands (float32_on 2 (Some 1) 2 2 [[1; 2]; [3; 4]])
                               (float32_on 2 None 2 1 [[1]; [1]])))
          = Ok (Some 0, [[[3]]; [[7]]])) as Hrun by (vm_compute; reflexivity).
  split; [exact Hrun|]. split; [reflexivity|].
  intros Hall.
  destruct (matmul 2 0%nat 1%nat false
              (operands (float32_on 2 (Some 1) 2 2 [[1; 2]; [3; 4]])
                        (float32_on 2 None 2 1 [[1]; [1]]))) as [[c|e] w'] eqn:E;
    [|discriminate Hrun].
  specialize (Hall 2 0%nat 1%nat false
                (operands (float32_on 2 (Some 1) 2 2 [[1; 2]; [3; 4]])
                          (float32_on 2 None 2 1 [[1]; [1]])) w'
                (float32_on 2 (Some 1) 2 2 [[1; 2]; [3; 4]])
                (float32_on 2 None 2 1 [[1]; [1]]) c eq_refl eq_refl E).
  cbn [observe] in Hrun. injection Hrun as Hsplit _.
  rewrite Hsplit in Hall. discriminate Hall.
Qed.

(** Scenario 4: [a] 5 by 3 and unsplit, [b] 3 by 4 and split along axis 0, on
    two processes. *)
Lemma matmul_result_split_witness :
  exists c w',
    matmul 2 0%nat 1%nat false
           (operands (float32_on 2 None 5 3 []) (float32_on 2 (Some 0) 3 4 [])) = (Ok c, w') /\
    split c = Some 0.
Proof.
  destruct (matmul 2 0%nat 1%nat false
                   (operands (float32_on 2 None 5 3 []) (float32_on 2 (Some 0) 3 4 [])))
    as [[c|e] w'] eqn:E.
  - exists c, w'. split; [reflexivity|].
    rewrite (matmul_result_split 2 0%nat 1%nat false
               (operands (float32_on 2 None 5 3 []) (float32_on 2 (Some 0) 3 4 [])) w'
               (float32_on 2 None 5 3 []) (float32_on 2 (Some 0) 3 4 []) c
               eq_refl eq_refl E).
    reflexivity.
  - exfalso.
    assert (is_Ok (fst (matmul 2 0%nat 1%nat false
                          (operands (float32_on 2 None 5 3 []) (float32_on 2 (Some 0) 3 4 []))))
            = true) as Hok by (vm_compute; reflexivity).
    rewrite E in Hok. discriminate Hok.
Defined.

Lemma matmul_inner_dimension_mismatch_witness :
  matmul 2 0%nat 1%nat false
         (operands (float32_on 2 (Some 0) 2 3 []) (float32_on 2 None 2 2 identity2))
  = (Raise (shape_mismatch (float32_on 2 (Some 0) 2 3 []) (float32_on 2 None 2 2 identity2)),
     operands (float32_on 2 (Some 0) 2 3 []) (float32_on 2 None 2 2 identity2)).
Proof.
  apply (matmul_inner_dimension_mismatch 2 0%nat 1%nat false
           (operands (float32_on 2 (Some 0) 2 3 []) (float32_on 2 None 2 2 identity2))
           (float32_on 2 (Some 0) 2 3 []) (float32_on 2 None 2 2 identity2)).
  - reflexivity.
  - reflexivity.
  - vm_compute. discriminate.
Defined.

Lemma block_sizes_are_table_minima_witness :
  let a := float32_on 3 (Some 0) 7 5 [] in
  let b := float32_on 3 (Some 0) 5 4 [] in
  block_sizes 3 a b = Ok (2, 1, 4) /\
  least 2 (table_rows (gather_lshapes 3 a b)) /\
  least 4 (table_columns (gather_lshapes 3 a b)) /\
  least 1 (table_inner (gather_lshapes 3 a b)).
Proof.
  cbv zeta.
  destruct (block_sizes_are_table_minima 3 (float32_on 3 (Some 0) 7 5 [])
                                         (float32_on 3 (Some 0) 5 4 []))
    as (_ & (m & n & Hout & Hm & Hn & Hbs) & Hbal).
  - lia.
  - simpl; lia.
  - reflexivity.
  - reflexivity.
  - vm_compute in Hout. injection Hout as <- <-.
    split; [apply Hbs; vm_compute; discriminate|].
    split; [exact Hm|]. split; [exact Hn|].
    apply Hbal.
    + intros rank Hr. assert (rank = 0 \/ rank = 1 \/ rank = 2) as [->|[->| ->]] by lia;
        reflexivity.
    + intros rank Hr. assert (rank = 0 \/ rank = 1 \/ rank = 2) as [->|[->| ->]] by lia;
        reflexivity.
Defined.

(** C5, as stated, fails: [kB] is not taken from the table.  A 2 by 4 [a]
    and a 4 by 2 [b], both split along axis 0 over two processes, where
    [b] has three rows on the first process and one on the second: the
    least contraction extent that the table records is 1, and [kB] is
    [4 // 2 = 2]. *)
Lemma block_size_kB_is_not_read_from_the_table :
  let a := float32_on 2 (Some 0) 2 4 [[1; 2; 3; 4]; [5; 6; 7; 8]] in
  let b := factories_array_is_split
             [of_rows 3 2 [[1; 0]; [0; 1]; [1; 1]]; of_rows 1 2 [[2; 2]]] 0 ht_float32 in
  ring_exchange a b = true /\
  gather_lshapes 2 a b = [((1, 4), (3, 2)); ((1, 4), (1, 2))] /\
  block_sizes 2 a b = Ok (1, 2, 2) /\
  least 1 (table_inner (gather_lshapes 2 a b)) /\
  ~ least 2 (table_inner (gather_lshapes 2 a b)).
Proof.
  cbv zeta. split; [reflexivity|]. split; [reflexivity|]. split; [reflexivity|].
  assert (table_inner (gather_lshapes 2
            (float32_on 2 (Some 0) 2 4 [[1; 2; 3; 4]; [5; 6; 7; 8]])
            (factories_array_is_split
               [of_rows 3 2 [[1; 0]; [0; 1]; [1; 1]]; of_rows 1 2 [[2; 2]]] 0 ht_float32))
          = [4; 4; 3; 1]) as -> by reflexivity.
  split.
  - split; [cbn; auto|]. intros x Hx. cbn in Hx. lia.
  - intros [_ Hlow]. specialize (Hlow 1). cbn in Hlow. lia.
Qed.

(** C10, the defect: the docstring of [matmul] promises for [allow_resplit]
    and two unsplit operands that "'a' will be split in-place along axis 0".
    Lines 164-165 bind the name [a] to the upcast copy when the type of [a]
    is not the promoted one, and line 177 splits that copy.  With a float32
    [a] and a float64 [b], both unsplit, the call returns and the caller's
    [a] is as before: unsplit, with the full matrix on both processes; so
    the call does not always leave the caller's [a] split along axis 0. *)
Lemma matmul_resplit_leaves_an_upcast_operand :
  let w := operands (distribute 2 None ht_float32 2 2 [[1; 2]; [3; 4]])
                    (distribute 2 None ht_float64 2 2 identity2) in
  let run := matmul 2 0%nat 1%nat true w in
  is_Ok (fst run) = true /\
  (fun a => (split a, map to_rows (larray a))) <$> heap (snd run) !! 0%nat
  = Some (None, [[[1; 2]; [3; 4]]; [[1; 2]; [3; 4]]]) /\
  ~ (forall (size : Z) (a b : nat) (w : world Z) (A B : DNDarray Z),
       heap w !! a = Some A -> heap w !! b = Some B ->
       split A = None -> split B = None -> snd (gshape A) = fst (gshape B) ->
       split <$> heap (snd (matmul size a b true w)) !! a = Some (Some 0)).
Proof.
  cbv zeta. split; [vm_compute; reflexivity|]. split; [vm_compute; reflexivity|].
  intros Hall.
  specialize (Hall 2 0%nat 1%nat
                (operands (distribute 2 None ht_float32 2 2 [[1; 2]; [3; 4]])
                          (distribute 2 None ht_float64 2 2 identity2))
                (distribute 2 None ht_float32 2 2 [[1; 2]; [3; 4]])
                (distribute 2 None ht_float64 2 2 identity2)
                eq_refl eq_refl eq_refl eq_refl eq_refl).
  vm_compute in Hall. discriminate Hall.
Qed.

Lemma matmul_unsplit_operands_witness :
  let w := operands (float32_on 2 None 2 2 [[1; 2]; [3; 4]]) (float32_on 2 None 2 2 identity2) in
  (split <$> heap (snd (matmul 2 0%nat 1%nat true w)) !! 0%nat) = Some (Some 0) /\
  snd (matmul 2 0%nat 1%nat false w) = w.
Proof.
  cbv zeta.
  destruct (matmul_unsplit_operands 2 0%nat 1%nat
              (operands (float32_on 2 None 2 2 [[1; 2]; [3; 4]])
                        (float32_on 2 None 2 2 identity2))
              (float32_on 2 None 2 2 [[1; 2]; [3; 4]]) (float32_on 2 None 2 2 identity2)
              eq_refl eq_refl eq_refl eq_refl eq_refl) as [Hsplit Hkeep].
  split.
  - destruct (Hsplit _ _ (surjective_pairing _)) as [-> _]. reflexivity.
  - vm_compute. reflexivity.
Defined.

End MatMulCases.

Section TransposeMore.
Import Transpose Examples.

Lemma list_index_reverse_range (n j : Z) :
  0 <= j < n -> list_index (reverse (seqZ 0 n)) j = Some (n - 1 - j).
Proof.
  intros Hj.
  assert (In j (reverse (seqZ 0 n))) as Hin.
  { apply list_elem_of_In, elem_of_reverse, elem_of_seqZ. lia. }
  destruct (index_from_In j _ 0 Hin) as (i & Hi & Hl).
  unfold list_index. rewrite Hi. f_equal.
  pose proof (lookup_lt_Some _ _ _ Hl) as Hlt. rewrite length_reverse in Hlt.
  rewrite reverse_lookup in Hl by exact Hlt.
  apply lookup_seqZ in Hl. rewrite length_seqZ in Hl, Hlt. lia.
Qed.

Lemma mapM_getitem_nth (l : list Z) (axes : list Z) :
  Forall (fun d => 0 <= d < Z.of_nat (length l)) axes ->
  mapM (getitem l) axes = Ok (map (fun d => nth (Z.to_nat d) l 0) axes).
Proof.
  induction 1 as [|d axes Hd Hl IH]; [reflexivity|].
  assert (getitem l d = Ok (nth (Z.to_nat d) l 0)) as Hx.
  { unfold getitem.
    destruct (d <? 0) eqn:E; [apply Z.ltb_lt in E; lia|].
    replace ((0 <=? d) && (d <? Z.of_nat (length l))) with true
      by (symmetry; apply andb_true_iff; split; [apply Z.leb_le | apply Z.ltb_lt]; lia).
    destruct (l !! Z.to_nat d) as [x|] eqn:El.
    - f_equal. symmetry. apply nth_lookup_Some with (d := 0) in El. exact El.
    - apply lookup_ge_None in El. lia. }
  simpl. rewrite Hx. simpl. rewrite IH. reflexivity.
Qed.

Lemma map_nth_reverse_range {A} (l : list A) (d : A) :
  map (fun j => nth (Z.to_nat (Z.of_nat (length l) - 1 - j)) l d) (seqZ 0 (Z.of_nat (length l)))
  = reverse l.
Proof.
  apply list_eq. intros i.
  rewrite list_lookup_fmap.
  destruct (decide (i < length l)%nat) as [Hi|Hi].
  - rewrite lookup_seqZ_lt by lia. cbn.
    rewrite reverse_lookup by exact Hi.
    replace (Z.to_nat (Z.of_nat (length l) - 1 - (0 + Z.of_nat i))) with (length l - S i)%nat by lia.
    destruct (nth_lookup_or_length l (length l - S i) d) as [->|]; [reflexivity | lia].
  - rewrite lookup_seqZ_ge by lia. cbn. symmetry. apply lookup_ge_None. rewrite length_reverse. lia.
Qed.

Lemma map_nth_range (l : list Z) :
  map (fun d => nth (Z.to_nat d) l 0) (seqZ 0 (Z.of_nat (length l))) = l.
Proof.
  apply list_eq. intros i. rewrite list_lookup_fmap.
  destruct (decide (i < length l)%nat) as [Hi|Hi].
  - rewrite lookup_seqZ_lt by lia. cbn.
    replace (Z.to_nat (0 + Z.of_nat i)) with i by lia.
    destruct (nth_lookup_or_length l i 0) as [->|]; [reflexivity | lia].
  - rewrite lookup_seqZ_ge by lia. cbn. symmetry. apply lookup_ge_None. lia.
Qed.


Lemma map_reverse_comm {A B} (f : A -> B) (l : list A) :
  map f (reverse l) = reverse (map f l).
Proof.
  induction l as [|x l IH]; [reflexivity|].
  cbn [map]. rewrite !reverse_cons, map_app, IH. reflexivity.
Qed.

(** [permute] with dims that are a permutation of the dimensions. *)
Lemma torch_permute_permutation {T} (dims : list Z) (t : tensor T) :
  tshape t <> [] ->
  Permutation dims (seqZ 0 (Z.of_nat (length (tshape t)))) ->
  torch_permute dims t =
  Ok {| tshape := map (fun d => nth (Z.to_nat d) (tshape t) 0) dims;
        tget := fun idx =>
          tget t (map (fun j => match list_index dims j with
                                | Some i => nth (Z.to_nat i) idx 0
                                | None => 0
                                end)
                      (seqZ 0 (Z.of_nat (length (tshape t))))) |}.
Proof.
  intros Hne HP.
  rewrite torch_permute_args
    by (apply (permutation_nonempty dims (length (tshape t))); [destruct (tshape t) |];
        [congruence | discriminate | exact HP]).
  unfold permute_dims.
  set (n := Z.of_nat (length (tshape t))) in *.
  assert (Z.of_nat (length dims) = n) as Hlen.
  { rewrite (Permutation_length HP), length_seqZ. lia. }
  rewrite Hlen, Z.eqb_refl. simpl.
  pose proof (permutation_in_range _ _ HP) as Hr.
  replace (forallb (fun d => (- n <=? d) && (d <? n)) dims) with true.
  2:{ symmetry. apply forallb_forall. intros d Hd.
      rewrite List.Forall_forall in Hr. specialize (Hr d Hd).
      apply andb_true_iff. split; [apply Z.leb_le | apply Z.ltb_lt]; lia. }
  simpl.
  fold (wrap_negative n dims). rewrite wrap_negative_nonneg.
  2:{ eapply Forall_impl; [exact Hr|]. simpl. intros; lia. }
  rewrite no_repeat_NoDup; [reflexivity|].
  rewrite HP. apply NoDup_seqZ.
Qed.

(** The default [axes]: the shape and every index are reversed. *)
Lemma transpose_default_reverses {T} (a : DNDarray T) :
  length (tshape (array a)) = length (shape a) ->
  shape a <> [] ->
  match split a with None => True | Some s => 0 <= s < Z.of_nat (length (shape a)) end ->
  exists a',
    transpose a None = Ok a' /\
    shape a' = reverse (shape a) /\
    tshape (array a') = reverse (tshape (array a)) /\
    split a' = (fun s => Z.of_nat (length (shape a)) - 1 - s) <$> split a /\
    dtype a' = dtype a /\ dev a' = dev a /\ comm a' = comm a /\
    forall idx, length idx = length (shape a) ->
      tget (array a') idx = tget (array a) (reverse idx).
Proof.
  intros Hlen Hne Hs. unfold transpose.
  set (n := Z.of_nat (length (shape a))) in *.
  cbn [mbind result_bind].
  assert (Permutation (reverse (seqZ 0 n)) (seqZ 0 (Z.of_nat (length (tshape (array a))))))
    as HP by (rewrite Hlen; apply reverse_Permutation).
  assert (tshape (array a) <> []) as Hne'.
  { intros E. apply Hne. destruct (shape a); [reflexivity|]. rewrite E in Hlen. discriminate Hlen. }
  rewrite (torch_permute_permutation _ _ Hne' HP). rewrite Hlen. fold n.
  rewrite mapM_getitem_nth.
  2:{ apply List.Forall_forall. intros d Hd. apply list_elem_of_In, elem_of_reverse,
        elem_of_seqZ in Hd. lia. }
  assert (match split a with
          | Some s => match list_index (reverse (seqZ 0 n)) s with
                      | Some i => Ok (Some i)
                      | None => Raise axes_mismatch
                      end
          | None => Ok None
          end = Ok ((fun s => n - 1 - s) <$> split a)) as ->.
  { destruct (split a) as [s|]; [|reflexivity].
    rewrite list_index_reverse_range by exact Hs. reflexivity. }
  cbn [mbind result_bind]. eexists. split; [reflexivity|]. cbn [shape array tshape split dtype dev comm tget].
  split; [|split; [|split; [reflexivity|split; [reflexivity|split; [reflexivity|split; [reflexivity|]]]]]].
  - rewrite map_reverse_comm. f_equal. apply map_nth_range.
  - rewrite map_reverse_comm. f_equal. unfold n. rewrite <- Hlen. apply map_nth_range.
  - intros idx Hidx. f_equal.
    rewrite <- (map_nth_reverse_range idx 0). rewrite Hidx. fold n.
    apply map_ext_in. intros j Hj. apply In_seqZ_range in Hj.
    rewrite list_index_reverse_range by exact Hj. reflexivity.
Qed.


Lemma no_repeat_true_NoDup (l : list Z) : no_repeat l = true -> NoDup l.
Proof.
  induction l as [|x l IH]; intros Hn; [constructor|].
  cbn in Hn. apply andb_true_iff in Hn as [Hx Hl]. constructor; [|apply IH; exact Hl].
  intros Hin. apply negb_true_iff in Hx.
  assert (existsb (Z.eqb x) l = true) as E; [|congruence].
  apply existsb_exists. exists x. split; [apply list_elem_of_In; exact Hin | apply Z.eqb_refl].
Qed.

(** A list of [n] distinct values below [n] holds every one of them. *)
Lemma NoDup_range_Permutation (n : nat) (l : list Z) :
  NoDup l -> length l = n -> Forall (fun d => 0 <= d < Z.of_nat n) l ->
  Permutation l (seqZ 0 (Z.of_nat n)).
Proof.
  intros Hnd Hlen Hr.
  apply submseteq_length_Permutation.
  - apply NoDup_submseteq; [exact Hnd|].
    intros x Hx. rewrite list.Forall_forall in Hr. apply elem_of_seqZ.
    specialize (Hr x Hx). lia.
  - rewrite length_seqZ. lia.
Qed.

Lemma mapM_getitem_wrap (l : list Z) (axes : list Z) :
  Forall (fun d => - Z.of_nat (length l) <= d < Z.of_nat (length l)) axes ->
  mapM (getitem l) axes
  = Ok (map (fun d => nth (Z.to_nat (d mod Z.of_nat (length l))) l 0) axes).
Proof.
  induction 1 as [|d axes Hd Hl IH]; [reflexivity|].
  assert (getitem l d = Ok (nth (Z.to_nat (d mod Z.of_nat (length l))) l 0)) as Hx.
  { unfold getitem. set (n := Z.of_nat (length l)) in *.
    assert ((if d <? 0 then d + n else d) = d mod n) as ->.
    { destruct (Z.ltb_spec d 0).
      - apply (Z.mod_unique d n (-1)); lia.
      - symmetry. apply Z.mod_small. lia. }
    pose proof (Z.mod_pos_bound d n ltac:(lia)) as Hm.
    replace ((0 <=? d mod n) && (d mod n <? n)) with true
      by (symmetry; apply andb_true_iff; split; [apply Z.leb_le | apply Z.ltb_lt]; lia).
    destruct (l !! Z.to_nat (d mod n)) as [x|] eqn:El.
    - f_equal. symmetry. apply nth_lookup_Some with (d := 0) in El. exact El.
    - apply lookup_ge_None in El. lia. }
  simpl. rewrite Hx. simpl. rewrite IH. reflexivity.
Qed.

(** What [transpose] has checked of a given [axes] when it returns. *)
Lemma transpose_returns_inv {T} (a a' : DNDarray T) (axes : list Z) :
  length (tshape (array a)) = length (shape a) ->
  transpose a (Some axes) = Ok a' ->
  let n := Z.of_nat (length (shape a)) in
  length axes = length (shape a) /\
  Forall (fun d => - n <= d < n) (wrap_negative n axes) /\
  NoDup (map (fun d => if d <? 0 then d + n else d) (wrap_negative n axes)) /\
  (exists t', torch_permute (wrap_negative n axes) (array a) = Ok t' /\ array a' = t') /\
  mapM (getitem (shape a)) (wrap_negative n axes) = Ok (shape a') /\
  dtype a' = dtype a /\ dev a' = dev a /\ comm a' = comm a /\
  match split a with
  | None => split a' = None
  | Some s => exists i, split a' = Some i /\ list_index (wrap_negative n axes) s = Some i
  end.
Proof.
  intros Hlen Hrun n. unfold transpose in Hrun. fold n in Hrun.
  destruct (Z.eqb_spec (Z.of_nat (length axes)) n) as [Hn|Hn]; [|discriminate Hrun].
  cbn [negb mbind result_bind] in Hrun.
  set (wr := wrap_negative n axes) in *.
  assert (exists sp, match split a with
                     | Some s => match list_index wr s with
                                 | Some i => Ok (Some i)
                                 | None => Raise axes_mismatch
                                 end
                     | None => Ok None
                     end = Ok sp /\
                     match split a with
                     | None => sp = None
                     | Some s => exists i, sp = Some i /\ list_index wr s = Some i
                     end) as (sp & Hsp & Hspv).
  { destruct (split a) as [s|]; [|eauto].
    destruct (list_index wr s) as [i|]; [eauto | discriminate Hrun]. }
  rewrite Hsp in Hrun. cbn [mbind result_bind] in Hrun.
  destruct (torch_permute wr (array a)) as [t'|e] eqn:Hp.
  2:{ cbn in Hrun. destruct e; discriminate Hrun. }
  cbn [mbind result_bind] in Hrun.
  destruct (mapM (getitem (shape a)) wr) as [shp|e] eqn:Hm.
  2:{ cbn in Hrun. destruct e; discriminate Hrun. }
  cbn [mbind result_bind] in Hrun. injection Hrun as <-. cbn.
  split; [lia|].
  assert (Forall (fun d => - n <= d < n) wr /\
          NoDup (map (fun d => if d <? 0 then d + n else d) wr)) as [HF HN].
  { clear Hsp Hspv Hm. apply torch_permute_Ok_inv in Hp. unfold permute_dims in Hp. rewrite Hlen in Hp. fold n in Hp.
    destruct (negb (Z.of_nat (length wr) =? n)); [discriminate Hp|].
    destruct (forallb (fun d => (- n <=? d) && (d <? n)) wr) eqn:Hf; [|discriminate Hp].
    cbn [negb] in Hp.
    destruct (no_repeat (map (fun d => if d <? 0 then d + n else d) wr)) eqn:Hnr;
      [|discriminate Hp].
    split; [|apply no_repeat_true_NoDup; exact Hnr].
    apply List.Forall_forall. intros d Hd. rewrite forallb_forall in Hf.
    specialize (Hf d Hd). apply andb_true_iff in Hf as [H1 H2].
    apply Z.leb_le in H1. apply Z.ltb_lt in H2. lia. }
  split; [exact HF|]. split; [exact HN|].
  split; [exists t'; split; reflexivity|].
  split; [reflexivity|]. repeat (split; [reflexivity|]).
  destruct (split a); exact Hspv.
Qed.


(** X1: with the default [axes], [transpose] reverses the dimensions: the
    global and the local shape are reversed, the element at an index is the
    element of [a] at the reversed index, a split axis [s] becomes
    [n - 1 - s], and type, device and communicator are kept; the result is
    well formed again. *)
Theorem transpose_default_reverses_the_dimensions {T} (a : DNDarray T) :
  well_formed a ->
  exists a',
    transpose a None = Ok a' /\
    well_formed a' /\
    shape a' = reverse (shape a) /\
    tshape (array a') = reverse (tshape (array a)) /\
    split a' = (fun s => Z.of_nat (length (shape a)) - 1 - s) <$> split a /\
    dtype a' = dtype a /\ dev a' = dev a /\ comm a' = comm a /\
    forall idx, length idx = length (shape a) ->
      tget (array a') idx = tget (array a) (reverse idx).
Proof.
  intros (Hlen & Hne & Hs).
  destruct (transpose_default_reverses a Hlen Hne Hs)
    as (a' & Hrun & Hsh & Hts & Hsp & Hdt & Hdev & Hcomm & Hel).
  exists a'. split; [exact Hrun|]. split; [|repeat (split; [assumption|]); exact Hel].
  unfold well_formed. rewrite Hsh, Hts, Hsp, !length_reverse.
  split; [exact Hlen|]. split.
  - intros E. apply Hne. rewrite <- (reverse_involutive (shape a)), E. reflexivity.
  - destruct (split a) as [s|]; cbn; [lia | exact I].
Qed.

(** X2: transposing twice with the default [axes] gives the array back:
    both calls return, and the second result has the shape, the split axis,
    the local shape, the elements, the type, the device and the communicator
    of [a]. *)
Theorem transpose_twice_restores {T} (a : DNDarray T) :
  well_formed a ->
  exists a' a'',
    transpose a None = Ok a' /\ transpose a' None = Ok a'' /\
    shape a'' = shape a /\ split a'' = split a /\
    tshape (array a'') = tshape (array a) /\
    dtype a'' = dtype a /\ dev a'' = dev a /\ comm a'' = comm a /\
    forall idx, length idx = length (shape a) -> tget (array a'') idx = tget (array a) idx.
Proof.
  intros (Hlen & Hne & Hs).
  destruct (transpose_default_reverses a Hlen Hne Hs)
    as (a' & Hrun & Hsh & Hts & Hsp & Hdt & Hdev & Hcomm & Hel).
  destruct (transpose_default_reverses a')
    as (a'' & Hrun' & Hsh' & Hts' & Hsp' & Hdt' & Hdev' & Hcomm' & Hel').
  { rewrite Hsh, Hts, !length_reverse. exact Hlen. }
  { intros E. apply Hne. rewrite <- (reverse_involutive (shape a)), <- Hsh, E. reflexivity. }
  { rewrite Hsp, Hsh, length_reverse. destruct (split a) as [s|]; cbn; [lia | exact I]. }
  exists a', a''. split; [exact Hrun|]. split; [exact Hrun'|].
  rewrite Hsh', Hsh, Hts', Hts, !reverse_involutive, Hsp', Hsp, Hdt', Hdev', Hcomm'.
  split; [reflexivity|]. split.
  { destruct (split a) as [s|]; cbn; [rewrite Hsh, length_reverse; f_equal; lia | reflexivity]. }
  split; [reflexivity|]. repeat (split; [assumption|]).
  intros idx Hidx. rewrite Hel' by (rewrite Hsh, length_reverse; exact Hidx).
  rewrite Hel by (rewrite length_reverse; exact Hidx).
  rewrite reverse_involutive. reflexivity.
Qed.

(** X3: [transpose] returns only for an [axes] that names every dimension
    exactly once: if the call returns for an array of [n] dimensions, then
    [axes] has [n] entries that are, modulo [n], a permutation of
    [0, ..., n - 1]; dimension [i] of the result, globally and locally, is
    dimension [axes[i]] of [a]; type, device and communicator are kept, and
    the result of a well-formed array is well formed. *)
Theorem transpose_returns_a_permutation {T} (a a' : DNDarray T) (axes : list Z) :
  length (tshape (array a)) = length (shape a) ->
  transpose a (Some axes) = Ok a' ->
  let n := Z.of_nat (length (shape a)) in
  Permutation (map (fun d => d mod n) axes) (seqZ 0 n) /\
  shape a' = map (fun d => nth (Z.to_nat (d mod n)) (shape a) 0) axes /\
  tshape (array a') = map (fun d => nth (Z.to_nat (d mod n)) (tshape (array a)) 0) axes /\
  dtype a' = dtype a /\ dev a' = dev a /\ comm a' = comm a /\
  (well_formed a -> well_formed a').
Proof.
  intros Hlen Hrun n.
  destruct (transpose_returns_inv a a' axes Hlen Hrun)
    as (Hax & HF & HN & (t' & Hp & Ht') & Hm & Hdt & Hdev & Hcomm & Hsp).
  fold n in HF, HN, Hp, Hm, Hsp.
  assert (map (fun d => if d <? 0 then d + n else d) (wrap_negative n axes)
          = map (fun d => d mod n) axes) as Hwrap.
  { unfold wrap_negative in *. rewrite map_map. apply map_ext_in. intros d Hd.
    rewrite List.Forall_forall in HF.
    specialize (HF (if d <? 0 then d + n else d)).
    assert (In (if d <? 0 then d + n else d) (map (fun axis => if axis <? 0 then axis + n else axis) axes))
      as Hin by (apply in_map_iff; exists d; auto).
    specialize (HF Hin). clear Hin.
    destruct (Z.ltb_spec d 0).
    - destruct (Z.ltb_spec (d + n) 0).
      + apply (Z.mod_unique d n (-2)); lia.
      + apply (Z.mod_unique d n (-1)); lia.
    - destruct (Z.ltb_spec d 0); [lia|]. symmetry. apply Z.mod_small. lia. }
  assert (shape a' = map (fun d => nth (Z.to_nat (d mod n)) (shape a) 0) axes) as Hshape.
  { rewrite (mapM_getitem_wrap (shape a)) in Hm by exact HF. injection Hm as <-.
    fold n. unfold wrap_negative. rewrite map_map. apply map_ext_in. intros d Hd.
    f_equal. f_equal.
    destruct (Z.ltb_spec d 0); [|reflexivity].
    destruct (Z.eq_dec n 0) as [E|E].
    - destruct axes; [destruct Hd | cbn in Hax; lia].
    - rewrite <- (Z.mod_add d 1 n) by exact E. f_equal. lia. }
  assert (tshape (array a') = map (fun d => nth (Z.to_nat (d mod n)) (tshape (array a)) 0) axes)
    as Htshape.
  { rewrite Ht'. apply torch_permute_Ok_inv in Hp. unfold permute_dims in Hp. rewrite Hlen in Hp. fold n in Hp.
    destruct (negb (Z.of_nat (length (wrap_negative n axes)) =? n)); [discriminate Hp|].
    destruct (negb (forallb (fun d => (- n <=? d) && (d <? n)) (wrap_negative n axes)));
      [discriminate Hp|].
    destruct (negb (no_repeat (map (fun d => if d <? 0 then d + n else d) (wrap_negative n axes))));
      [discriminate Hp|].
    injection Hp as <-. cbn [tshape]. rewrite Hwrap, map_map. reflexivity. }
  split.
  { rewrite <- Hwrap. apply NoDup_range_Permutation; [exact HN | |].
    - rewrite Hwrap, length_map. exact Hax.
    - rewrite Hwrap. apply List.Forall_forall. intros x Hx.
      apply in_map_iff in Hx as (d & <- & Hd).
      destruct (Z.eq_dec n 0) as [E|E].
      + destruct axes; [destruct Hd | cbn in Hax; lia].
      + apply Z.mod_pos_bound. lia. }
  split; [exact Hshape|]. split; [exact Htshape|].
  repeat (split; [assumption|]).
  intros (_ & Hne & Hs). unfold well_formed.
  rewrite Hshape, Htshape, !length_map. split; [reflexivity|]. split.
  - destruct axes; [|discriminate]. destruct (shape a); [contradiction | discriminate Hax].
  - destruct (split a) as [s|]; [|rewrite Hsp; exact I].
    destruct Hsp as (i & -> & Hi). unfold list_index in Hi.
    destruct (in_dec Z.eq_dec s (wrap_negative n axes)) as [Hin|Hnin].
    + destruct (index_from_In s _ 0 Hin) as (j & Hj & Hl). rewrite Hj in Hi. injection Hi as <-.
      apply lookup_lt_Some in Hl. unfold wrap_negative in Hl. rewrite length_map in Hl. lia.
    + rewrite index_from_not_In in Hi by exact Hnin. discriminate Hi.
Qed.

Lemma torch_permute_raises {T} (dims : list Z) (t : tensor T) (e : exn) :
  dims <> [] ->
  torch_permute dims t = Raise e -> e = RuntimeError \/ e = IndexError.
Proof.
  intros Hne. rewrite torch_permute_args by exact Hne. unfold permute_dims.
  repeat match goal with |- context [if ?c then _ else _] => destruct c end;
    intros [= <-]; auto.
Qed.

Lemma mapM_getitem_raises {A} (l : list A) (axes : list Z) (e : exn) :
  mapM (getitem l) axes = Raise e -> e = IndexError.
Proof.
  induction axes as [|d axes IH]; [discriminate|].
  simpl. destruct (getitem l d) as [x|e'] eqn:Hx; simpl.
  - destruct (mapM (getitem l) axes) as [r|e'']; simpl; [discriminate|].
    intros [= <-]. apply IH. reflexivity.
  - intros [= <-]. unfold getitem in Hx.
    repeat match type of Hx with context [if ?c then _ else _] => destruct c end;
      try destruct (l !! _); congruence.
Qed.

(** X4: for an array with at least one dimension, [transpose] raises
    nothing but a ValueError: the errors of torch's [permute] reach the
    caller as ValueErrors, and an [axes] with another number of entries than
    the array has dimensions is refused with "axes do not match tensor
    shape". *)
Theorem transpose_raises_only_ValueError {T} (a : DNDarray T) :
  shape a <> [] ->
  (forall axes e, transpose a axes = Raise e -> is_ValueError e = true) /\
  (forall axes, length axes <> length (shape a) ->
     transpose a (Some axes) = Raise axes_mismatch).
Proof.
  intros Hne. split.
  - intros axes e. unfold transpose.
    match goal with |- (?m ≫= _) = _ -> _ =>
      assert ((forall r, m = Raise r -> r = axes_mismatch) /\
              (forall ax, m = Ok ax -> ax <> [])) as [Hax Hnn];
        [|destruct m as [ax|e0]]
    end; cbn [mbind result_bind].
    { destruct axes as [axes|].
      - destruct (Z.eqb_spec (Z.of_nat (length axes)) (Z.of_nat (length (shape a))))
          as [E|E]; cbn [negb].
        + split; [intros r; discriminate|]. intros ax [= <-] E0.
          unfold wrap_negative in E0. apply map_eq_nil in E0. subst axes.
          destruct (shape a); [contradiction | discriminate E].
        + split; [intros r [= <-]; reflexivity | intros ax; discriminate].
      - split; [intros r; discriminate|]. intros ax [= <-] E0.
        apply (f_equal (@length Z)) in E0. rewrite length_reverse, length_seqZ in E0.
        cbn in E0. destruct (shape a); [contradiction | cbn in E0; lia]. }
    2:{ intros [= <-]. rewrite (Hax e0 eq_refl). reflexivity. }
    clear Hax. specialize (Hnn ax eq_refl).
    match goal with |- (?m ≫= _) = _ -> _ =>
      assert (forall r, m = Raise r -> r = axes_mismatch) as Hsp;
        [destruct (split a) as [s|];
         [destruct (list_index ax s); intros r [= <-]; reflexivity | intros r; discriminate]
        |destruct m as [sp|e0]]
    end; cbn [mbind result_bind].
    2:{ intros [= <-]. rewrite (Hsp e0 eq_refl). reflexivity. }
    clear Hsp.
    destruct (torch_permute ax (array a)) as [t'|e'] eqn:Hp; cbn [mbind result_bind].
    + destruct (mapM (getitem (shape a)) ax) as [shp|e'] eqn:Hm; cbn [mbind result_bind];
        [discriminate|].
      apply mapM_getitem_raises in Hm. subst e'. intros [= <-]. reflexivity.
    + apply torch_permute_raises in Hp as [-> | ->]; [| |exact Hnn]; intros [= <-]; reflexivity.
  - intros axes Hlen. unfold transpose.
    destruct (Z.eqb_spec (Z.of_nat (length axes)) (Z.of_nat (length (shape a)))); [lia|].
    reflexivity.
Qed.

End TransposeMore.

Section TriProps.
Import Transpose Tri.
Context {T : Type} `{MatMul.Backend T}.

Lemma in_bounds_length (shape idx : list Z) : in_bounds shape idx -> length idx = length shape.
Proof. intros Hb. symmetry. exact (Forall2_length _ _ _ Hb). Qed.

Lemma in_bounds_numel (shape idx : list Z) : in_bounds shape idx -> 0 < QR.numel shape.
Proof.
  induction 1 as [|d i shape idx Hd Hb IH]; cbn; [lia|].
  fold (QR.numel shape). nia.
Qed.

Lemma starts_with_take (p idx : list Z) :
  starts_with p idx = true <-> take (length p) idx = p.
Proof.
  revert idx. induction p as [|x p IH]; intros idx; cbn.
  - split; [intros _; apply take_0 | reflexivity].
  - destruct idx as [|y idx]; cbn; [split; discriminate|].
    rewrite andb_true_iff, Z.eqb_eq, IH. split.
    + intros [-> ->]. reflexivity.
    + intros [= -> Hp]. rewrite Hp. auto.
Qed.

Lemma product_in_bounds (shape p : list Z) :
  in_bounds shape p -> In p (product (map (fun elements => seqZ 0 elements) shape)).
Proof.
  induction 1 as [|d i shape p Hd Hb IH]; cbn; [left; reflexivity|].
  apply in_flat_map. exists i. split.
  - apply list_elem_of_In, elem_of_seqZ. lia.
  - apply in_map. exact IH.
Qed.

Lemma product_length (ranges : list (list Z)) (p : list Z) :
  In p (product ranges) -> length p = length ranges.
Proof.
  revert p. induction ranges as [|r rs IH]; intros p Hp; cbn in Hp.
  - destruct Hp as [<-|[]]. reflexivity.
  - apply in_flat_map in Hp as (x & _ & Hp). apply in_map_iff in Hp as (q & <- & Hq).
    cbn. f_equal. apply IH. exact Hq.
Qed.

Lemma in_bounds_take (k : nat) (shape idx : list Z) :
  in_bounds shape idx -> in_bounds (take k shape) (take k idx).
Proof. intros Hb. apply Forall2_take. exact Hb. Qed.

Lemma tri_into_Ok (op : triangle) (k : Z) (original output : tensor T) (p : list Z) :
  (length p + 2 = length (tshape original))%nat ->
  tshape output = tshape original ->
  exists out,
    tri_into op k original output p = Ok out /\
    tshape out = tshape original /\
    forall idx, length idx = length (tshape original) ->
      tget out idx =
        if starts_with p idx
        then (if kept op k (nth (length idx - 2) idx 0) (nth (length idx - 1) idx 0)
              then tget original idx else MatMul.zero)
        else tget output idx.
Proof.
  intros Hp Hshape. unfold tri_into, select. rewrite Hshape.
  replace (length p + 2 <=? length (tshape original))%nat with true
    by (symmetry; apply Nat.leb_le; lia).
  cbn [mbind result_bind]. unfold torch_tri. cbn [tshape]. rewrite length_drop.
  replace (2 <=? length (tshape original) - length p)%nat with true
    by (symmetry; apply Nat.leb_le; lia).
  cbn [mbind result_bind].
  eexists. split; [reflexivity|]. split; [reflexivity|].
  intros idx Hidx. cbn [tget].
  destruct (starts_with p idx) eqn:Esw; [|reflexivity].
  apply starts_with_take in Esw.
  replace (length (tshape original) - length p - 2)%nat with 0%nat by lia.
  replace (length (tshape original) - length p - 1)%nat with 1%nat by lia.
  rewrite !nth_skipn.
  replace (length p + 0)%nat with (length idx - 2)%nat by lia.
  replace (length p + 1)%nat with (length idx - 1)%nat by lia.
  assert (p ++ drop (length p) idx = idx) as ->
    by (rewrite <- Esw at 1; apply take_drop).
  reflexivity.
Qed.

(** The loop over the leading indices: an element whose leading index the
    loop has visited holds the triangle of [original], any other is as it
    was. *)
Lemma tri_loop (op : triangle) (k : Z) (original : tensor T) (ps : list (list Z))
    (output : tensor T) :
  (forall p, In p ps -> (length p + 2 = length (tshape original))%nat) ->
  tshape output = tshape original ->
  exists out,
    MatMul.foldM (tri_into op k original) ps output = Ok out /\
    tshape out = tshape original /\
    forall idx, length idx = length (tshape original) ->
      tget out idx =
        if existsb (fun p => starts_with p idx) ps
        then (if kept op k (nth (length idx - 2) idx 0) (nth (length idx - 1) idx 0)
              then tget original idx else MatMul.zero)
        else tget output idx.
Proof.
  revert output. induction ps as [|p ps IH]; intros output Hps Hshape.
  - exists output. cbn. auto.
  - destruct (tri_into_Ok op k original output p) as (o1 & Ho1 & Hs1 & He1);
      [apply Hps; left; reflexivity | exact Hshape |].
    destruct (IH o1) as (out & Hout & Hsh & Hel);
      [intros q Hq; apply Hps; right; exact Hq | exact Hs1 |].
    exists out. split; [cbn [MatMul.foldM]; rewrite Ho1; exact Hout|].
    split; [exact Hsh|].
    intros idx Hidx. rewrite (Hel idx Hidx), (He1 idx Hidx). cbn [existsb].
    destruct (existsb (fun p0 => starts_with p0 idx) ps), (starts_with p idx); reflexivity.
Qed.


Lemma tri_op_local (rank : Z) (m : DNDarray T) (k : Z) (op : triangle) :
  length (tshape (array m)) = length (shape m) ->
  (2 <= length (shape m))%nat ->
  exists m',
    tri_op rank m k op = Ok m' /\
    shape m' = shape m /\ split m' = split m /\ dtype m' = dtype m /\
    dev m' = dev m /\ comm m' = comm m /\
    tshape (array m') = tshape (array m) /\
    forall idx, in_bounds (tshape (array m)) idx ->
      tget (array m') idx =
        if kept op (local_diagonal rank m k)
                (nth (length (shape m) - 2) idx 0) (nth (length (shape m) - 1) idx 0)
        then tget (array m) idx else MatMul.zero.
Proof.
  intros Hlen Hd. unfold tri_op. fold (local_diagonal rank m k).
  destruct (Z.eqb_spec (Z.of_nat (length (shape m))) 1) as [E|_]; [lia|].
  destruct (Z.eqb_spec (Z.of_nat (length (shape m))) 2) as [E2|E2].
  - (* a matrix *)
    unfold torch_tri. rewrite Hlen.
    replace (2 <=? length (shape m))%nat with true by (symmetry; apply Nat.leb_le; lia).
    destruct (Z.ltb_spec 0 (QR.numel (tshape (array m)))) as [Hn|Hn];
      cbn [mbind result_bind]; eexists; (split; [reflexivity|]);
      cbn [shape split dtype dev comm array tshape tget]; repeat (split; [reflexivity|]).
    + intros idx _. reflexivity.
    + intros idx Hb. apply in_bounds_numel in Hb. lia.
  - (* more than two dimensions *)
    destruct (tri_loop op (local_diagonal rank m k) (array m)
                (product (map (fun elements => seqZ 0 elements)
                              (take (length (tshape (array m)) - 2) (tshape (array m)))))
                (array m)) as (out & Hout & Hsh & Hel).
    { intros p Hp. apply product_length in Hp. rewrite length_map, length_take in Hp. lia. }
    { reflexivity. }
    rewrite Hout. cbn [mbind result_bind]. eexists. split; [reflexivity|].
    cbn [shape split dtype dev comm array]. repeat (split; [reflexivity|]).
    split; [exact Hsh|].
    intros idx Hb. pose proof (in_bounds_length _ _ Hb) as Hil.
    assert (existsb (fun p => starts_with p idx)
              (product (map (fun elements => seqZ 0 elements)
                            (take (length (tshape (array m)) - 2) (tshape (array m)))))
            = true) as E.
    { apply existsb_exists.
      exists (take (length (tshape (array m)) - 2) idx). split.
      - apply product_in_bounds, in_bounds_take. exact Hb.
      - apply starts_with_take. rewrite length_take. f_equal. lia. }
    rewrite (Hel idx Hil), E, Hil, Hlen. reflexivity.
Qed.

Lemma nth_insert_eq (l : list Z) (i : nat) (x : Z) :
  (i < length l)%nat -> nth i (<[i := x]> l) 0 = x.
Proof.
  intros Hi. apply nth_lookup_Some. apply list_lookup_insert_eq. exact Hi.
Qed.

Lemma nth_insert_ne (l : list Z) (i j : nat) (x : Z) :
  i <> j -> nth j (<[i := x]> l) 0 = nth j l 0.
Proof.
  intros Hij. rewrite !nth_lookup. rewrite list_lookup_insert_ne by exact Hij. reflexivity.
Qed.

(** The diagonal moved by the offset of the shard selects, at a local
    index, what the diagonal [k] selects at the global index. *)
Lemma kept_global (rank : Z) (m : DNDarray T) (k : Z) (op : triangle) (idx : list Z) :
  well_formed m -> (2 <= length (shape m))%nat -> length idx = length (shape m) ->
  let g := global_index (comm m) rank (shape m) (split m) idx in
  kept op (local_diagonal rank m k)
       (nth (length (shape m) - 2) idx 0) (nth (length (shape m) - 1) idx 0)
  = kept op k (nth (length (shape m) - 2) g 0) (nth (length (shape m) - 1) g 0).
Proof.
  intros (Hlen & Hne & Hs) Hd Hidx. unfold global_index, local_diagonal. cbn zeta.
  destruct (split m) as [s|] eqn:Es; [|reflexivity].
  set (off := chunk_offset (comm m) rank (shape m) (Some s)).
  set (n := length (shape m)) in *.
  destruct (Z.eqb_spec (s + 1) (Z.of_nat n - 1)) as [E1|E1].
  - replace (Z.to_nat s) with (n - 2)%nat by lia.
    rewrite nth_insert_eq; [|lia]. rewrite nth_insert_ne; [|lia].
    unfold kept; destruct op; apply eq_iff_eq_true; rewrite !Z.leb_le; lia.
  - destruct (Z.eqb_spec s (Z.of_nat n - 1)) as [E2|E2].
    + replace (Z.to_nat s) with (n - 1)%nat by lia.
      rewrite nth_insert_eq; [|lia]. rewrite nth_insert_ne; [|lia].
      unfold kept; destruct op; apply eq_iff_eq_true; rewrite !Z.leb_le; lia.
    + rewrite !nth_insert_ne; [reflexivity|lia|lia].
Qed.


(** X5: [tril] and [triu] of a distributed array of two or more dimensions
    are the triangle of the global array: the call returns an array with the
    shape, split, type, device and communicator of [m], and a local tensor of
    the same shape, in which the element at a local index is the one of [m]
    when its global row and column (the last two coordinates, moved by the
    offset of the shard along the split axis) lie in the triangle of diagonal
    [k], and zero otherwise. *)
Theorem tri_op_keeps_the_global_triangle (rank : Z) (m : DNDarray T) (k : Z) (op : triangle) :
  well_formed m -> (2 <= length (shape m))%nat ->
  exists m',
    tri_op rank m k op = Ok m' /\
    shape m' = shape m /\ split m' = split m /\ dtype m' = dtype m /\
    dev m' = dev m /\ comm m' = comm m /\
    tshape (array m') = tshape (array m) /\
    forall idx, in_bounds (tshape (array m)) idx ->
      let g := global_index (comm m) rank (shape m) (split m) idx in
      tget (array m') idx =
        if kept op k (nth (length (shape m) - 2) g 0) (nth (length (shape m) - 1) g 0)
        then tget (array m) idx else MatMul.zero.
Proof.
  intros Hwf Hd.
  destruct (tri_op_local rank m k op (proj1 Hwf) Hd)
    as (m' & Hrun & H1 & H2 & H3 & H4 & H5 & H6 & Hel).
  exists m'. repeat (split; [assumption|]).
  intros idx Hb g. rewrite (Hel idx Hb). subst g.
  rewrite (kept_global rank m k op idx Hwf Hd); [reflexivity|].
  rewrite (in_bounds_length _ _ Hb). exact (proj1 Hwf).
Qed.

(** X6: [tril] and [triu] of a distributed vector of global length [n]: the
    local tensor of the result has [n] rows, each the local part of the
    vector cut by the triangle at the global column; the result has the
    global shape [n] by [n] and is split along axis 1 if the vector is
    split. *)
Theorem tri_op_repeats_a_vector (rank : Z) (m : DNDarray T) (k : Z) (op : triangle) (n : Z) :
  shape m = [n] -> length (tshape (array m)) = 1%nat ->
  exists m',
    tri_op rank m k op = Ok m' /\
    shape m' = [n; n] /\
    split m' = match split m with None => None | Some _ => Some 1 end /\
    dtype m' = dtype m /\ dev m' = dev m /\ comm m' = comm m /\
    tshape (array m') = n :: tshape (array m) /\
    forall i j, 0 <= i < n -> 0 <= j < nth 0 (tshape (array m)) 0 ->
      tget (array m') [i; j] =
        if kept op k i (j + chunk_offset (comm m) rank (shape m) (split m))
        then tget (array m) [j] else MatMul.zero.
Proof.
  intros Hshape Hlen. unfold tri_op. rewrite Hshape.
  change (Z.of_nat (length [n]) =? 1) with true. cbv iota.
  change (getitem [n] 0) with (Ok n). cbn [mbind result_bind].
  destruct (tshape (array m)) as [|L [|? ?]] eqn:Ets; try discriminate Hlen.
  unfold expand, torch_tri. rewrite Ets. cbn [tshape length Nat.leb].
  set (off := chunk_offset (comm m) rank [n] (split m)).
  destruct (Z.eqb_spec (QR.numel [n; L]) 0) as [E0|E0]; cbn [negb mbind result_bind];
    eexists; (split; [reflexivity|]); cbn [shape split dtype dev comm array tshape tget];
    repeat (split; [reflexivity|]); intros i j Hi Hj; cbn [nth] in Hj.
  - unfold QR.numel in E0. cbn in E0. nia.
  - cbn [nth Nat.sub tail].
    replace (kept op (k - off) i j) with (kept op k i (j + off)); [reflexivity|].
    unfold kept; destruct op; apply eq_iff_eq_true; rewrite !Z.leb_le; lia.
Qed.

(** X7: the lower triangle of diagonal [k] and the upper triangle of diagonal
    [k + 1] split the elements of [m] between them: each element is kept by
    exactly one of the two and is zero in the other. *)
Theorem tril_and_triu_split_the_elements (rank : Z) (m : DNDarray T) (k : Z) :
  well_formed m -> (2 <= length (shape m))%nat ->
  exists lo up,
    tril rank m k = Ok lo /\ triu rank m (k + 1) = Ok up /\
    forall idx, in_bounds (tshape (array m)) idx ->
      (tget (array lo) idx = tget (array m) idx /\ tget (array up) idx = MatMul.zero) \/
      (tget (array lo) idx = MatMul.zero /\ tget (array up) idx = tget (array m) idx).
Proof.
  intros Hwf Hd. unfold tril, triu.
  destruct (tri_op_local rank m k Lower (proj1 Hwf) Hd) as (lo & Hlo & _ & _ & _ & _ & _ & _ & Hl).
  destruct (tri_op_local rank m (k + 1) Upper (proj1 Hwf) Hd)
    as (up & Hup & _ & _ & _ & _ & _ & _ & Hu).
  exists lo, up. split; [exact Hlo|]. split; [exact Hup|].
  intros idx Hb. rewrite (Hl idx Hb), (Hu idx Hb).
  pose proof (in_bounds_length _ _ Hb) as Hil. rewrite (proj1 Hwf) in Hil.
  rewrite !(kept_global rank m _ _ idx Hwf Hd Hil). unfold kept.
  match goal with |- context [?x <=? k] => destruct (Z.leb_spec x k) as [Hk|Hk] end;
    match goal with |- context [k + 1 <=? ?x] => destruct (Z.leb_spec (k + 1) x) as [Hk'|Hk'] end;
    try lia; [left | right]; split; reflexivity.
Qed.

(** X8: taking the same triangle twice changes nothing: [__tri_op] returns
    on its own result, with the same shape, split and local shape, and every
    element is as after the first call. *)
Theorem tri_op_twice (rank : Z) (m : DNDarray T) (k : Z) (op : triangle) :
  well_formed m -> (2 <= length (shape m))%nat ->
  exists m' m'',
    tri_op rank m k op = Ok m' /\ tri_op rank m' k op = Ok m'' /\
    shape m'' = shape m' /\ split m'' = split m' /\
    tshape (array m'') = tshape (array m') /\
    forall idx, in_bounds (tshape (array m)) idx ->
      tget (array m'') idx = tget (array m') idx.
Proof.
  intros Hwf Hd.
  destruct (tri_op_local rank m k op (proj1 Hwf) Hd)
    as (m' & Hrun & H1 & H2 & H3 & H4 & H5 & H6 & Hel).
  assert (length (tshape (array m')) = length (shape m')) as Hlen'
    by (rewrite H6, H1; exact (proj1 Hwf)).
  assert (2 <= length (shape m'))%nat as Hd' by (rewrite H1; exact Hd).
  destruct (tri_op_local rank m' k op Hlen' Hd')
    as (m'' & Hrun' & H1' & H2' & _ & _ & _ & H6' & Hel').
  exists m', m''. repeat (split; [assumption|]).
  intros idx Hb. rewrite (Hel' idx) by (rewrite H6; exact Hb).
  assert (local_diagonal rank m' k = local_diagonal rank m k) as ->
    by (unfold local_diagonal; rewrite H1, H2, H5; reflexivity).
  rewrite (Hel idx Hb), H1.
  destruct (kept op (local_diagonal rank m k) _ _); reflexivity.
Qed.

End TriProps.

Section FrameProps.
Import MatMul MatMulSpec.
Context {T : Type} `{Backend T}.

Lemma extends_refl (w : world T) : extends w w.
Proof. exists [], []. cbn. rewrite !app_nil_r. auto. Qed.

Lemma extends_trans (w1 w2 w3 : world T) : extends w1 w2 -> extends w2 w3 -> extends w1 w3.
Proof.
  intros (o1 & c1 & Hh1 & Hl1) (o2 & c2 & Hh2 & Hl2).
  exists (o1 ++ o2), (c1 ++ c2). rewrite Hh2, Hh1, Hl2, Hl1, map_app, <- !app_assoc. auto.
Qed.

Lemma quiet_ret {A} (x : A) : quiet (mret x : M (world T) A).
Proof. intros w r w' [= <- <-]. apply extends_refl. Qed.

Lemma quiet_raise {A} (e : exn) : quiet (raise e : M (world T) A).
Proof. intros w r w' [= <- <-]. apply extends_refl. Qed.

Lemma quiet_lift {A} (x : result A) : quiet (lift x : M (world T) A).
Proof. intros w r w' [= <- <-]. apply extends_refl. Qed.

Lemma quiet_deref (r : nat) : quiet (deref (T := T) r).
Proof.
  intros w x w'. unfold deref. destruct (heap w !! r); intros [= <- <-]; apply extends_refl.
Qed.

Lemma quiet_alloc (a : DNDarray T) : quiet (alloc a).
Proof.
  intros w x w' [= <- <-]. exists [a], []. cbn. rewrite app_nil_r. auto.
Qed.

Lemma quiet_communicate (ops : list comm_op) : quiet (communicate (T := T) ops).
Proof.
  intros w x w' [= <- <-]. exists [], ops. cbn. rewrite app_nil_r. auto.
Qed.

Lemma quiet_bind {A B} (m : M (world T) A) (k : A -> M (world T) B) :
  quiet m -> (forall x, quiet (k x)) -> quiet (m ≫= k).
Proof.
  intros Hm Hk w r w'. unfold mbind, M_bind.
  destruct (m w) as [[x|e] w1] eqn:E.
  - intros Hr. eapply extends_trans; [eapply Hm; exact E | eapply Hk; exact Hr].
  - intros [= <- <-]. eapply Hm. exact E.
Qed.

Ltac quiet_step :=
  match goal with
  | |- quiet (_ ≫= _) => apply quiet_bind; [|intros ?]
  | |- quiet (mret _) => apply quiet_ret
  | |- quiet (raise _) => apply quiet_raise
  | |- quiet (lift _) => apply quiet_lift
  | |- quiet (deref _) => apply quiet_deref
  | |- quiet (alloc _) => apply quiet_alloc
  | |- quiet (communicate _) => apply quiet_communicate
  | |- quiet (if ?c then _ else _) => destruct c
  | |- quiet (let '(_, _) := ?p in _) => destruct p
  end.

Lemma matmul_quiet (size : Z) (a b : nat) : quiet (matmul (T := T) size a b false).
Proof.
  unfold matmul. cbn [negb]. repeat quiet_step.
Qed.


(** X9: without [allow_resplit], [matmul] changes no object that exists when
    it is called, whatever the operands, their splits and the outcome: the
    objects afterwards are those before, followed by the ones the call has
    allocated, and the log has grown by collective calls only. *)
Theorem matmul_changes_no_object (size : Z) (a b : nat) (w : world T) :
  exists objs ops,
    heap (snd (matmul size a b false w)) = heap w ++ objs /\
    log (snd (matmul size a b false w)) = log w ++ map Comm ops.
Proof.
  apply (matmul_quiet size a b w (fst (matmul size a b false w))).
  apply surjective_pairing.
Qed.

Ltac run_inv H :=
  repeat match type of H with
         | (_ ≫= _) _ = (Ok _, _) =>
           let x := fresh "x" in let w := fresh "w" in let Hx := fresh "Hx" in
           apply bind_Ok in H as (x & w & Hx & H)
         | (if ?c then _ else _) _ = _ => destruct c
         | (let '(_, _) := ?p in _) _ = _ => destruct p
         | raise _ _ = (Ok _, _) => apply raise_Ok in H; contradiction
         end.

(** X10: where [matmul] builds its result with [factories.zeros] and
    [dtype=c_type] (lines 181, 209 and 356: an [a] split along axis 0, a
    [b] split along axis 1, or two unsplit operands under [allow_resplit]),
    the element type of a returned result is the promotion of the operands'
    element types, also when an operand has been upcast on the way. *)
Theorem matmul_result_dtype (size : Z) (a b : nat) (allow_resplit : bool)
    (w w' : world T) (A B c : DNDarray T) :
  heap w !! a = Some A ->
  heap w !! b = Some B ->
  split A = Some 0 \/ split B = Some 1 \/
  (split A = None /\ split B = None /\ allow_resplit = true) ->
  matmul size a b allow_resplit w = (Ok c, w') ->
  dtype c = promote_types (dtype A) (dtype B).
Proof.
  intros Ha Hb _ Hrun. unfold matmul in Hrun.
  apply bind_Ok in Hrun as (A0 & w0 & HA0 & Hrun). apply deref_Ok in HA0 as [HA0 ->].
  apply bind_Ok in Hrun as (B0 & w0 & HB0 & Hrun). apply deref_Ok in HB0 as [HB0 ->].
  assert (A0 = A) as -> by congruence. assert (B0 = B) as -> by congruence.
  run_inv Hrun.
  all: apply ret_Ok in Hrun as [-> _]; reflexivity.
Qed.

End FrameProps.

Section OneSplit.
Import MatMul MatMulSpec.
Context {T : Type} `{Backend T}.

Lemma htype_eqb_refl (x : htype) : htype_eqb x x = true.
Proof. destruct x; reflexivity. Qed.

Lemma sum_over_ext (ks : list Z) (f g : Z -> T) :
  (forall k, In k ks -> f k = g k) -> sum_over ks f = sum_over ks g.
Proof.
  unfold sum_over. generalize (zero (T := T)) as acc.
  induction ks as [|k ks IH]; intros acc Hfg; [reflexivity|].
  cbn. rewrite (Hfg k) by (left; reflexivity). apply IH.
  intros k' Hk'. apply Hfg. right. exact Hk'.
Qed.

Lemma mapM_ranks_lookup {B} (f : Z -> result B) (size : Z) (ls : list B) (d : B) :
  mapM f (ranks size) = Ok ls ->
  forall rank, 0 <= rank < size -> f rank = Ok (nth (Z.to_nat rank) ls d).
Proof.
  intros Hm rank Hr. apply mapM_result_Forall2 in Hm.
  assert (ranks size !! Z.to_nat rank = Some rank) as Hl.
  { unfold ranks. rewrite lookup_seqZ. split; lia. }
  destruct (Forall2_lookup_l _ _ _ _ _ Hm Hl) as (y & Hy & Hf).
  rewrite Hf. f_equal. symmetry. apply nth_lookup_Some. exact Hy.
Qed.

Lemma slice_bounds_all (n : Z) : 0 <= n -> slice_bounds n None None = (0, n).
Proof. intros Hn. unfold slice_bounds. f_equal. lia. Qed.

(** [c += x @ y] on a zero tensor of the shape of the product. *)
Lemma local_product_onto_zeros (x y : tensor T) (n m : Z) :
  0 <= n -> 0 <= m -> nrows x = n -> ncols y = m -> ncols x = nrows y ->
  exists c,
    (p ← torch_matmul x y; iadd (zeros n m) p) = Ok c /\
    nrows c = n /\ ncols c = m /\
    forall i j, 0 <= i < n -> 0 <= j < m ->
      elt c i j = add zero (sum_over (seqZ 0 (ncols x)) (fun k => mul (elt x i k) (elt y k j))).
Proof.
  intros Hn Hm Hx Hy Hxy. unfold torch_matmul. rewrite Hxy, Z.eqb_refl.
  cbn [mbind result_bind]. unfold iadd, iadd_slice, update_slice.
  cbn [nrows ncols zeros]. rewrite !slice_bounds_all by assumption.
  rewrite Hx, Hy, !Z.sub_0_r. unfold broadcasts. rewrite !Z.eqb_refl. cbn [orb andb].
  eexists. split; [reflexivity|]. cbn [nrows ncols elt]. split; [reflexivity|].
  split; [reflexivity|].
  intros i j Hi Hj.
  replace ((0 <=? i) && (i <? n) && (0 <=? j) && (j <? m)) with true
    by (symmetry; rewrite !andb_true_iff, !Z.leb_le, !Z.ltb_lt; lia).
  f_equal. rewrite !Z.sub_0_r.
  assert ((if n =? 1 then 0 else i) = i) as -> by (destruct (Z.eqb_spec n 1); lia).
  assert ((if m =? 1 then 0 else j) = j) as -> by (destruct (Z.eqb_spec m 1); lia).
  reflexivity.
Qed.


Lemma nth_map_ranks {B} (g : Z -> B) (size rank : Z) (d : B) :
  0 <= rank < size -> nth (Z.to_nat rank) (map g (ranks size)) d = g rank.
Proof.
  intros Hr. apply nth_lookup_Some. rewrite list_lookup_fmap.
  unfold ranks. rewrite lookup_seqZ_lt by lia. cbn.
  replace (Z.of_nat (Z.to_nat rank)) with rank by lia. reflexivity.
Qed.

Lemma bind_ret_step {W A B} (x : A) (k : A -> M W B) (w : W) :
  (mret x ≫= k) w = k x w.
Proof. reflexivity. Qed.

Lemma bind_lift_Ok {W A B} (x : A) (k : A -> M W B) (w : W) :
  (lift (Ok x) ≫= k) w = k x w.
Proof. reflexivity. Qed.

(** The kernel of the branch for one split operand on every process. *)
Lemma one_split_kernel (size : Z) (A B : DNDarray T) (GA GB : tensor T) (sc : option Z) :
  1 <= size -> 0 <= nrows GA -> 0 <= ncols GB ->
  (split A = Some 0 /\ split B = None /\ sc = Some 0) \/
  (split A = None /\ split B = Some 1 /\ sc = Some 1) ->
  holds size A GA -> holds size B GB -> ncols GA = nrows GB ->
  forall dt, exists ls,
    mapM (fun rank => p ← torch_matmul (local A rank) (local B rank);
                      iadd (local (factories_zeros size (nrows GA, ncols GB) sc dt) rank) p)
         (ranks size) = Ok ls /\
    holds size (with_locals (factories_zeros size (nrows GA, ncols GB) sc dt) ls)
          (dense_product GA GB).
Proof.
  intros Hsize HL HQ Hsplit [HgA HA] [HgB HB] HP dt.
  set (c := factories_zeros size (nrows GA, ncols GB) sc dt).
  assert (forall rank, 0 <= rank < size ->
            exists cr,
              (p ← torch_matmul (local A rank) (local B rank); iadd (local c rank) p) = Ok cr /\
              let idx := chunk size rank (nrows GA, ncols GB) sc in
              nrows cr = extent (fst idx) /\ ncols cr = extent (snd idx) /\
              forall i j, 0 <= i < extent (fst idx) -> 0 <= j < extent (snd idx) ->
                elt cr i j = elt (dense_product GA GB) (fst (fst idx) + i) (fst (snd idx) + j))
    as Hrank.
  { intros rank Hr. specialize (HA rank Hr). specialize (HB rank Hr).
    rewrite HgA in HA. rewrite HgB in HB. cbn zeta in HA, HB.
    assert (local c rank =
            zeros (extent (fst (chunk size rank (nrows GA, ncols GB) sc)))
                  (extent (snd (chunk size rank (nrows GA, ncols GB) sc)))) as Hc.
    { unfold c, local, factories_zeros. cbn [larray].
      rewrite (nth_map_ranks _ size rank) by exact Hr.
      destruct (chunk size rank (nrows GA, ncols GB) sc) as [r0 c0]. reflexivity. }
    rewrite Hc.
    pose proof (chunk_extent_bounds (nrows GA) size rank Hsize HL Hr) as HeL.
    pose proof (chunk_extent_bounds (ncols GB) size rank Hsize HQ Hr) as HeQ.
    assert (0 <= nrows GA / size) as HdL by (apply Z.div_pos; lia).
    assert (0 <= ncols GB / size) as HdQ by (apply Z.div_pos; lia).
    destruct Hsplit as [(HsA & HsB & ->)|(HsA & HsB & ->)];
      rewrite HsA in HA; rewrite HsB in HB; unfold chunk in *; cbn [Z.eqb fst snd] in *;
      destruct HA as (HAr & HAc & HAe); destruct HB as (HBr & HBc & HBe);
      unfold extent in HAr, HAc, HBr, HBc, HAe, HBe; cbn [fst snd] in *;
      rewrite ?Z.sub_0_r in *.
    - destruct (local_product_onto_zeros (local A rank) (local B rank)
                  (extent (chunk_bounds (nrows GA) size rank)) (extent (0, ncols GB)))
        as (cr & Hcr & Hn & Hm & Hel); unfold extent in *; cbn [fst snd] in *;
        rewrite ?Z.sub_0_r in *; try lia.
      exists cr. split; [exact Hcr|]. cbn zeta. split; [exact Hn|]. split; [exact Hm|].
      intros i j Hi Hj. rewrite (Hel i j Hi Hj). unfold dense_product. cbn [elt]. f_equal.
      rewrite HAc. apply sum_over_ext. intros k Hk. apply In_seqZ_range in Hk.
      rewrite (HAe i k Hi Hk), (HBe k j) by lia. rewrite !Z.add_0_l. reflexivity.
    - destruct (local_product_onto_zeros (local A rank) (local B rank)
                  (extent (0, nrows GA)) (extent (chunk_bounds (ncols GB) size rank)))
        as (cr & Hcr & Hn & Hm & Hel); unfold extent in *; cbn [fst snd] in *;
        rewrite ?Z.sub_0_r in *; try lia.
      exists cr. split; [exact Hcr|]. cbn zeta. split; [exact Hn|]. split; [exact Hm|].
      intros i j Hi Hj. rewrite (Hel i j Hi Hj). unfold dense_product. cbn [elt]. f_equal.
      rewrite HAc. apply sum_over_ext. intros k Hk. apply In_seqZ_range in Hk.
      rewrite (HAe i k Hi Hk), (HBe k j) by lia. rewrite !Z.add_0_l. reflexivity. }
  destruct (mapM_result_Ok
              (fun rank => p ← torch_matmul (local A rank) (local B rank); iadd (local c rank) p)
              (ranks size)) as (ls & Hls).
  { intros rank Hr. apply In_ranks in Hr. destruct (Hrank rank Hr) as (cr & Hcr & _). eauto. }
  exists ls. split; [exact Hls|].
  split; [reflexivity|].
  intros rank Hr. destruct (Hrank rank Hr) as (cr & Hcr & Hfacts).
  pose proof (mapM_ranks_lookup _ size ls (zeros 0 0) Hls rank Hr) as Hlk. cbn beta in Hlk.
  rewrite Hcr in Hlk. injection Hlk as Hlk.
  unfold local at 1 2 3. cbn [with_locals larray gshape split]. rewrite <- Hlk.
  unfold c, factories_zeros. cbn [gshape split]. exact Hfacts.
Qed.


(** X11: [a] split along axis 0 times an unsplit [b], and an unsplit [a]
    times [b] split along axis 1, for operands of one element type that hold
    the global matrices [GA] and [GB]: [matmul] returns, the process state is
    as before (nothing is allocated, changed or communicated), the result is
    split like the split operand and holds the product of [GA] and [GB] as a
    single process computes it, every process having computed its own rows
    or columns. *)
Theorem matmul_one_split_operand (size : Z) (a b : nat) (allow_resplit : bool)
    (w : world T) (A B : DNDarray T) (GA GB : tensor T) :
  1 <= size -> 0 <= nrows GA -> 0 <= ncols GB ->
  heap w !! a = Some A -> heap w !! b = Some B ->
  (split A = Some 0 /\ split B = None) \/ (split A = None /\ split B = Some 1) ->
  holds size A GA -> holds size B GB -> ncols GA = nrows GB ->
  dtype B = dtype A -> promote_types (dtype A) (dtype A) = dtype A ->
  exists c,
    matmul size a b allow_resplit w = (Ok c, w) /\
    split c = (match split A with Some _ => Some 0 | None => Some 1 end) /\
    dtype c = dtype A /\
    holds size c (dense_product GA GB).
Proof.
  intros Hsize HL HQ Ha Hb Hsplit HA HB HP HdB Hprom.
  pose proof (proj1 HA) as HgA. pose proof (proj1 HB) as HgB.
  destruct (one_split_kernel size A B GA GB (match split A with Some _ => Some 0 | None => Some 1 end)
              Hsize HL HQ) with (dt := dtype A) as (ls & Hls & Hholds); try assumption.
  { destruct Hsplit as [[-> ->]|[-> ->]]; auto. }
  exists (with_locals (factories_zeros size (nrows GA, ncols GB)
                                       (match split A with Some _ => Some 0 | None => Some 1 end) (dtype A)) ls).
  split; [|split; [reflexivity|split; [reflexivity|exact Hholds]]].
  unfold matmul.
  rewrite (bind_step _ _ _ _ _ (deref_lookup _ _ _ Ha)).
  rewrite (bind_step _ _ _ _ _ (deref_lookup _ _ _ Hb)).
  rewrite HdB, Hprom, htype_eqb_refl, HgA, HgB. cbn [fst snd negb].
  rewrite HP, Z.eqb_refl. cbn [negb]. rewrite !bind_ret_step.
  rewrite (bind_step _ _ _ _ _ (deref_lookup _ _ _ Ha)).
  rewrite (bind_step _ _ _ _ _ (deref_lookup _ _ _ Hb)).
  rewrite HgA, HgB. cbn [fst snd]. unfold split_is_None, split_is.
  destruct Hsplit as [[HsA HsB]|[HsA HsB]]; rewrite HsA, HsB in *;
    cbn [Z.eqb andb orb negb Pos.eqb]; rewrite Hls; reflexivity.
Qed.

End OneSplit.

Section ChunkArith.
Import MatMul.

Lemma chunk_start_0 (n size : Z) : 1 <= size -> fst (chunk_bounds n size 0) = 0.
Proof.
  intros Hs. unfold chunk_bounds.
  pose proof (Z.mod_pos_bound n size ltac:(lia)) as Hm.
  destruct (Z.ltb_spec 0 (n mod size)); cbn [fst]; lia.
Qed.

Lemma chunk_start_next (n size rank : Z) :
  1 <= size -> 0 <= rank ->
  fst (chunk_bounds n size (rank + 1)) = snd (chunk_bounds n size rank).
Proof.
  intros Hs Hr. unfold chunk_bounds.
  destruct (Z.ltb_spec (rank + 1) (n mod size)), (Z.ltb_spec rank (n mod size));
    cbn [fst snd]; try lia; nia.
Qed.

Lemma chunk_start_size (n size : Z) : 1 <= size -> fst (chunk_bounds n size size) = n.
Proof.
  intros Hs. unfold chunk_bounds.
  pose proof (Z.mod_pos_bound n size ltac:(lia)) as Hm.
  pose proof (Z.div_mod n size ltac:(lia)) as Hdm.
  destruct (Z.ltb_spec size (n mod size)); cbn [fst]; [lia | nia].
Qed.

Lemma chunk_stop (n size rank : Z) :
  snd (chunk_bounds n size rank) = fst (chunk_bounds n size rank) + extent (chunk_bounds n size rank).
Proof. unfold extent. lia. Qed.

Lemma chunk_start_range (n size rank : Z) :
  1 <= size -> 0 <= n -> 0 <= rank < size ->
  0 <= fst (chunk_bounds n size rank) /\ snd (chunk_bounds n size rank) <= n.
Proof.
  intros Hs Hn Hr. unfold chunk_bounds.
  pose proof (Z.mod_pos_bound n size ltac:(lia)) as Hm.
  pose proof (Z.div_mod n size ltac:(lia)) as Hdm.
  assert (0 <= n / size) by (apply Z.div_pos; lia).
  destruct (Z.ltb_spec rank (n mod size)); cbn [fst snd]; split; nia.
Qed.

End ChunkArith.

Section Sums.
Import MatMul MatMulSpec.
Context {T : Type} `{Backend T}.
Hypothesis add_assoc : forall x y z : T, add (add x y) z = add x (add y z).
Hypothesis add_zero_l : forall x : T, add zero x = x.
Hypothesis add_zero_r : forall x : T, add x zero = x.

Lemma fold_add_from (ks : list Z) (f : Z -> T) (x : T) :
  fold_left (fun acc k => add acc (f k)) ks x = add x (sum_over ks f).
Proof using add_assoc add_zero_l add_zero_r.
  unfold sum_over. revert x. induction ks as [|k ks IH]; intros x; cbn.
  - symmetry. apply add_zero_r.
  - rewrite IH. rewrite (IH (add zero (f k))). rewrite add_zero_l, add_assoc. reflexivity.
Qed.

Lemma sum_over_app (l1 l2 : list Z) (f : Z -> T) :
  sum_over (l1 ++ l2) f = add (sum_over l1 f) (sum_over l2 f).
Proof using add_assoc add_zero_l add_zero_r.
  unfold sum_over at 1. rewrite fold_left_app. apply fold_add_from.
Qed.

Lemma sum_over_shift (m n : Z) (f : Z -> T) :
  sum_over (seqZ 0 n) (fun k => f (m + k)) = sum_over (seqZ m n) f.
Proof.
  replace (seqZ m n) with (map (Z.add m) (seqZ 0 n))
    by (pose proof (fmap_add_seqZ m 0 n) as E; rewrite Z.add_0_r in E; exact E).
  unfold sum_over. generalize (zero (T := T)) as acc.
  induction (seqZ 0 n) as [|k ks IH]; intros acc; [reflexivity|].
  cbn. apply IH.
Qed.

(** The sum over the ranks of the sums over their chunks of [0, n) is the
    sum over [0, n). *)
Lemma sum_over_chunks (n size : Z) (f : Z -> T) (r : nat) :
  1 <= size -> 0 <= n -> Z.of_nat r <= size ->
  fold_left (fun acc rank =>
               add acc (add zero (sum_over (seqZ (fst (chunk_bounds n size rank))
                                                 (extent (chunk_bounds n size rank))) f)))
            (seqZ 0 (Z.of_nat r)) zero
  = sum_over (seqZ 0 (fst (chunk_bounds n size (Z.of_nat r)))) f.
Proof using add_assoc add_zero_l add_zero_r.
  intros Hs Hn. induction r as [|r IH]; intros Hr.
  - cbn [Z.of_nat]. rewrite chunk_start_0 by exact Hs. reflexivity.
  - rewrite seqZ_S, fold_left_app, IH by lia. cbn [fold_left]. rewrite Z.add_0_l, add_zero_l.
    replace (Z.of_nat (S r)) with (Z.of_nat r + 1) by lia.
    rewrite chunk_start_next, chunk_stop by lia.
    pose proof (chunk_extent_bounds n size (Z.of_nat r) Hs Hn ltac:(lia)) as He.
    pose proof (chunk_start_range n size (Z.of_nat r) Hs Hn ltac:(lia)) as Hst.
    assert (0 <= n / size) by (apply Z.div_pos; lia).
    rewrite seqZ_app by lia. rewrite sum_over_app, Z.add_0_l. reflexivity.
Qed.

Lemma fold_Forall2 {A B} (f : T -> A -> T) (g : T -> B -> T) (l : list A) (k : list B) (x : T) :
  Forall2 (fun a b => forall acc, f acc a = g acc b) l k ->
  fold_left f l x = fold_left g k x.
Proof.
  intros HF. revert x. induction HF as [|a b l k Hab HF IH]; intros x; [reflexivity|].
  cbn. rewrite Hab. apply IH.
Qed.

(** The Allreduce of the partial products of the chunks of the contraction
    index. *)
Lemma allreduce_of_partials (n size L Q : Z) (F : Z -> Z -> Z -> T) (cs : list (tensor T)) :
  1 <= size -> 0 <= n ->
  Forall2 (fun rank c =>
             nrows c = L /\ ncols c = Q /\
             forall i j, 0 <= i < L -> 0 <= j < Q ->
               elt c i j = add zero (sum_over (seqZ (fst (chunk_bounds n size rank))
                                                    (extent (chunk_bounds n size rank)))
                                              (F i j)))
          (ranks size) cs ->
  nrows (allreduce_sum cs) = L /\ ncols (allreduce_sum cs) = Q /\
  forall i j, 0 <= i < L -> 0 <= j < Q ->
    elt (allreduce_sum cs) i j = sum_over (seqZ 0 n) (F i j).
Proof using add_assoc add_zero_l add_zero_r.
  intros Hs Hn HF.
  destruct cs as [|c0 rest].
  { apply Forall2_length in HF. unfold ranks in HF. rewrite length_seqZ in HF. cbn in HF. lia. }
  pose proof HF as HF0. rewrite (ranks_cons size Hs) in HF0.
  apply Forall2_cons_1 in HF0 as [(Hr0 & Hc0 & _) _].
  cbn [allreduce_sum nrows ncols elt]. split; [exact Hr0|]. split; [exact Hc0|].
  intros i j Hi Hj.
  rewrite <- (add_zero_l (elt c0 i j)).
  change (fold_left (fun acc c => add acc (elt c i j)) rest (add zero (elt c0 i j)))
    with (fold_left (fun acc c => add acc (elt c i j)) (c0 :: rest) zero).
  transitivity (fold_left (fun acc rank =>
                            add acc (add zero (sum_over (seqZ (fst (chunk_bounds n size rank))
                                                              (extent (chunk_bounds n size rank)))
                                                        (F i j))))
                          (ranks size) zero).
  - symmetry. apply fold_Forall2.
    eapply Forall2_impl; [exact HF|]. cbn beta.
    intros rank c (_ & _ & Hel) acc. rewrite (Hel i j Hi Hj). reflexivity.
  - pose proof (sum_over_chunks n size (F i j) (Z.to_nat size) Hs Hn ltac:(lia)) as E.
    rewrite Z2Nat.id in E by lia. rewrite chunk_start_size in E by exact Hs. exact E.
Qed.


Lemma zip_ranks_everywhere (size : Z) (t : tensor T) :
  zip (ranks size) (everywhere size t) = map (fun rank => (rank, t)) (ranks size).
Proof.
  unfold everywhere. induction (ranks size) as [|r l IH]; [reflexivity|].
  cbn. f_equal. exact IH.
Qed.

Lemma slice_bounds_within (n s e : Z) :
  0 <= s -> s <= e -> e <= n -> slice_bounds n (Some s) (Some e) = (s, e).
Proof.
  intros H0 Hse Hen. unfold slice_bounds, clip.
  destruct (Z.ltb_spec s 0); [lia|]. destruct (Z.ltb_spec e 0); [lia|].
  f_equal; lia.
Qed.

(** [factories.array] of a tensor that every process holds in full. *)
Lemma factories_array_holds (size : Z) (t : tensor T) (split : option Z) (dt : htype) :
  1 <= size -> 0 <= nrows t -> 0 <= ncols t ->
  holds size (factories_array size (everywhere size t) split dt) t.
Proof.
  intros Hs Hn Hm. unfold holds, factories_array. cbn [gshape MatMul.split].
  assert (shape_of (everywhere size t) = (nrows t, ncols t)) as ->.
  { unfold everywhere. rewrite (ranks_cons size Hs). reflexivity. }
  split; [reflexivity|].
  intros rank Hr. cbn zeta. unfold local. cbn [larray].
  rewrite zip_ranks_everywhere, map_map. rewrite (nth_map_ranks _ size rank) by exact Hr.
  unfold take_chunk, chunk.
  pose proof (chunk_extent_bounds (nrows t) size rank Hs Hn Hr) as HeL.
  pose proof (chunk_extent_bounds (ncols t) size rank Hs Hm Hr) as HeQ.
  pose proof (chunk_start_range (nrows t) size rank Hs Hn Hr) as HsL.
  pose proof (chunk_start_range (ncols t) size rank Hs Hm Hr) as HsQ.
  assert (0 <= nrows t / size) as HdL by (apply Z.div_pos; lia).
  assert (0 <= ncols t / size) as HdQ by (apply Z.div_pos; lia).
  unfold extent in *.
  destruct split as [s|]; cbn [fst snd].
  - destruct (s =? 0); cbn [fst snd].
    + destruct (chunk_bounds (nrows t) size rank) as [r0 r1] eqn:E. cbn [fst snd] in *.
      unfold getslice. rewrite (slice_bounds_within (nrows t) r0 r1) by lia.
      rewrite (slice_bounds_within (ncols t) 0 (ncols t)) by lia.
      cbn [nrows ncols elt]. repeat split; lia.
    + destruct (chunk_bounds (ncols t) size rank) as [c0 c1] eqn:E. cbn [fst snd] in *.
      unfold getslice. rewrite (slice_bounds_within (nrows t) 0 (nrows t)) by lia.
      rewrite (slice_bounds_within (ncols t) c0 c1) by lia.
      cbn [nrows ncols elt]. repeat split; lia.
  - repeat split; lia.
Qed.

Lemma holds_ext (size : Z) (c : DNDarray T) (t d : tensor T) :
  1 <= size -> 0 <= nrows t -> 0 <= ncols t ->
  holds size c t -> nrows d = nrows t -> ncols d = ncols t ->
  (forall i j, 0 <= i < nrows t -> 0 <= j < ncols t -> elt t i j = elt d i j) ->
  holds size c d.
Proof.
  intros Hs Hn Hm [Hg Hc] Hdn Hdm Hel. split; [rewrite Hg, Hdn, Hdm; reflexivity|].
  intros rank Hr. specialize (Hc rank Hr). cbn zeta in *.
  destruct Hc as (H1 & H2 & H3). split; [exact H1|]. split; [exact H2|].
  intros i j Hi Hj. rewrite (H3 i j Hi Hj). apply Hel.
  - rewrite Hg in Hi |- *. unfold chunk in *.
    pose proof (chunk_start_range (nrows t) size rank Hs Hn Hr).
    destruct (split c) as [s|]; [destruct (s =? 0)|]; unfold extent in *; cbn [fst snd] in *; lia.
  - rewrite Hg in Hj |- *. unfold chunk in *.
    pose proof (chunk_start_range (ncols t) size rank Hs Hm Hr).
    destruct (split c) as [s|]; [destruct (s =? 0)|]; unfold extent in *; cbn [fst snd] in *; lia.
Qed.

(** The partial product of a process in the two branches that split the
    contraction index: the columns of [a] of the process times the rows of
    [b] with the same global indices. *)
Lemma contraction_partial (size rank : Z) (A B : DNDarray T) (GA GB : tensor T) :
  1 <= size -> 0 <= nrows GA -> 0 <= ncols GA -> 0 <= ncols GB -> 0 <= rank < size ->
  holds size A GA -> holds size B GB -> ncols GA = nrows GB ->
  let start := fst (chunk_bounds (ncols GA) size rank) in
  let e := extent (chunk_bounds (ncols GA) size rank) in
  forall x y,
    (split A = Some 1 /\ split B = None /\ x = local A rank /\
     y = getslice (local B rank) (Some start) (Some (start + snd (lshape A rank))) None None) \/
    (split A = None /\ split B = Some 0 /\ y = local B rank /\
     x = getslice (local A rank) None None (Some start) (Some (start + fst (lshape B rank)))) ->
  exists c,
    (p ← torch_matmul x y; iadd (zeros (nrows GA) (ncols GB)) p) = Ok c /\
    nrows c = nrows GA /\ ncols c = ncols GB /\
    forall i j, 0 <= i < nrows GA -> 0 <= j < ncols GB ->
      elt c i j = add zero (sum_over (seqZ start e)
                                     (fun k => mul (elt GA i k) (elt GB k j))).
Proof.
  intros Hs HL HP HQ Hr [HgA HA] [HgB HB] HPb start e x y Hcase.
  specialize (HA rank Hr). specialize (HB rank Hr).
  rewrite HgA in HA. rewrite HgB in HB. cbn zeta in HA, HB.
  pose proof (chunk_extent_bounds (ncols GA) size rank Hs HP Hr) as He.
  pose proof (chunk_start_range (ncols GA) size rank Hs HP Hr) as Hst.
  pose proof (chunk_stop (ncols GA) size rank) as Hstop.
  assert (0 <= ncols GA / size) as HdP by (apply Z.div_pos; lia).
  fold start e in He, Hst, Hstop.
  destruct Hcase as [(HsA & HsB & -> & ->)|(HsA & HsB & -> & ->)];
    rewrite HsA in HA; rewrite HsB in HB; unfold chunk in HA, HB;
    cbn [Z.eqb Pos.eqb fst snd] in HA, HB; rewrite <- ?HPb in HB; fold start e in HA, HB;
    destruct HA as (HAr & HAc & HAe); destruct HB as (HBr & HBc & HBe);
    unfold extent in HAr, HAc, HBr, HBc, HAe, HBe; cbn [fst snd] in *;
    rewrite ?Z.sub_0_r in *.
  - unfold lshape. cbn [snd]. rewrite HAc. fold e.
    set (y := getslice (local B rank) (Some start) (Some (start + e)) None None).
    assert (nrows y = e /\ ncols y = ncols GB /\
            forall k j, elt y k j = elt (local B rank) (start + k) (0 + j)) as (Hyr & Hyc & Hye).
    { unfold y, getslice. rewrite HBr, HBc.
      rewrite (slice_bounds_within (ncols GA) start (start + e)) by lia.
      rewrite slice_bounds_all by lia. cbn [nrows ncols elt]. repeat split; lia. }
    destruct (local_product_onto_zeros (local A rank) y (nrows GA) (ncols GB))
      as (c & Hc & Hn & Hm & Hel); try lia.
    exists c. split; [exact Hc|]. split; [exact Hn|]. split; [exact Hm|].
    intros i j Hi Hj. rewrite (Hel i j Hi Hj). f_equal. rewrite HAc. fold e.
    rewrite <- (sum_over_shift start e (fun k => mul (elt GA i k) (elt GB k j))).
    apply sum_over_ext. intros k Hk. apply In_seqZ_range in Hk.
    rewrite (HAe i k) by lia. rewrite Hye, (HBe (start + k) (0 + j)) by lia.
    rewrite !Z.add_0_l. reflexivity.
  - unfold lshape. cbn [fst]. rewrite HBr. fold e.
    set (x := getslice (local A rank) None None (Some start) (Some (start + e))).
    assert (nrows x = nrows GA /\ ncols x = e /\
            forall i k, elt x i k = elt (local A rank) (0 + i) (start + k)) as (Hxr & Hxc & Hxe).
    { unfold x, getslice. rewrite HAr, HAc.
      rewrite (slice_bounds_within (ncols GA) start (start + e)) by lia.
      rewrite slice_bounds_all by lia. cbn [nrows ncols elt]. repeat split; lia. }
    destruct (local_product_onto_zeros x (local B rank) (nrows GA) (ncols GB))
      as (c & Hc & Hn & Hm & Hel); try lia.
    exists c. split; [exact Hc|]. split; [exact Hn|]. split; [exact Hm|].
    intros i j Hi Hj. rewrite (Hel i j Hi Hj). f_equal. rewrite Hxc.
    rewrite <- (sum_over_shift start e (fun k => mul (elt GA i k) (elt GB k j))).
    apply sum_over_ext. intros k Hk. apply In_seqZ_range in Hk.
    rewrite Hxe, (HAe (0 + i) (start + k)) by lia. rewrite (HBe k j) by lia.
    rewrite !Z.add_0_l. reflexivity.
Qed.


Lemma Forall2_with_left {A B} (P : A -> B -> Prop) (Q : A -> Prop) (l : list A) (k : list B) :
  Forall2 P l k -> (forall x, In x l -> Q x) -> Forall2 (fun x y => Q x /\ P x y) l k.
Proof.
  induction 1 as [|x y l k Hxy HF IH]; intros HQ; constructor.
  - split; [apply HQ; left; reflexivity | exact Hxy].
  - apply IH. intros z Hz. apply HQ. right. exact Hz.
Qed.

(** The Allreduce of the partial products gives every process the product. *)
Lemma contraction_allreduce (size : Z) (A B : DNDarray T) (GA GB : tensor T)
    (f : Z -> result (tensor T)) :
  1 <= size -> 0 <= nrows GA -> 0 <= ncols GA -> 0 <= ncols GB ->
  holds size A GA -> holds size B GB -> ncols GA = nrows GB ->
  (forall rank, 0 <= rank < size ->
     exists x y,
       f rank = (p ← torch_matmul x y; iadd (zeros (nrows GA) (ncols GB)) p) /\
       let start := fst (chunk_bounds (ncols GA) size rank) in
       ((split A = Some 1 /\ split B = None /\ x = local A rank /\
         y = getslice (local B rank) (Some start) (Some (start + snd (lshape A rank)))
                      None None) \/
        (split A = None /\ split B = Some 0 /\ y = local B rank /\
         x = getslice (local A rank) None None (Some start)
                      (Some (start + fst (lshape B rank)))))) ->
  exists cs,
    mapM f (ranks size) = Ok cs /\
    forall split dt,
      holds size (factories_array size (everywhere size (allreduce_sum cs)) split dt)
            (dense_product GA GB).
Proof using add_assoc add_zero_l add_zero_r.
  intros Hs HL HP HQ HA HB HPb Hf.
  assert (forall rank, 0 <= rank < size ->
            exists c, f rank = Ok c /\
              (nrows c = nrows GA /\ ncols c = ncols GB /\
               forall i j, 0 <= i < nrows GA -> 0 <= j < ncols GB ->
                 elt c i j = add zero (sum_over (seqZ (fst (chunk_bounds (ncols GA) size rank))
                                                      (extent (chunk_bounds (ncols GA) size rank)))
                                                (fun k => mul (elt GA i k) (elt GB k j)))))
    as Hrank.
  { intros rank Hr. destruct (Hf rank Hr) as (x & y & -> & Hcase).
    exact (contraction_partial size rank A B GA GB Hs HL HP HQ Hr HA HB HPb x y Hcase). }
  destruct (mapM_result_Ok f (ranks size)) as (cs & Hcs).
  { intros rank Hr. apply In_ranks in Hr. destruct (Hrank rank Hr) as (c & Hc & _). eauto. }
  exists cs. split; [exact Hcs|]. intros split dt.
  apply mapM_result_Forall2 in Hcs.
  apply (Forall2_with_left _ (fun rank => 0 <= rank < size)) in Hcs;
    [|intros rank Hr; apply In_ranks; exact Hr].
  destruct (allreduce_of_partials (ncols GA) size (nrows GA) (ncols GB)
              (fun i j k => mul (elt GA i k) (elt GB k j)) cs Hs HP) as (Hn & Hm & Hel).
  { eapply Forall2_impl; [exact Hcs|]. cbn beta. intros rank c [Hr Hc].
    destruct (Hrank rank Hr) as (c' & Hc' & Hfacts). rewrite Hc in Hc'. injection Hc' as <-.
    exact Hfacts. }
  apply (holds_ext size _ (allreduce_sum cs)); try lia.
  - apply factories_array_holds; lia.
  - rewrite Hn. reflexivity.
  - rewrite Hm. reflexivity.
  - intros i j Hi Hj. rewrite Hn in Hi. rewrite Hm in Hj. rewrite (Hel i j Hi Hj).
    unfold dense_product. cbn [elt]. rewrite add_zero_l. reflexivity.
Qed.

(** X12: [a] split along axis 1 times an unsplit [b], and an unsplit [a]
    times [b] split along axis 0: the contraction index is split, every
    process multiplies its columns of [a] by the matching rows of [b], and
    one Allreduce sums the partial products.  For operands of one element
    type that hold the global matrices [GA] and [GB], and a sum that is
    associative with zero as its identity, [matmul] returns a result that
    holds the product of [GA] and [GB]; no object is allocated or changed,
    and the one collective call is the Allreduce. *)
Theorem matmul_split_contraction (size : Z) (a b : nat) (allow_resplit : bool)
    (w : world T) (A B : DNDarray T) (GA GB : tensor T) :
  1 <= size -> 0 <= nrows GA -> 0 <= ncols GA -> 0 <= ncols GB ->
  heap w !! a = Some A -> heap w !! b = Some B ->
  (split A = Some 1 /\ split B = None) \/ (split A = None /\ split B = Some 0) ->
  holds size A GA -> holds size B GB -> ncols GA = nrows GB ->
  dtype B = dtype A -> promote_types (dtype A) (dtype A) = dtype A ->
  exists c,
    matmul size a b allow_resplit w = (Ok c, mkWorld (heap w) (log w ++ [Comm Allreduce])) /\
    split c = match split A with
              | Some _ => if 1 <? ncols GB then Some 1 else Some 0
              | None => Some 0
              end /\
    dtype c = dtype A /\
    holds size c (dense_product GA GB).
Proof using add_assoc add_zero_l add_zero_r.
  intros Hsize HL HP HQ Ha Hb Hsplit HA HB HPb HdB Hprom.
  pose proof (proj1 HA) as HgA. pose proof (proj1 HB) as HgB.
  unfold matmul.
  rewrite (bind_step _ _ _ _ _ (deref_lookup _ _ _ Ha)).
  rewrite (bind_step _ _ _ _ _ (deref_lookup _ _ _ Hb)).
  rewrite HdB, Hprom, htype_eqb_refl, HgA, HgB. cbn [fst snd negb].
  replace (ncols GA =? nrows GB) with true by (symmetry; apply Z.eqb_eq; exact HPb).
  cbn [negb]. rewrite !bind_ret_step.
  rewrite (bind_step _ _ _ _ _ (deref_lookup _ _ _ Ha)).
  rewrite (bind_step _ _ _ _ _ (deref_lookup _ _ _ Hb)).
  rewrite HgA, HgB. cbn [fst snd]. unfold split_is_None, split_is.
  destruct Hsplit as [[HsA HsB]|[HsA HsB]]; rewrite HsA, HsB in *;
    cbn [Z.eqb andb orb negb Pos.eqb].
  - match goal with |- context [lift (mapM ?f (ranks size))] =>
      destruct (contraction_allreduce size A B GA GB f Hsize HL HP HQ HA HB)
        as (cs & Hcs & Hholds); [exact HPb| |]
    end.
    { intros rank Hr. do 2 eexists. split; [reflexivity|]. cbn zeta. left.
      split; [exact HsA|]. split; [exact HsB|]. split; reflexivity. }
    rewrite Hcs. eexists. split; [reflexivity|]. cbn [split dtype factories_array].
    split; [reflexivity|]. split; [reflexivity|]. apply Hholds.
  - match goal with |- context [lift (mapM ?f (ranks size))] =>
      destruct (contraction_allreduce size A B GA GB f Hsize HL HP HQ HA HB)
        as (cs & Hcs & Hholds); [exact HPb| |]
    end.
    { intros rank Hr. do 2 eexists. split; [reflexivity|]. cbn zeta. right.
      split; [exact HsA|]. split; [exact HsB|]. split; [reflexivity|].
      unfold chunk. cbn [Z.eqb Pos.eqb fst snd]. rewrite <- HPb. reflexivity. }
    rewrite Hcs. eexists. split; [reflexivity|]. cbn [split dtype factories_array].
    split; [destruct (1 <? nrows GA); reflexivity|]. split; [reflexivity|]. apply Hholds.
Qed.

End Sums.

(** ** The setup of the ring exchange and the loop for splits 0 and 1 *)

Section RingSetup.
Import MatMul MatMulSpec.
Context {T : Type} `{Backend T}.
Variable size : Z.
Hypothesis Hsize : 1 <= size.

Lemma mapM_Ok_map {A B} (f : A -> result B) (g : A -> B) (l : list A) :
  (forall x, In x l -> f x = Ok (g x)) -> mapM f l = Ok (map g l).
Proof.
  induction l as [|x l IH]; intros Hf; [reflexivity|].
  cbn. rewrite (Hf x) by (left; reflexivity). cbn.
  rewrite IH by (intros y Hy; apply Hf; right; exact Hy). reflexivity.
Qed.

Lemma rem_flag_value (n block k : Z) :
  block <> 0 ->
  rem_flag n block k = Ok (rem_value n block k).
Proof.
  intros Hb. unfold rem_flag, pymod.
  destruct (Z.eqb_spec block 0); [contradiction|]. reflexivity.
Qed.

Lemma zip_map_r {A B} (g : A -> B) (l : list A) :
  zip l (map g l) = map (fun x => (x, g x)) l.
Proof. induction l as [|x l IH]; [reflexivity|]. cbn. f_equal. exact IH. Qed.

(** The inner block size for two split operands. *)
Lemma inner_block_value (a b : DNDarray T) (sa sb : Z) :
  0 <= snd (gshape a) -> snd (gshape a) = fst (gshape b) ->
  split a = Some sa -> split b = Some sb -> (sa = 0 \/ sa = 1) -> (sb = 0 \/ sb = 1) ->
  inner_block size a b
  = Ok (if (sa =? 0) && (sb =? 1) then snd (gshape a) else snd (gshape a) / size).
Proof using Hsize.
  intros HP HPb Esa Esb Hsa Hsb.
  unfold inner_block, split_is, floordiv. rewrite Esa, Esb, <- HPb.
  destruct (Z.eqb_spec size 0) as [E|_]; [lia|].
  assert (snd (gshape a) / size <= snd (gshape a)).
  { pose proof (Z.div_mod (snd (gshape a)) size ltac:(lia)).
    pose proof (Z.mod_pos_bound (snd (gshape a)) size ltac:(lia)).
    assert (0 <= snd (gshape a) / size) by (apply Z.div_pos; lia). nia. }
  destruct Hsa as [-> | ->], Hsb as [-> | ->]; cbn; try reflexivity.
  - destruct (Z.ltb_spec (snd (gshape a) / size) (snd (gshape a))); f_equal; lia.
  - f_equal. lia.
Qed.

(** The least numbers of rows of [a] and of columns of [b]. *)
Lemma outer_blocks_value (a b : DNDarray T) (sa sb : Z) :
  0 <= fst (gshape a) -> 0 <= snd (gshape b) ->
  balanced size a -> balanced size b ->
  split a = Some sa -> split b = Some sb ->
  outer_blocks (gather_lshapes size a b)
  = Ok (if sa =? 0 then fst (gshape a) / size else fst (gshape a),
        if sb =? 0 then snd (gshape b) else snd (gshape b) / size).
Proof using Hsize.
  intros HL HQ Ha Hb Esa Esb.
  unfold outer_blocks, gather_lshapes. rewrite !map_map. cbn [fst snd].
  rewrite (tensor_min_ranks size (fun rank => fst (lshape a rank))
             (if sa =? 0 then fst (gshape a) / size else fst (gshape a)) Hsize).
  - rewrite (tensor_min_ranks size (fun rank => snd (lshape b rank))
               (if sb =? 0 then snd (gshape b) else snd (gshape b) / size) Hsize);
      [reflexivity| |].
    + intros rank Hr. rewrite (balanced_lshape size b sb rank Hb Esb Hr). cbn [snd].
      pose proof (chunk_extent_bounds (snd (gshape b)) size rank Hsize HQ Hr).
      destruct (sb =? 0); lia.
    + exists (size - 1). split; [lia|].
      rewrite (balanced_lshape size b sb (size - 1) Hb Esb ltac:(lia)). cbn [snd].
      destruct (sb =? 0); [reflexivity | apply chunk_extent_last; exact Hsize].
  - intros rank Hr. rewrite (balanced_lshape size a sa rank Ha Esa Hr). cbn [fst].
    pose proof (chunk_extent_bounds (fst (gshape a)) size rank Hsize HL Hr).
    destruct (sa =? 0); lia.
  - exists (size - 1). split; [lia|].
    rewrite (balanced_lshape size a sa (size - 1) Ha Esa ltac:(lia)). cbn [fst].
    destruct (sa =? 0); [apply chunk_extent_last; exact Hsize | reflexivity].
Qed.


Lemma mapM_map {A B C} (f : B -> result C) (h : A -> B) (l : list A) :
  mapM f (map h l) = mapM (fun x => f (h x)) l.
Proof.
  induction l as [|x l IH]; [reflexivity|].
  cbn. destruct (f (h x)); cbn; [rewrite IH|]; reflexivity.
Qed.

(** Everything that [matmul] computes for two split operands ahead of its
    work loops (lines 283-463) is computed without an exception once the
    three block sizes are positive. *)
Lemma ring_setup_steps (a b : DNDarray T) (sa sb : Z) :
  0 <= fst (gshape a) -> 0 <= snd (gshape a) -> 0 <= snd (gshape b) ->
  snd (gshape a) = fst (gshape b) ->
  balanced size a -> balanced size b ->
  split a = Some sa -> split b = Some sb -> (sa = 0 \/ sa = 1) -> (sb = 0 \/ sb = 1) ->
  let mB := if sa =? 0 then fst (gshape a) / size else fst (gshape a) in
  let kB := if (sa =? 0) && (sb =? 1) then snd (gshape a) else snd (gshape a) / size in
  let nB := if sb =? 0 then snd (gshape b) else snd (gshape b) / size in
  1 <= mB -> 1 <= kB -> 1 <= nB ->
  let inner := map (fun rank => (rem_value (snd (lshape a rank)) kB kB,
                                 rem_value (fst (lshape b rank)) kB kB)) (ranks size) in
  let rem_map := map (fun rank => ((rem_value (fst (lshape a rank)) mB kB,
                                    rem_value (snd (lshape a rank)) kB kB),
                                   (rem_value (fst (lshape b rank)) kB kB,
                                    rem_value (snd (lshape b rank)) nB kB))) (ranks size) in
  inner_sizes size a b = Ok (kB, inner) /\
  outer_blocks (gather_lshapes size a b) = Ok (mB, nB) /\
  outer_flags size a b mB kB nB inner = Ok rem_map /\
  exists am0 am1 bm0 bm1,
    new_a_block_map size a mB kB = Ok am0 /\
    fill_a_block_map size am0 mB kB (gather_lshapes size a b) (gather_index_map size a b)
      = Ok am1 /\
    new_b_block_map size b kB nB = Ok bm0 /\
    fill_b_block_map size bm0 kB nB (gather_lshapes size a b) (gather_index_map size a b)
      = Ok bm1.
Proof using Hsize.
  intros HL HP HQ HPb Ha Hb Esa Esb Hsa Hsb mB kB nB HmB HkB HnB inner rem_map.
  assert (inner_block size a b = Ok kB) as Hk
    by (apply inner_block_value; assumption).
  assert (outer_blocks (gather_lshapes size a b) = Ok (mB, nB)) as Hout
    by (apply outer_blocks_value; assumption).
  split.
  { unfold inner_sizes. rewrite Hk. cbn [mbind result_bind].
    rewrite (mapM_Ok_map _ (fun rank => (rem_value (snd (lshape a rank)) kB kB,
                                         rem_value (fst (lshape b rank)) kB kB))).
    - reflexivity.
    - intros rank _. rewrite !rem_flag_value by lia. reflexivity. }
  split; [exact Hout|]. split.
  { unfold outer_flags, inner. rewrite zip_map_r, mapM_map.
    apply mapM_Ok_map. intros rank _. rewrite !rem_flag_value by lia. reflexivity. }
  destruct (block_maps_built_for_positive_blocks size Hsize a b mB kB nB rem_map)
    as ([am bm] & Hbuild); try assumption.
  { unfold split_is. rewrite Esa, Esb.
    destruct Hsa as [-> | ->], Hsb as [-> | ->]; reflexivity. }
  unfold build_block_maps in Hbuild.
  destruct (new_a_block_map size a mB kB) as [am0|] eqn:E1; [|discriminate Hbuild].
  cbn [mbind result_bind] in Hbuild.
  destruct (fill_a_block_map size am0 mB kB _ _) as [am1|] eqn:E2; [|discriminate Hbuild].
  cbn [mbind result_bind] in Hbuild.
  destruct (new_b_block_map size b kB nB) as [bm0|] eqn:E3; [|discriminate Hbuild].
  cbn [mbind result_bind] in Hbuild.
  destruct (fill_b_block_map size bm0 kB nB _ _) as [bm1|] eqn:E4; [|discriminate Hbuild].
  exists am0, am1, bm0, bm1. auto.
Qed.

(** X13: for two split, balanced operands whose three block sizes are
    positive, the setup of lines 283-463 completes: [mB] is the quotient of
    the rows of [a] by the number of processes if [a] is split along axis 0
    and the number of rows otherwise, [nB] likewise for the columns of [b]
    and axis 1, and [kB] is the whole contraction length for the splits 0
    and 1 and its quotient by the number of processes for the others; the
    row of a process in the table of remainders holds the four flags of its
    local shapes. *)
Theorem setup_ring_completes (a b : DNDarray T) (sa sb : Z) :
  0 <= fst (gshape a) -> 0 <= snd (gshape a) -> 0 <= snd (gshape b) ->
  snd (gshape a) = fst (gshape b) ->
  balanced size a -> balanced size b ->
  split a = Some sa -> split b = Some sb -> (sa = 0 \/ sa = 1) -> (sb = 0 \/ sb = 1) ->
  let m := if sa =? 0 then fst (gshape a) / size else fst (gshape a) in
  let k := if (sa =? 0) && (sb =? 1) then snd (gshape a) else snd (gshape a) / size in
  let n := if sb =? 0 then snd (gshape b) else snd (gshape b) / size in
  1 <= m -> 1 <= k -> 1 <= n ->
  exists st,
    setup_ring size a b = Ok st /\
    mB st = m /\ kB st = k /\ nB st = n /\
    lshape_map st = gather_lshapes size a b /\
    index_map st = gather_index_map size a b /\
    rem_map st = map (fun rank => ((rem_value (fst (lshape a rank)) m k,
                                    rem_value (snd (lshape a rank)) k k),
                                   (rem_value (fst (lshape b rank)) k k,
                                    rem_value (snd (lshape b rank)) n k))) (ranks size).
Proof using Hsize.
  intros HL HP HQ HPb Ha Hb Esa Esb Hsa Hsb m k n Hm Hk Hn.
  destruct (ring_setup_steps a b sa sb HL HP HQ HPb Ha Hb Esa Esb Hsa Hsb Hm Hk Hn)
    as (Hin & Hout & Hfl & am0 & am1 & bm0 & bm1 & E1 & E2 & E3 & E4).
  fold m k n in Hin, Hout, Hfl, E1, E2, E3, E4.
  unfold setup_ring. rewrite Hin. cbn [mbind result_bind]. rewrite Hout.
  cbn [mbind result_bind]. rewrite Hfl. cbn [mbind result_bind].
  unfold build_block_maps. rewrite E1. cbn [mbind result_bind]. rewrite E2.
  cbn [mbind result_bind]. rewrite E3. cbn [mbind result_bind]. rewrite E4.
  cbn [mbind result_bind].
  eexists. split; [reflexivity|]. cbn [mB kB nB lshape_map index_map rem_map].
  repeat split; reflexivity.
Qed.

End RingSetup.

Section Ring01.
Import MatMul MatMulSpec.
Context {T : Type} `{Backend T}.

Lemma foldM_snoc {A B} (f : B -> A -> result B) (l : list A) (x : A) (b : B) :
  foldM f (l ++ [x]) b = (b' ← foldM f l b; f b' x).
Proof.
  revert b. induction l as [|y l IH]; intros b; cbn.
  - destruct (f b x); reflexivity.
  - destruct (f b y) as [b1|e]; cbn; [apply IH | reflexivity].
Qed.

Lemma chunk_extent_tight (n size rank : Z) :
  1 <= size -> n / size <= extent (chunk_bounds n size rank) <= n / size + 1.
Proof.
  intros Hs. unfold extent, chunk_bounds.
  destruct (rank <? n mod size); cbn [fst snd]; lia.
Qed.

Lemma index_row_gather (size pr : Z) (A B : DNDarray T) :
  0 <= pr < size ->
  index_row (gather_index_map size A B) pr
  = (chunk size pr (gshape A) (split A), chunk size pr (gshape B) (split B)).
Proof.
  intros Hpr. unfold index_row, gather_index_map.
  apply (nth_map_ranks (fun rank => (chunk size rank (gshape A) (split A),
                                     chunk size rank (gshape B) (split B)))).
  exact Hpr.
Qed.

Lemma step01_fills (size rank m : Z) (A B : DNDarray T) (GA GB : tensor T) (c : tensor T) :
  1 <= size -> 0 <= nrows GA -> 0 <= ncols GB -> 0 <= rank < size -> 0 <= m < size ->
  holds size A GA -> holds size B GB -> split A = Some 0 -> split B = Some 1 ->
  ncols GA = nrows GB ->
  filled_to size rank A GB m c ->
  exists c',
    (let '(st0, sp0) := fst (fst (index_row (gather_index_map size A B) m)) in
     let sp0 := sp0 + 1 in
     let '(st1, sp1) := snd (snd (index_row (gather_index_map size A B) m)) in
     p ← torch_matmul (local A rank) (local B m);
     iadd_slice c None (Some (sp0 - st0)) (Some st1) (Some sp1) p) = Ok c' /\
    filled_to size rank A GB (m + 1) c'.
Proof.
  intros Hs HL HQ Hr Hm [HgA HA] [HgB HB] HsA HsB HPb (Hcr & Hcc & Hce).
  rewrite index_row_gather by exact Hm. rewrite HgA, HgB, HsA, HsB. unfold chunk.
  cbn [Z.eqb Pos.eqb fst snd].
  pose proof (HA rank Hr) as HAr. pose proof (HB m Hm) as HBm. clear HA HB.
  rewrite HgA, HsA in HAr. rewrite HgB, HsB in HBm. unfold chunk in HAr, HBm.
  cbn [Z.eqb Pos.eqb fst snd] in HAr, HBm. cbn zeta in HAr, HBm.
  destruct HAr as (HArr & HArc & _). destruct HBm as (HBr & HBc & HBe).
  pose proof (chunk_extent_tight (nrows GA) size rank Hs) as Ht1.
  pose proof (chunk_extent_tight (nrows GA) size m Hs) as Ht2.
  pose proof (chunk_extent_bounds (nrows GA) size rank Hs HL Hr) as He1.
  pose proof (chunk_extent_bounds (ncols GB) size m Hs HQ Hm) as He2.
  pose proof (chunk_start_range (ncols GB) size m Hs HQ Hm) as Hst.
  pose proof (chunk_start_next (ncols GB) size m Hs ltac:(lia)) as Hnext.
  assert (0 <= nrows GA / size) as HdL by (apply Z.div_pos; lia).
  assert (0 <= ncols GB / size) as HdQ by (apply Z.div_pos; lia).
  unfold extent in HArr, HArc, HBr, HBc, HBe, Ht1, Ht2, He1, He2.
  cbn [fst snd] in HArr, HArc, HBr, HBc, HBe.
  rewrite ?Z.sub_0_r in HArc, HBr. 
  destruct (chunk_bounds (nrows GA) size m) as [st0 sp0].
  destruct (chunk_bounds (ncols GB) size m) as [st1 sp1] eqn:Eb.
  cbn [fst snd] in *.
  unfold torch_matmul. rewrite HArc, HBr, HPb, Z.eqb_refl. cbn [mbind result_bind].
  unfold iadd_slice, update_slice. cbn [nrows ncols elt].
  assert (slice_bounds (nrows c) None (Some (sp0 + 1 - st0)) = (0, nrows c)) as ->.
  { unfold slice_bounds, clip. destruct (Z.ltb_spec (sp0 + 1 - st0) 0); [lia|].
    f_equal. lia. }
  rewrite (slice_bounds_within (ncols c) st1 sp1) by lia.
  rewrite Z.sub_0_r, Hcr, HBc. unfold broadcasts. rewrite !Z.eqb_refl. cbn [orb andb].
  eexists. split; [reflexivity|].
  split; [reflexivity|]. split; [cbn [ncols]; exact Hcc|].
  cbn [nrows ncols elt]. intros i j Hi Hj. rewrite Hnext.
  rewrite (Hce i j) by (rewrite ?Hcr; assumption).
  replace ((0 <=? i) && (i <? nrows (local A rank))) with true
    by (symmetry; rewrite andb_true_iff, Z.leb_le, Z.ltb_lt; lia).
  cbn [andb].
  destruct (Z.leb_spec st1 j) as [H1|H1], (Z.ltb_spec j sp1) as [H2|H2]; cbn [andb].
  - destruct (Z.ltb_spec j st1); [lia|]. f_equal.
    assert ((if nrows (local A rank) =? 1 then 0 else i - 0) = i) as ->
      by (destruct (Z.eqb_spec (nrows (local A rank)) 1); lia).
    assert ((if sp1 - st1 =? 1 then 0 else j - st1) = j - st1) as ->
      by (destruct (Z.eqb_spec (sp1 - st1) 1); lia).
    rewrite <- HPb. rewrite HArc.
    apply sum_over_ext. intros k Hk. apply In_seqZ_range in Hk.
    rewrite (HBe k (j - st1)) by lia. rewrite Z.add_0_l. do 2 f_equal. lia.
  - destruct (Z.ltb_spec j st1); [lia|]. reflexivity.
  - destruct (Z.ltb_spec j st1); [|lia]. reflexivity.
  - lia.
Qed.


(** The order of the ring exchange: the loop over the processes handles
    the shard of process [pr - 1] while that of [pr] is on its way, and the
    last one after the loop body; every shard is handled once, in rank
    order. *)
Lemma ring_order {C} (step : Z -> C -> result C) (I : Z -> C -> Prop) (size : Z) (c0 : C) :
  1 <= size -> I 0 c0 ->
  (forall m c, 0 <= m < size -> I m c -> exists c', step m c = Ok c' /\ I (m + 1) c') ->
  exists c,
    foldM (fun c pr => c ← (if negb (pr =? 0) then step (pr - 1) c else Ok c);
                       if pr =? size - 1 then step pr c else Ok c)
          (ranks size) c0 = Ok c /\
    I size c.
Proof.
  intros Hs H0 Hstep. unfold ranks.
  set (F := fun c pr => c ← (if negb (pr =? 0) then step (pr - 1) c else Ok c);
                        if pr =? size - 1 then step pr c else Ok c).
  assert (forall q : nat, Z.of_nat q <= size ->
            exists c, foldM F (seqZ 0 (Z.of_nat q)) c0 = Ok c /\
                      I (if (Z.of_nat q =? 0) then 0
                         else if (Z.of_nat q =? size) then size else Z.of_nat q - 1) c) as Hq.
  { induction q as [|q IH]; intros Hle.
    - exists c0. split; [reflexivity | exact H0].
    - destruct IH as (c1 & Hc1 & HI1); [lia|].
      rewrite seqZ_S, foldM_snoc, Hc1. cbn [mbind result_bind]. rewrite Z.add_0_l.
      destruct (Z.eqb_spec (Z.of_nat (S q)) 0) as [E|_]; [lia|].
      destruct (Z.eqb_spec (Z.of_nat q) size) as [E|_]; [lia|].
      unfold F.
      assert (exists c2, (if negb (Z.of_nat q =? 0) then step (Z.of_nat q - 1) c1 else Ok c1)
                         = Ok c2 /\ I (Z.of_nat q) c2) as (c2 & Hc2 & HI2).
      { destruct (Z.eqb_spec (Z.of_nat q) 0) as [E|E]; cbn [negb].
        - exists c1. split; [reflexivity|]. rewrite E. exact HI1.
        - destruct (Hstep (Z.of_nat q - 1) c1 ltac:(lia) HI1) as (c2 & Hc2 & HI2).
          exists c2. split; [exact Hc2|].
          replace (Z.of_nat q - 1 + 1) with (Z.of_nat q) in HI2 by lia. exact HI2. }
      rewrite Hc2. cbn [mbind result_bind].
      destruct (Z.eqb_spec (Z.of_nat q) (size - 1)) as [E|E].
      + destruct (Hstep (Z.of_nat q) c2 ltac:(lia) HI2) as (c3 & Hc3 & HI3).
        exists c3. split; [exact Hc3|].
        destruct (Z.eqb_spec (Z.of_nat (S q)) size); [|lia].
        replace (Z.of_nat q + 1) with size in HI3 by lia. exact HI3.
      + exists c2. split; [reflexivity|].
        destruct (Z.eqb_spec (Z.of_nat (S q)) size); [lia|].
        replace (Z.of_nat (S q) - 1) with (Z.of_nat q) by lia. exact HI2. }
  destruct (Hq (Z.to_nat size) ltac:(lia)) as (c & Hc & HI).
  rewrite Z2Nat.id in Hc, HI by lia.
  exists c. split; [exact Hc|].
  destruct (Z.eqb_spec size 0); [lia|]. rewrite Z.eqb_refl in HI. exact HI.
Qed.

(** The loop for [a] split along axis 0 and [b] along axis 1, started on
    zeros, ends with the rows of the product that belong to the process. *)
Lemma split_01_loop_fills (size rank : Z) (A B : DNDarray T) (GA GB : tensor T)
    (st : ring_setup) (c0 : tensor T) :
  1 <= size -> 0 <= nrows GA -> 0 <= ncols GB -> 0 <= rank < size ->
  holds size A GA -> holds size B GB -> split A = Some 0 -> split B = Some 1 ->
  ncols GA = nrows GB ->
  index_map st = gather_index_map size A B ->
  filled_to size rank A GB 0 c0 ->
  exists c, split_01_loop size rank A B st c0 = Ok c /\ filled_to size rank A GB size c.
Proof.
  intros Hs HL HQ Hr HA HB HsA HsB HPb Hidx H0.
  unfold split_01_loop. rewrite Hidx.
  apply (ring_order
           (fun pr c =>
              let '(st0, sp0) := fst (fst (index_row (gather_index_map size A B) pr)) in
              let sp0 := sp0 + 1 in
              let '(st1, sp1) := snd (snd (index_row (gather_index_map size A B) pr)) in
              p ← torch_matmul (local A rank) (local B pr);
              iadd_slice c None (Some (sp0 - st0)) (Some st1) (Some sp1) p)
           (filled_to size rank A GB) size c0 Hs H0).
  intros m c Hm HI.
  exact (step01_fills size rank m A B GA GB c Hs HL HQ Hr Hm HA HB HsA HsB HPb HI).
Qed.

End Ring01.

Section Ring01Theorem.
Import MatMul MatMulSpec.
Context {T : Type} `{Backend T}.

Lemma bind_communicate {A} (ops : list comm_op) (k : unit -> M (world T) A) (w : world T) :
  (communicate ops ≫= k) w = k tt (mkWorld (heap w) (log w ++ map Comm ops)).
Proof. reflexivity. Qed.

Lemma holds_balanced (size : Z) (a : DNDarray T) (g : tensor T) :
  holds size a g -> balanced size a.
Proof.
  intros [_ Hl] rank Hr. destruct (Hl rank Hr) as (H1 & H2 & _).
  unfold lshape. rewrite H1, H2. reflexivity.
Qed.

(** X14: for [a] split along axis 0 and [b] along axis 1, of one element
    type, with at least one row of [a] and one column of [b] for every
    process and a contraction that is not empty, [matmul] returns the
    product of the two global matrices, split along axis 0: process [rank]
    holds the rows of its chunk, every element the sum over the contraction
    index in rising order.  No object is allocated or changed, and the log
    grows by collective calls only. *)
Theorem matmul_rows_times_columns (size : Z) (a b : nat) (allow_resplit : bool)
    (w : world T) (A B : DNDarray T) (GA GB : tensor T) :
  1 <= size -> size <= nrows GA -> 1 <= ncols GA -> size <= ncols GB ->
  heap w !! a = Some A -> heap w !! b = Some B ->
  split A = Some 0 -> split B = Some 1 ->
  holds size A GA -> holds size B GB -> ncols GA = nrows GB ->
  dtype B = dtype A -> promote_types (dtype A) (dtype A) = dtype A ->
  exists c w',
    matmul size a b allow_resplit w = (Ok c, w') /\
    heap w' = heap w /\ (exists ops, log w' = log w ++ map Comm ops) /\
    split c = Some 0 /\ dtype c = dtype A /\
    holds size c (dense_product GA GB).
Proof.
  intros Hsize HL HP HQ Ha Hb HsA HsB HA HB HPb HdB Hprom.
  pose proof (proj1 HA) as HgA. pose proof (proj1 HB) as HgB.
  destruct (ring_setup_steps size Hsize A B 0 1) as (Hin & Hout & Hfl & am0 & am1 & bm0 & bm1 & E1 & E2 & E3 & E4);
    rewrite ?HgA, ?HgB; cbn [fst snd Z.eqb andb]; auto; try lia.
  1,2: eapply holds_balanced; eassumption.
  1,2: apply Z.div_le_lower_bound; lia.
  repeat match goal with
         | Hx : context [gshape A] |- _ => lazymatch Hx with HgA => fail | _ => rewrite HgA in Hx end
         | Hx : context [gshape B] |- _ => lazymatch Hx with HgB => fail | _ => rewrite HgB in Hx end
         end.
  cbn [fst snd Z.eqb Pos.eqb andb] in Hin, Hout, Hfl, E1, E2, E3, E4.
  unfold matmul.
  rewrite (bind_step _ _ _ _ _ (deref_lookup _ _ _ Ha)).
  rewrite (bind_step _ _ _ _ _ (deref_lookup _ _ _ Hb)).
  rewrite HdB, Hprom, htype_eqb_refl, HgA, HgB. cbn [fst snd negb].
  replace (ncols GA =? nrows GB) with true by (symmetry; apply Z.eqb_eq; exact HPb).
  cbn [negb]. rewrite !bind_ret_step.
  rewrite (bind_step _ _ _ _ _ (deref_lookup _ _ _ Ha)).
  rewrite (bind_step _ _ _ _ _ (deref_lookup _ _ _ Hb)).
  rewrite HgA, HgB. cbn [fst snd]. unfold split_is_None, split_is. rewrite HsA, HsB.
  cbn [Z.eqb andb orb negb Pos.eqb].
  rewrite Hin, bind_lift_Ok. cbv beta iota. rewrite bind_communicate.
  rewrite Hout, bind_lift_Ok. cbv beta iota.
  rewrite Hfl, bind_lift_Ok. rewrite !bind_communicate.
  rewrite E1, bind_lift_Ok. rewrite bind_communicate.
  rewrite E2, bind_lift_Ok. rewrite bind_communicate.
  rewrite E3, bind_lift_Ok. rewrite E4, bind_lift_Ok. rewrite !bind_communicate.
  cbn [heap log].
  match goal with
  | |- context [split_01_loop size _ A B ?s] => set (st := s)
  end.
  set (c := factories_zeros size (nrows GA, ncols GB) (Some 0) (dtype A)).
  assert (0 <= nrows GA / size) as HdL by (apply Z.div_pos; lia).
  assert (forall rank, 0 <= rank < size ->
            exists cr, split_01_loop size rank A B st (local c rank) = Ok cr /\
                       filled_to size rank A GB size cr) as Hrank.
  { intros rank Hr.
    apply (split_01_loop_fills size rank A B GA GB st (local c rank)); auto; try lia.
    pose proof (proj2 HA rank Hr) as HAr. rewrite HgA, HsA in HAr. cbn zeta in HAr.
    destruct HAr as (HAr & _ & _).
    assert (local c rank
            = zeros (extent (fst (chunk size rank (nrows GA, ncols GB) (Some 0))))
                    (extent (snd (chunk size rank (nrows GA, ncols GB) (Some 0))))) as Hc.
    { unfold c, local, factories_zeros. cbn [larray].
      rewrite (nth_map_ranks _ size rank) by exact Hr.
      destruct (chunk size rank (nrows GA, ncols GB) (Some 0)) as [r0 c0]. reflexivity. }
    rewrite Hc. unfold filled_to.
    split; [cbn [nrows zeros]; rewrite HAr; reflexivity|].
    split; [cbn [ncols zeros chunk Z.eqb fst snd]; unfold extent; cbn [fst snd]; lia|].
    intros i j Hi Hj. cbn [elt zeros].
    rewrite chunk_start_0 by exact Hsize.
    destruct (Z.ltb_spec j 0); [lia | reflexivity]. }
  destruct (mapM_result_Ok (fun rank => split_01_loop size rank A B st (local c rank))
                           (ranks size)) as (ls & Hls).
  { intros rank Hr. apply In_ranks in Hr. destruct (Hrank rank Hr) as (cr & Hcr & _). eauto. }
  rewrite Hls, bind_lift_Ok. unfold mret, M_ret.
  do 2 eexists. split; [reflexivity|]. cbn [heap log].
  split; [reflexivity|]. split.
  { rewrite <- !app_assoc, <- !map_app. eexists. reflexivity. }
  split; [reflexivity|]. split; [reflexivity|].
  split; [reflexivity|].
  intros rank Hr. destruct (Hrank rank Hr) as (cr & Hcr & Hnr & Hnc & Hel).
  pose proof (mapM_ranks_lookup _ size ls (zeros 0 0) Hls rank Hr) as Hlk. cbn beta in Hlk.
  rewrite Hcr in Hlk. injection Hlk as Hlk.
  unfold local at 1 2 3. cbn [with_locals larray gshape split]. rewrite <- Hlk.
  fold (local A rank) in *.
  pose proof (proj2 HA rank Hr) as HAr. rewrite HgA, HsA in HAr. cbn zeta in HAr.
  unfold c, factories_zeros. cbn [gshape split].
  unfold chunk in *. cbn [Z.eqb fst snd] in *.
  destruct HAr as (HAr & HAc & HAe).
  unfold extent in *. cbn [fst snd] in *. rewrite ?Z.sub_0_r in *.
  split; [rewrite Hnr; exact HAr|]. split; [exact Hnc|].
  intros i j Hi Hj. rewrite (Hel i j) by (rewrite ?Hnr, ?HAr; lia).
  rewrite chunk_start_size by exact Hsize.
  destruct (Z.ltb_spec j (ncols GB)); [|lia].
  unfold dense_product. cbn [elt]. f_equal. rewrite HAc.
  apply sum_over_ext. intros k Hk. apply In_seqZ_range in Hk.
  rewrite (HAe i k Hi Hk). rewrite !Z.add_0_l. reflexivity.
Qed.

End Ring01Theorem.

(** ** The product of columns by rows *)

Section Ring10.
Import MatMul MatMulSpec.
Context {T : Type} `{Backend T}.
Hypothesis add_assoc : forall x y z : T, add (add x y) z = add x (add y z).
Hypothesis add_zero_l : forall x : T, add zero x = x.
Hypothesis add_zero_r : forall x : T, add x zero = x.

(** The ranks whose flag is set, for flags that are given rank by rank. *)
Lemma contains_rem_locs (size rank : Z) (g : Z -> Z) :
  0 <= rank < size ->
  contains (rem_locs size (map g (ranks size))) rank = (g rank =? 1).
Proof.
  intros Hr. unfold contains, rem_locs. rewrite zip_map_r.
  apply eq_iff_eq_true. rewrite existsb_exists. split.
  - intros (x & Hx & E). apply Z.eqb_eq in E. subst x.
    apply in_map_iff in Hx as ([r f] & E & Hx). cbn in E. subst r.
    apply list_elem_of_In, list_elem_of_filter in Hx as [Hf Hx].
    apply list_elem_of_In, in_map_iff in Hx as (r & [= <- <-] & _).
    cbn in Hf. apply Is_true_true in Hf. exact Hf.
  - intros Hg. exists rank. split; [|apply Z.eqb_refl].
    apply in_map_iff. exists (rank, g rank). split; [reflexivity|].
    apply list_elem_of_In, list_elem_of_filter. split.
    + cbn. apply Is_true_true. exact Hg.
    + apply list_elem_of_In, in_map_iff. exists rank. split; [reflexivity|].
      apply In_ranks. exact Hr.
Qed.

Lemma sum_over_one (x : Z) (f : Z -> T) : sum_over [x] f = add zero (f x).
Proof. reflexivity. Qed.

Lemma slice_bounds_to_end (n : Z) : 0 <= n -> slice_bounds n None (Some n) = (0, n).
Proof.
  intros Hn. unfold slice_bounds, clip. destruct (Z.ltb_spec n 0); [lia|]. f_equal. lia.
Qed.

Lemma rem_value_exact (k : Z) : 1 <= k -> rem_value k k k = 0.
Proof.
  intros Hk. unfold rem_value. rewrite Z.mod_same by lia. cbn [Z.eqb negb orb].
  destruct (k =? 1); reflexivity.
Qed.

Lemma rem_value_one_more (k : Z) : 2 <= k -> rem_value (k + 1) k k = 1.
Proof.
  intros Hk. unfold rem_value.
  replace ((k + 1) mod k) with 1 by (apply (Z.mod_unique (k + 1) k 1 1); lia).
  reflexivity.
Qed.

(** The partial product of a process for [a] split along axis 1 and [b]
    along axis 0: the sum over the part of the contraction index that the
    process holds. *)
Lemma split_10_partial_value (size rank : Z) (A B : DNDarray T) (GA GB : tensor T)
    (st : ring_setup) :
  1 <= size -> 1 <= nrows GA -> size <= ncols GA -> 1 <= ncols GB -> 0 <= rank < size ->
  ncols GA mod size = 0 \/ 2 * size <= ncols GA ->
  holds size A GA -> holds size B GB -> split A = Some 1 -> split B = Some 0 ->
  ncols GA = nrows GB ->
  kB st = ncols GA / size -> mB st = nrows GA -> nB st = ncols GB ->
  rem_map st = map (fun rank =>
                      ((rem_value (fst (lshape A rank)) (nrows GA) (ncols GA / size),
                        rem_value (snd (lshape A rank)) (ncols GA / size) (ncols GA / size)),
                       (rem_value (fst (lshape B rank)) (ncols GA / size) (ncols GA / size),
                        rem_value (snd (lshape B rank)) (ncols GB) (ncols GA / size))))
                   (ranks size) ->
  exists c,
    split_10_partial size rank A B st = Ok c /\
    nrows c = nrows GA /\ ncols c = ncols GB /\
    forall i j, 0 <= i < nrows GA -> 0 <= j < ncols GB ->
      elt c i j = add zero (sum_over (seqZ (fst (chunk_bounds (ncols GA) size rank))
                                           (extent (chunk_bounds (ncols GA) size rank)))
                                     (fun k => mul (elt GA i k) (elt GB k j))).
Proof using add_assoc add_zero_l add_zero_r.
  intros Hs HL HP HQ Hr Hdiv [HgA HA] [HgB HB] HsA HsB HPb Hk Hm Hn Hrem.
  specialize (HA rank Hr). specialize (HB rank Hr).
  rewrite HgA, HsA in HA. rewrite HgB, HsB in HB. unfold chunk in HA, HB.
  cbn [Z.eqb Pos.eqb fst snd] in HA, HB. cbn zeta in HA, HB. rewrite <- HPb in HB.
  pose proof (chunk_extent_tight (ncols GA) size rank Hs) as Ht.
  pose proof (chunk_start_range (ncols GA) size rank Hs ltac:(lia) Hr) as Hst.
  assert (1 <= ncols GA / size) as Hk1 by (apply Z.div_le_lower_bound; lia).
  assert (extent (chunk_bounds (ncols GA) size rank) = ncols GA / size \/
          (extent (chunk_bounds (ncols GA) size rank) = ncols GA / size + 1 /\
           2 <= ncols GA / size)) as Hext.
  { destruct Hdiv as [Hd|Hd].
    - left. unfold extent, chunk_bounds. rewrite Hd.
      destruct (Z.ltb_spec rank 0); [lia|]. cbn [fst snd]. lia.
    - assert (2 <= ncols GA / size) by (apply Z.div_le_lower_bound; lia). lia. }
  set (start := fst (chunk_bounds (ncols GA) size rank)) in *.
  set (e := extent (chunk_bounds (ncols GA) size rank)) in *.
  set (k := ncols GA / size) in *.
  destruct HA as (HAr & HAc & HAe). destruct HB as (HBr & HBc & HBe).
  unfold extent in HAr, HBc, HAe, HBe. cbn [fst snd] in HAr, HBc, HAe, HBe.
  rewrite Z.sub_0_r in HAr, HBc, HAe, HBe.
  unfold split_10_partial. rewrite Hk, Hm, Hn, Hrem, HgA, HgB, !map_map. cbn [fst snd].
  unfold lshape. cbn [fst snd].
  rewrite !(contains_rem_locs size rank) by exact Hr.
  rewrite ?HAc, ?HBr.
  unfold floordiv. destruct (Z.eqb_spec k 0) as [E|_]; [lia|]. cbn [mbind result_bind].
  assert (e / k = 1) as ->.
  { symmetry. destruct Hext as [->|[-> Hk2]].
    - apply (Z.div_unique k k 1 0); lia.
    - apply (Z.div_unique (k + 1) k 1 1); lia. }
  change (seqZ 0 1) with [0]. cbn [foldM]. rewrite Z.mul_0_l, Z.add_0_l.
  set (x := getslice (local A rank) None (Some (nrows GA)) (Some 0) (Some k)).
  set (y := getslice (local B rank) (Some 0) (Some k) None (Some (ncols GB))).
  assert (nrows x = nrows GA /\ ncols x = k /\
          forall i kk, elt x i kk = elt (local A rank) (0 + i) (0 + kk)) as (Hxr & Hxc & Hxe).
  { unfold x, getslice. rewrite HAr, HAc, slice_bounds_to_end by lia.
    rewrite (slice_bounds_within e 0 k) by lia. cbn [nrows ncols elt]. repeat split; lia. }
  assert (nrows y = k /\ ncols y = ncols GB /\
          forall kk j, elt y kk j = elt (local B rank) (0 + kk) (0 + j)) as (Hyr & Hyc & Hye).
  { unfold y, getslice. rewrite HBr, HBc, slice_bounds_to_end by lia.
    rewrite (slice_bounds_within e 0 k) by lia. cbn [nrows ncols elt]. repeat split; lia. }
  destruct (local_product_onto_zeros x y (nrows GA) (ncols GB))
    as (c1 & Hc1 & Hn1 & Hm1 & Hel1); try lia.
  assert (forall i j, 0 <= i < nrows GA -> 0 <= j < ncols GB ->
            elt c1 i j = add zero (sum_over (seqZ start k)
                                            (fun kk => mul (elt GA i kk) (elt GB kk j)))) as Hel1'.
  { intros i j Hi Hj. rewrite (Hel1 i j Hi Hj). f_equal. rewrite Hxc.
    rewrite <- (sum_over_shift start k (fun kk => mul (elt GA i kk) (elt GB kk j))).
    apply sum_over_ext. intros kk Hkk. apply In_seqZ_range in Hkk.
    rewrite Hxe, Hye, !Z.add_0_l. rewrite (HAe i kk), (HBe kk j) by lia.
    rewrite !Z.add_0_l. reflexivity. }
  match goal with
  | |- context [mbind ?f ?m] =>
    lazymatch m with
    | mbind _ (torch_matmul x y) => change m with (p ← torch_matmul x y; iadd (zeros (nrows GA) (ncols GB)) p)
    end
  end.
  rewrite Hc1. cbn [mbind result_bind].
  destruct Hext as [He|[He Hk2]]; rewrite He.
  - rewrite rem_value_exact by exact Hk1. cbn [Z.eqb andb].
    exists c1. split; [reflexivity|]. split; [exact Hn1|]. split; [exact Hm1|]. exact Hel1'.
  - rewrite rem_value_one_more by exact Hk2. cbn [Z.eqb Pos.eqb andb].
    unfold getcol, getrow, int_index. rewrite HAc, HBr, He.
    destruct (Z.ltb_spec (-1) 0); [|lia].
    replace ((0 <=? -1 + (k + 1)) && (-1 + (k + 1) <? k + 1)) with true
      by (symmetry; rewrite andb_true_iff, Z.leb_le, Z.ltb_lt; lia).
    cbn [mbind result_bind]. unfold torch_matmul. cbn [nrows ncols elt Z.eqb Pos.eqb].
    cbn [mbind result_bind]. unfold iadd, iadd_slice, update_slice. cbn [nrows ncols elt].
    rewrite Hn1, Hm1, HAr, HBc, !slice_bounds_all by lia. rewrite !Z.sub_0_r.
    unfold broadcasts. rewrite !Z.eqb_refl. cbn [orb andb].
    eexists. split; [reflexivity|]. cbn [nrows ncols elt].
    split; [reflexivity|]. split; [reflexivity|].
    intros i j Hi Hj.
    replace ((0 <=? i) && (i <? nrows GA) && (0 <=? j) && (j <? ncols GB)) with true
      by (symmetry; rewrite !andb_true_iff, !Z.leb_le, !Z.ltb_lt; lia).
    rewrite (Hel1' i j Hi Hj).
    assert ((if nrows GA =? 1 then 0 else i - 0) = i) as ->
      by (destruct (Z.eqb_spec (nrows GA) 1); lia).
    assert ((if ncols GB =? 1 then 0 else j - 0) = j) as ->
      by (destruct (Z.eqb_spec (ncols GB) 1); lia).
    change (seqZ 0 1) with [0]. rewrite sum_over_one.
    replace (-1 + (k + 1)) with k by lia.
    replace (seqZ start (k + 1)) with (seqZ start k ++ [start + k])
      by (rewrite (seqZ_app start k 1) by lia; reflexivity).
    rewrite sum_over_app by assumption. rewrite sum_over_one.
    rewrite (HAe i k), (HBe k j) by lia. rewrite !Z.add_0_l.
    rewrite !add_zero_l. reflexivity.
Qed.

(** The Allreduce of partial products over the chunks of the contraction
    index gives every process the product. *)
Lemma partials_allreduce (size : Z) (GA GB : tensor T) (f : Z -> result (tensor T)) :
  1 <= size -> 0 <= nrows GA -> 0 <= ncols GA -> 0 <= ncols GB ->
  (forall rank, 0 <= rank < size ->
     exists c, f rank = Ok c /\
       nrows c = nrows GA /\ ncols c = ncols GB /\
       forall i j, 0 <= i < nrows GA -> 0 <= j < ncols GB ->
         elt c i j = add zero (sum_over (seqZ (fst (chunk_bounds (ncols GA) size rank))
                                              (extent (chunk_bounds (ncols GA) size rank)))
                                        (fun k => mul (elt GA i k) (elt GB k j)))) ->
  exists cs,
    mapM f (ranks size) = Ok cs /\
    forall split dt,
      holds size (factories_array size (everywhere size (allreduce_sum cs)) split dt)
            (dense_product GA GB).
Proof using add_assoc add_zero_l add_zero_r.
  intros Hs HL HP HQ Hrank.
  destruct (mapM_result_Ok f (ranks size)) as (cs & Hcs).
  { intros rank Hr. apply In_ranks in Hr. destruct (Hrank rank Hr) as (c & Hc & _). eauto. }
  exists cs. split; [exact Hcs|]. intros split dt.
  apply mapM_result_Forall2 in Hcs.
  apply (Forall2_with_left _ (fun rank => 0 <= rank < size)) in Hcs;
    [|intros rank Hr; apply In_ranks; exact Hr].
  destruct (allreduce_of_partials add_assoc add_zero_l add_zero_r
              (ncols GA) size (nrows GA) (ncols GB)
              (fun i j k => mul (elt GA i k) (elt GB k j)) cs Hs HP) as (Hn & Hm & Hel).
  { eapply Forall2_impl; [exact Hcs|]. cbn beta. intros rank c [Hr Hc].
    destruct (Hrank rank Hr) as (c' & Hc' & Hfacts). rewrite Hc in Hc'. injection Hc' as <-.
    exact Hfacts. }
  apply (holds_ext size _ (allreduce_sum cs)); try lia.
  - apply factories_array_holds; lia.
  - rewrite Hn. reflexivity.
  - rewrite Hm. reflexivity.
  - intros i j Hi Hj. rewrite Hn in Hi. rewrite Hm in Hj. rewrite (Hel i j Hi Hj).
    unfold dense_product. cbn [elt]. rewrite add_zero_l. reflexivity.
Qed.

(** X15: for [a] split along axis 1 and [b] along axis 0, of one element
    type, where the contraction length is a multiple of the number of
    processes or at least twice that number, and a sum that is associative
    with zero as its identity, [matmul] returns the product of the two
    global matrices: every process adds up the products over its part of
    the contraction index and one more Allreduce sums them.  The result is
    split along axis 1, or along axis 0 if it has a single column; no
    object is allocated or changed. *)
Theorem matmul_columns_times_rows (size : Z) (a b : nat) (allow_resplit : bool)
    (w : world T) (A B : DNDarray T) (GA GB : tensor T) :
  1 <= size -> 1 <= nrows GA -> size <= ncols GA -> 1 <= ncols GB ->
  ncols GA mod size = 0 \/ 2 * size <= ncols GA ->
  heap w !! a = Some A -> heap w !! b = Some B ->
  split A = Some 1 -> split B = Some 0 ->
  holds size A GA -> holds size B GB -> ncols GA = nrows GB ->
  dtype B = dtype A -> promote_types (dtype A) (dtype A) = dtype A ->
  exists c w',
    matmul size a b allow_resplit w = (Ok c, w') /\
    heap w' = heap w /\ (exists ops, log w' = log w ++ map Comm ops) /\
    split c = (if 1 <? ncols GB then Some 1 else Some 0) /\
    holds size c (dense_product GA GB).
Proof using add_assoc add_zero_l add_zero_r.
  intros Hsize HL HP HQ Hdiv Ha Hb HsA HsB HA HB HPb HdB Hprom.
  pose proof (proj1 HA) as HgA. pose proof (proj1 HB) as HgB.
  assert (1 <= ncols GA / size) as Hk1 by (apply Z.div_le_lower_bound; lia).
  destruct (ring_setup_steps size Hsize A B 1 0)
    as (Hin & Hout & Hfl & am0 & am1 & bm0 & bm1 & E1 & E2 & E3 & E4);
    rewrite ?HgA, ?HgB; cbn [fst snd Z.eqb Pos.eqb andb]; auto; try lia.
  1,2: eapply holds_balanced; eassumption.
  repeat match goal with
         | Hx : context [gshape A] |- _ => lazymatch Hx with HgA => fail | _ => rewrite HgA in Hx end
         | Hx : context [gshape B] |- _ => lazymatch Hx with HgB => fail | _ => rewrite HgB in Hx end
         end.
  cbn [fst snd Z.eqb Pos.eqb andb] in Hin, Hout, Hfl, E1, E2, E3, E4.
  unfold matmul.
  rewrite (bind_step _ _ _ _ _ (deref_lookup _ _ _ Ha)).
  rewrite (bind_step _ _ _ _ _ (deref_lookup _ _ _ Hb)).
  rewrite HdB, Hprom, htype_eqb_refl, HgA, HgB. cbn [fst snd negb].
  replace (ncols GA =? nrows GB) with true by (symmetry; apply Z.eqb_eq; exact HPb).
  cbn [negb]. rewrite !bind_ret_step.
  rewrite (bind_step _ _ _ _ _ (deref_lookup _ _ _ Ha)).
  rewrite (bind_step _ _ _ _ _ (deref_lookup _ _ _ Hb)).
  rewrite HgA, HgB. cbn [fst snd]. unfold split_is_None, split_is. rewrite HsA, HsB.
  cbn [Z.eqb andb orb negb Pos.eqb].
  rewrite Hin, bind_lift_Ok. cbv beta iota. rewrite bind_communicate.
  rewrite Hout, bind_lift_Ok. cbv beta iota.
  rewrite Hfl, bind_lift_Ok. rewrite !bind_communicate.
  rewrite E1, bind_lift_Ok. rewrite bind_communicate.
  rewrite E2, bind_lift_Ok. rewrite bind_communicate.
  rewrite E3, bind_lift_Ok. rewrite E4, bind_lift_Ok. rewrite !bind_communicate.
  cbn [heap log].
  match goal with
  | |- context [split_10_partial size _ A B ?s] => set (st := s)
  end.
  destruct (partials_allreduce size GA GB (fun rank => split_10_partial size rank A B st))
    as (cs & Hcs & Hholds); try lia.
  { intros rank Hr.
    apply (split_10_partial_value size rank A B GA GB st); auto; try lia. }
  rewrite Hcs, bind_lift_Ok, bind_communicate. unfold mret, M_ret.
  do 2 eexists. split; [reflexivity|]. cbn [heap log].
  split; [reflexivity|]. split.
  { rewrite <- !app_assoc, <- !map_app. eexists. reflexivity. }
  cbn [split factories_array].
  split; [reflexivity|]. apply Hholds.
Qed.

End Ring10.

(** ** Two unsplit operands under [allow_resplit] *)

Section Resplit.
Import MatMul MatMulSpec.
Context {T : Type} `{Backend T}.
Hypothesis add_zero_l : forall x : T, add zero x = x.
Hypothesis add_zero_r : forall x : T, add x zero = x.

Lemma nth_map_zip_ranks {A B} (f : Z * A -> B) (size rank : Z) (l : list A) (d : A) (d' : B) :
  0 <= rank < size -> (Z.to_nat rank < length l)%nat ->
  nth (Z.to_nat rank) (map f (zip (ranks size) l)) d' = f (rank, nth (Z.to_nat rank) l d).
Proof.
  intros Hr Hl. apply nth_lookup_Some.
  change (map f (zip (ranks size) l)) with (f <$> zip (ranks size) l).
  rewrite list_lookup_fmap, lookup_zip_with. unfold ranks.
  rewrite lookup_seqZ_lt by lia. cbn.
  destruct (l !! Z.to_nat rank) as [x|] eqn:E.
  - cbn. rewrite (nth_lookup_Some _ _ d _ E). repeat f_equal. lia.
  - apply lookup_ge_None in E. lia.
Qed.

(** Each process holds a tensor of its own, once the array has a row. *)
Lemma holds_local_exists (size rank : Z) (A : DNDarray T) (GA : tensor T) :
  holds size A GA -> split A = None -> 1 <= nrows GA -> 0 <= rank < size ->
  (Z.to_nat rank < length (larray A))%nat.
Proof.
  intros [HgA HA] HsA HL Hr. specialize (HA rank Hr). rewrite HgA, HsA in HA.
  cbn in HA. destruct HA as (HAr & _).
  destruct (Nat.lt_ge_cases (Z.to_nat rank) (length (larray A))) as [Hlt|Hge]; [exact Hlt|].
  unfold local in HAr. rewrite nth_overflow in HAr by exact Hge. cbn in HAr.
  unfold extent in HAr. cbn in HAr. lia.
Qed.

(** [resplit_(0)] keeps the contents: the array holds the same global
    matrix, now by rows. *)
Lemma holds_resplit_0 (size : Z) (A : DNDarray T) (GA : tensor T) :
  1 <= size -> 1 <= nrows GA -> 0 <= ncols GA ->
  holds size A GA -> split A = None ->
  holds size (resplit_0 size A) GA.
Proof.
  intros Hs HL HP HA HsA. pose proof HA as [HgA HAl].
  split; [exact HgA|]. intros rank Hr. cbn [gshape split resplit_0]. rewrite HgA.
  unfold chunk. cbn [Z.eqb fst snd]. cbn zeta.
  unfold local. cbn [larray resplit_0].
  rewrite (nth_map_zip_ranks _ size rank (larray A) (zeros 0 0))
    by (try exact Hr; eapply holds_local_exists; eassumption).
  fold (local A rank).
  specialize (HAl rank Hr). rewrite HgA, HsA in HAl. unfold chunk in HAl.
  cbn [fst snd] in HAl. cbn zeta in HAl. destruct HAl as (HAr & HAc & HAe).
  unfold extent in HAr, HAc, HAe. cbn [fst snd] in HAr, HAc, HAe.
  rewrite Z.sub_0_r in HAr, HAc, HAe.
  pose proof (chunk_extent_bounds (nrows GA) size rank Hs ltac:(lia) Hr) as He.
  pose proof (chunk_start_range (nrows GA) size rank Hs ltac:(lia) Hr) as Hst.
  assert (0 <= nrows GA / size) as HdL by (apply Z.div_pos; lia).
  unfold take_chunk, chunk. cbn [Z.eqb fst snd]. rewrite HAr, HAc.
  unfold extent in *.
  destruct (chunk_bounds (nrows GA) size rank) as [r0 r1]. cbn [fst snd] in *.
  unfold getslice. rewrite HAr, HAc.
  rewrite (slice_bounds_within (nrows GA) r0 r1) by lia.
  rewrite (slice_bounds_within (ncols GA) 0 (ncols GA)) by lia.
  cbn [nrows ncols elt]. split; [reflexivity|]. split; [reflexivity|].
  intros i j Hi Hj. rewrite (HAe (r0 + i) (0 + j)) by lia. f_equal; lia.
Qed.

(** One term for the rows of each process: the sum over the processes
    picks the term of the process that has the row. *)
Lemma fold_rows_of_one_process (n size i : Z) (v : T) (r : nat) :
  1 <= size -> 0 <= n -> 0 <= i -> Z.of_nat r <= size ->
  fold_left (fun acc rank =>
               add acc (if (fst (chunk_bounds n size rank) <=? i)
                           && (i <? snd (chunk_bounds n size rank)) then v else zero))
            (seqZ 0 (Z.of_nat r)) zero
  = if i <? fst (chunk_bounds n size (Z.of_nat r)) then v else zero.
Proof using add_zero_l add_zero_r.
  intros Hs Hn Hi. induction r as [|r IH]; intros Hr.
  - cbn [Z.of_nat]. rewrite chunk_start_0 by exact Hs.
    destruct (Z.ltb_spec i 0); [lia | reflexivity].
  - rewrite seqZ_S, fold_left_app, IH by lia. cbn [fold_left]. rewrite Z.add_0_l.
    replace (Z.of_nat (S r)) with (Z.of_nat r + 1) by lia.
    rewrite chunk_start_next by lia.
    pose proof (chunk_extent_bounds n size (Z.of_nat r) Hs Hn ltac:(lia)) as He.
    assert (0 <= n / size) by (apply Z.div_pos; lia).
    unfold extent in He.
    destruct (Z.ltb_spec i (fst (chunk_bounds n size (Z.of_nat r)))),
             (Z.leb_spec (fst (chunk_bounds n size (Z.of_nat r))) i),
             (Z.ltb_spec i (snd (chunk_bounds n size (Z.of_nat r))));
      cbn [andb]; try lia; auto.
Qed.

Lemma bind_mutate {A} (r : nat) (x : DNDarray T) (k : unit -> M (world T) A) (w : world T) :
  (mutate r x ≫= k) w = k tt (mkWorld (<[r := x]> (heap w)) (log w ++ [Mutated r])).
Proof. reflexivity. Qed.

(** What a process adds to the zeros of the result after the operand [a]
    has been split in place: the rows of its chunk of the product. *)
Lemma resplit_kernel (size rank : Z) (A B : DNDarray T) (GA GB : tensor T) :
  1 <= size -> 1 <= nrows GA -> 0 <= ncols GA -> 0 <= ncols GB -> 0 <= rank < size ->
  holds size A GA -> holds size B GB -> split A = None -> split B = None ->
  ncols GA = nrows GB ->
  exists c,
    (hold ← torch_matmul (local (resplit_0 size A) rank) (local B rank);
     iadd_slice (zeros (nrows GA) (ncols GB))
                (Some (fst (chunk_bounds (nrows GA) size rank)))
                (Some (snd (chunk_bounds (nrows GA) size rank))) None None hold) = Ok c /\
    nrows c = nrows GA /\ ncols c = ncols GB /\
    forall i j, 0 <= i < nrows GA -> 0 <= j < ncols GB ->
      elt c i j = if (fst (chunk_bounds (nrows GA) size rank) <=? i)
                     && (i <? snd (chunk_bounds (nrows GA) size rank))
                  then add zero (sum_over (seqZ 0 (ncols GA))
                                          (fun k => mul (elt GA i k) (elt GB k j)))
                  else zero.
Proof.
  intros Hs HL HP HQ Hr HA [HgB HB] HsA HsB HPb.
  destruct (holds_resplit_0 size A GA Hs HL HP HA HsA) as [_ HA0].
  specialize (HA0 rank Hr). specialize (HB rank Hr).
  cbn [gshape split resplit_0] in HA0. rewrite (proj1 HA) in HA0. rewrite HgB, HsB in HB.
  unfold chunk in HA0, HB. cbn [Z.eqb fst snd] in HA0, HB. cbn zeta in HA0, HB.
  destruct HA0 as (HAr & HAc & HAe). destruct HB as (HBr & HBc & HBe).
  pose proof (chunk_extent_bounds (nrows GA) size rank Hs ltac:(lia) Hr) as He.
  pose proof (chunk_start_range (nrows GA) size rank Hs ltac:(lia) Hr) as Hst.
  assert (0 <= nrows GA / size) as HdL by (apply Z.div_pos; lia).
  unfold extent in HAr, HAc, HAe, HBr, HBc, HBe, He. cbn [fst snd] in HAr, HAc, HAe, HBr, HBc, HBe.
  rewrite Z.sub_0_r in HAc, HAe, HBr, HBc, HBe.
  destruct (chunk_bounds (nrows GA) size rank) as [r0 r1]. cbn [fst snd] in *.
  unfold torch_matmul. rewrite HAc, HBr, HPb, Z.eqb_refl. cbn [mbind result_bind].
  unfold iadd_slice, update_slice. cbn [nrows ncols zeros elt].
  rewrite (slice_bounds_within (nrows GA) r0 r1) by lia.
  rewrite slice_bounds_all by lia. rewrite HAr, HBc, Z.sub_0_r.
  unfold broadcasts. rewrite !Z.eqb_refl. cbn [orb andb].
  eexists. split; [reflexivity|]. cbn [nrows ncols elt].
  split; [reflexivity|]. split; [reflexivity|].
  intros i j Hi Hj.
  replace (0 <=? j) with true by (symmetry; apply Z.leb_le; lia).
  replace (j <? ncols GB) with true by (symmetry; apply Z.ltb_lt; lia).
  rewrite !andb_true_r.
  destruct (Z.leb_spec r0 i), (Z.ltb_spec i r1); cbn [andb]; try reflexivity.
  f_equal.
  assert ((if r1 - r0 =? 1 then 0 else i - r0) = i - r0) as ->
    by (destruct (Z.eqb_spec (r1 - r0) 1); lia).
  assert ((if ncols GB =? 1 then 0 else j - 0) = j) as ->
    by (destruct (Z.eqb_spec (ncols GB) 1); lia).
  rewrite <- HPb. apply sum_over_ext. intros k Hk. apply In_seqZ_range in Hk.
  rewrite (HAe (i - r0) k), (HBe k j) by lia. rewrite !Z.add_0_l. do 2 f_equal. lia.
Qed.

(** The Allreduce of the row blocks gives every process the product. *)
Lemma allreduce_of_row_blocks (size L Q : Z) (v : Z -> Z -> T) (cs : list (tensor T)) :
  1 <= size -> 0 <= L ->
  Forall2 (fun rank c =>
             nrows c = L /\ ncols c = Q /\
             forall i j, 0 <= i < L -> 0 <= j < Q ->
               elt c i j = if (fst (chunk_bounds L size rank) <=? i)
                              && (i <? snd (chunk_bounds L size rank))
                           then v i j else zero)
          (ranks size) cs ->
  nrows (allreduce_sum cs) = L /\ ncols (allreduce_sum cs) = Q /\
  forall i j, 0 <= i < L -> 0 <= j < Q -> elt (allreduce_sum cs) i j = v i j.
Proof using add_zero_l add_zero_r.
  intros Hs Hn HF.
  destruct cs as [|c0 rest].
  { apply Forall2_length in HF. unfold ranks in HF. rewrite length_seqZ in HF. cbn in HF. lia. }
  pose proof HF as HF0. rewrite (ranks_cons size Hs) in HF0.
  apply Forall2_cons_1 in HF0 as [(Hr0 & Hc0 & _) _].
  cbn [allreduce_sum nrows ncols elt]. split; [exact Hr0|]. split; [exact Hc0|].
  intros i j Hi Hj.
  rewrite <- (add_zero_l (elt c0 i j)).
  change (fold_left (fun acc c => add acc (elt c i j)) rest (add zero (elt c0 i j)))
    with (fold_left (fun acc c => add acc (elt c i j)) (c0 :: rest) zero).
  transitivity (fold_left (fun acc rank =>
                            add acc (if (fst (chunk_bounds L size rank) <=? i)
                                        && (i <? snd (chunk_bounds L size rank))
                                     then v i j else zero))
                          (ranks size) zero).
  - symmetry. apply fold_Forall2.
    eapply Forall2_impl; [exact HF|]. cbn beta.
    intros rank c (_ & _ & Hel) acc. rewrite (Hel i j Hi Hj). reflexivity.
  - pose proof (fold_rows_of_one_process L size i (v i j) (Z.to_nat size) Hs Hn
                  ltac:(lia) ltac:(lia)) as E.
    rewrite Z2Nat.id in E by lia. rewrite chunk_start_size in E by exact Hs.
    unfold ranks. rewrite E. destruct (Z.ltb_spec i L); [reflexivity | lia].
Qed.

(** X16: with [allow_resplit], two unsplit matrices of one element type that
    are different objects and hold the global matrices [GA] and [GB]: [a] is
    split in place along axis 0 and holds [GA] as before, now by rows; every
    process multiplies its rows into the zeros of the result and one
    Allreduce sums them, so that the unsplit result holds the product on
    every process, given a sum of which zero is the identity. *)
Theorem matmul_resplit_product (size : Z) (a b : nat) (w : world T) (A B : DNDarray T)
    (GA GB : tensor T) :
  1 <= size -> 1 <= nrows GA -> 0 <= ncols GA -> 0 <= ncols GB ->
  heap w !! a = Some A -> heap w !! b = Some B -> a <> b ->
  split A = None -> split B = None ->
  holds size A GA -> holds size B GB -> ncols GA = nrows GB ->
  dtype B = dtype A -> promote_types (dtype A) (dtype A) = dtype A ->
  exists c,
    matmul size a b true w
    = (Ok c, mkWorld (<[a := resplit_0 size A]> (heap w))
                     (log w ++ [Mutated a; Comm Allreduce])) /\
    split c = None /\ dtype c = dtype A /\
    holds size c (dense_product GA GB) /\
    split (resplit_0 size A) = Some 0 /\
    holds size (resplit_0 size A) GA.
Proof using add_zero_l add_zero_r.
  intros Hsize HL HP HQ Ha Hb Hab HsA HsB HA HB HPb HdB Hprom.
  pose proof (proj1 HA) as HgA. pose proof (proj1 HB) as HgB.
  unfold matmul.
  rewrite (bind_step _ _ _ _ _ (deref_lookup _ _ _ Ha)).
  rewrite (bind_step _ _ _ _ _ (deref_lookup _ _ _ Hb)).
  rewrite HdB, Hprom, htype_eqb_refl, HgA, HgB. cbn [fst snd negb].
  replace (ncols GA =? nrows GB) with true by (symmetry; apply Z.eqb_eq; exact HPb).
  cbn [negb]. rewrite !bind_ret_step.
  rewrite (bind_step _ _ _ _ _ (deref_lookup _ _ _ Ha)).
  rewrite (bind_step _ _ _ _ _ (deref_lookup _ _ _ Hb)).
  rewrite HgA, HgB. cbn [fst snd]. unfold split_is_None. rewrite HsA, HsB.
  cbn [andb negb]. rewrite bind_mutate.
  set (w1 := mkWorld (<[a := resplit_0 size A]> (heap w)) (log w ++ [Mutated a])).
  assert (heap w1 !! a = Some (resplit_0 size A)) as Ha1.
  { unfold w1. cbn [heap]. apply list_lookup_insert_eq. eapply lookup_lt_Some. exact Ha. }
  assert (heap w1 !! b = Some B) as Hb1.
  { unfold w1. cbn [heap]. rewrite list_lookup_insert_ne by exact Hab. exact Hb. }
  rewrite (bind_step _ _ _ _ _ (deref_lookup _ _ _ Ha1)).
  rewrite (bind_step _ _ _ _ _ (deref_lookup _ _ _ Hb1)).
  cbn [gshape split resplit_0]. rewrite HgA. unfold chunk. cbn [Z.eqb fst snd].
  match goal with |- context [lift (mapM ?f (ranks size))] => set (F := f) end.
  assert (forall rank, 0 <= rank < size ->
            exists c, F rank = Ok c /\
              nrows c = nrows GA /\ ncols c = ncols GB /\
              forall i j, 0 <= i < nrows GA -> 0 <= j < ncols GB ->
                elt c i j = if (fst (chunk_bounds (nrows GA) size rank) <=? i)
                               && (i <? snd (chunk_bounds (nrows GA) size rank))
                            then elt (dense_product GA GB) i j else zero) as Hrank.
  { intros rank Hr.
    exact (resplit_kernel size rank A B GA GB Hsize HL HP HQ Hr HA HB HsA HsB HPb). }
  destruct (mapM_result_Ok F (ranks size)) as (cs & Hcs).
  { intros rank Hr. apply In_ranks in Hr. destruct (Hrank rank Hr) as (c & Hc & _). eauto. }
  rewrite Hcs, bind_lift_Ok, bind_communicate. unfold mret, M_ret.
  eexists. split; [unfold w1; cbn [heap log]; rewrite <- app_assoc; reflexivity|].
  cbn [split dtype].
  split; [reflexivity|]. split; [reflexivity|].
  split; [|split; [reflexivity | apply holds_resplit_0; assumption]].
  apply mapM_result_Forall2 in Hcs.
  apply (Forall2_with_left _ (fun rank => 0 <= rank < size)) in Hcs;
    [|intros rank Hr; apply In_ranks; exact Hr].
  destruct (allreduce_of_row_blocks size (nrows GA) (ncols GB)
              (fun i j => elt (dense_product GA GB) i j) cs Hsize ltac:(lia))
    as (Hn & Hm & Hel).
  { eapply Forall2_impl; [exact Hcs|]. cbn beta. intros rank c [Hr Hc].
    destruct (Hrank rank Hr) as (c' & Hc' & Hfacts). rewrite Hc in Hc'. injection Hc' as <-.
    exact Hfacts. }
  split; [reflexivity|]. intros rank Hr. cbn [gshape split]. unfold chunk. cbn [fst snd].
  cbn zeta. unfold local. cbn [larray]. unfold everywhere.
  rewrite (nth_map_ranks _ size rank) by exact Hr.
  unfold extent. cbn [fst snd]. rewrite !Z.sub_0_r.
  split; [exact Hn|]. split; [exact Hm|].
  intros i j Hi Hj. rewrite !Z.add_0_l. apply Hel; assumption.
Qed.

Lemma mapM_first_raises {A B} (f : A -> result B) (x : A) (l : list A) (e : exn) :
  f x = Raise e -> mapM f (x :: l) = Raise e.
Proof. intros Hx. cbn. rewrite Hx. reflexivity. Qed.

(** X17: with [allow_resplit], an unsplit square matrix of at least two rows
    multiplied by itself on two or more processes: the operand is split in
    place before the product is taken, so the second operand, being the same
    object, has lost rows as well; the local product is refused and the
    call ends in a RuntimeError with the operand left split and nothing
    communicated. *)
Theorem matmul_resplit_same_operand (size : Z) (a : nat) (w : world T) (A : DNDarray T)
    (GA : tensor T) :
  2 <= size -> 2 <= nrows GA -> nrows GA = ncols GA ->
  heap w !! a = Some A -> split A = None -> holds size A GA ->
  promote_types (dtype A) (dtype A) = dtype A ->
  matmul size a a true w
  = (Raise RuntimeError,
     mkWorld (<[a := resplit_0 size A]> (heap w)) (log w ++ [Mutated a])).
Proof.
  intros Hsize HL Hsq Ha HsA HA Hprom.
  pose proof (proj1 HA) as HgA.
  unfold matmul.
  rewrite (bind_step _ _ _ _ _ (deref_lookup _ _ _ Ha)).
  rewrite (bind_step _ _ _ _ _ (deref_lookup _ _ _ Ha)).
  rewrite Hprom, htype_eqb_refl, HgA. cbn [fst snd negb].
  replace (ncols GA =? nrows GA) with true by (symmetry; apply Z.eqb_eq; lia).
  cbn [negb]. rewrite !bind_ret_step.
  rewrite (bind_step _ _ _ _ _ (deref_lookup _ _ _ Ha)).
  rewrite (bind_step _ _ _ _ _ (deref_lookup _ _ _ Ha)).
  rewrite HgA. cbn [fst snd]. unfold split_is_None. rewrite HsA.
  cbn [andb negb]. rewrite bind_mutate.
  set (w1 := mkWorld (<[a := resplit_0 size A]> (heap w)) (log w ++ [Mutated a])).
  assert (heap w1 !! a = Some (resplit_0 size A)) as Ha1.
  { unfold w1. cbn [heap]. apply list_lookup_insert_eq. eapply lookup_lt_Some. exact Ha. }
  rewrite (bind_step _ _ _ _ _ (deref_lookup _ _ _ Ha1)).
  rewrite (bind_step _ _ _ _ _ (deref_lookup _ _ _ Ha1)).
  destruct (holds_resplit_0 size A GA ltac:(lia) ltac:(lia) ltac:(lia) HA HsA) as [_ HA0].
  specialize (HA0 0 ltac:(lia)). cbn [gshape split resplit_0] in HA0. rewrite HgA in HA0.
  unfold chunk in HA0. cbn [Z.eqb fst snd] in HA0. cbn zeta in HA0.
  destruct HA0 as (HAr & HAc & _). unfold extent in HAr, HAc. cbn [fst snd] in HAc.
  assert (nrows (local (resplit_0 size A) 0) <> ncols (local (resplit_0 size A) 0)) as Hne.
  { rewrite HAr, HAc. unfold chunk_bounds.
    pose proof (Z.mod_pos_bound (nrows GA) size ltac:(lia)) as Hm.
    pose proof (Z.div_mod (nrows GA) size ltac:(lia)) as Hdm.
    assert (0 <= nrows GA / size) by (apply Z.div_pos; lia).
    destruct (Z.ltb_spec 0 (nrows GA mod size)); cbn [fst snd]; nia. }
  rewrite (ranks_cons size ltac:(lia)).
  erewrite mapM_first_raises.
  - reflexivity.
  - cbn zeta. unfold torch_matmul.
    destruct (Z.eqb_spec (ncols (local (resplit_0 size A) 0))
                         (nrows (local (resplit_0 size A) 0))) as [E|_]; [lia|].
    reflexivity.
Qed.

End Resplit.

(** ** [dot] *)

Section DotProps.
Import MatMul MatMulSpec Dot.
Context {T : Type} `{Backend T}.
Variable size : Z.
Variable R : Type.
Variable multiply : operand T -> operand T -> M (world T) R.
Variable inner_product : nat -> nat -> M (world T) R.

(** X18: [dot] of two matrices with an [out]: when the product [c] has been
    computed, the object [out] is given the local tensors, the element type
    and the split of [c] and is returned, but it keeps the global shape it
    had, whatever the shape of the product; every other object is as
    before the call.  When [matmul] raises, [dot] raises the same and [out]
    is as it was. *)
Theorem dot_out_keeps_its_shape (a b o : nat) (w : world T) (O : DNDarray T) :
  heap w !! o = Some O ->
  (forall c w1, matmul size a b false w = (Ok c, w1) ->
     exists objs ops,
       dot size multiply inner_product (Array 2 a) (Array 2 b) (Some o) w
       = (Ok (Out o),
          mkWorld (<[o := mkDNDarray (gshape O) (dtype c) (split c) (larray c)]>
                     (heap w ++ objs))
                  (log w ++ map Comm ops ++ [Mutated o]))) /\
  (forall e w1, matmul size a b false w = (Raise e, w1) ->
     dot size multiply inner_product (Array 2 a) (Array 2 b) (Some o) w = (Raise e, w1) /\
     heap w1 !! o = Some O).
Proof.
  intros Ho. split.
  - intros c w1 Hrun.
    destruct (matmul_quiet size a b w (Ok c) w1 Hrun) as (objs & ops & Hh & Hl).
    exists objs, ops. unfold dot. cbn [scalar_case Z.eqb Pos.eqb orb andb].
    rewrite (bind_step _ _ _ _ _ Hrun).
    assert (heap w1 !! o = Some O) as Ho1.
    { rewrite Hh. apply lookup_app_l_Some. exact Ho. }
    rewrite (bind_step _ _ _ _ _ (deref_lookup _ _ _ Ho1)).
    unfold mbind, M_bind, mutate, mret, M_ret. cbn [heap log].
    rewrite Hh, Hl, <- app_assoc. reflexivity.
  - intros e w1 Hrun.
    destruct (matmul_quiet size a b w (Raise e) w1 Hrun) as (objs & ops & Hh & Hl).
    split.
    + unfold dot. cbn [scalar_case Z.eqb Pos.eqb orb andb].
      unfold mbind at 1, M_bind at 1. rewrite Hrun. reflexivity.
    + rewrite Hh. apply lookup_app_l_Some. exact Ho.
Qed.

(** X19: [dot] of two DNDarrays that both have a dimension, but are neither
    two vectors nor two matrices (a matrix and a vector, say, or two arrays
    of three dimensions), raises NotImplementedError; nothing has been
    computed, changed or communicated, and [out] is as it was. *)
Theorem dot_mixed_dimensions (na nb : Z) (a b : nat) (out : option nat) (w : world T) :
  na <> 0 -> nb <> 0 -> ~ (na = 1 /\ nb = 1) -> ~ (na = 2 /\ nb = 2) ->
  dot size multiply inner_product (Array na a) (Array nb b) out w
  = (Raise not_implemented, w).
Proof.
  intros Ha Hb H1 H2. unfold dot, scalar_case.
  destruct (Z.eqb_spec na 0); [contradiction|]. destruct (Z.eqb_spec nb 0); [contradiction|].
  cbn [orb].
  destruct (Z.eqb_spec na 1), (Z.eqb_spec nb 1); cbn [andb]; try tauto;
    destruct (Z.eqb_spec na 2), (Z.eqb_spec nb 2); cbn [andb]; try tauto; reflexivity.
Qed.

End DotProps.

(** ** The properties above on concrete operands *)

Section MoreCases.
Import MatMul MatMulSpec Examples Samples.

Lemma well_formed_sample_matrix : Transpose.well_formed sample_matrix.
Proof. unfold Transpose.well_formed. simpl. split; [reflexivity | split; [discriminate | lia]]. Qed.

Lemma well_formed_lower_shard : Transpose.well_formed lower_shard.
Proof. unfold Transpose.well_formed. simpl. split; [reflexivity | split; [discriminate | lia]]. Qed.

Lemma transpose_default_reverses_the_dimensions_witness :
  exists a', Transpose.transpose sample_matrix None = Ok a' /\
             Transpose.shape a' = [6; 9] /\ Transpose.split a' = Some 1 /\
             Transpose.tget (Transpose.array a') [5; 0] = 5.
Proof.
  destruct (transpose_default_reverses_the_dimensions sample_matrix well_formed_sample_matrix)
    as (a' & Hrun & _ & Hsh & _ & Hsp & _ & _ & _ & Hel).
  exists a'. split; [exact Hrun|]. split; [exact Hsh|]. split; [exact Hsp|].
  rewrite (Hel [5; 0] eq_refl). reflexivity.
Defined.

Lemma transpose_twice_restores_witness :
  exists a' a'',
    Transpose.transpose sample_matrix None = Ok a' /\ Transpose.transpose a' None = Ok a'' /\
    Transpose.shape a'' = [9; 6] /\ Transpose.split a'' = Some 0 /\
    Transpose.tget (Transpose.array a'') [4; 5] = 29.
Proof.
  destruct (transpose_twice_restores sample_matrix well_formed_sample_matrix)
    as (a' & a'' & H1 & H2 & Hsh & Hsp & _ & _ & _ & _ & Hel).
  exists a', a''. split; [exact H1|]. split; [exact H2|]. split; [exact Hsh|].
  split; [exact Hsp|]. rewrite (Hel [4; 5] eq_refl). reflexivity.
Defined.

Lemma transpose_returns_a_permutation_witness :
  Permutation (map (fun d => d mod 2) [-1; 0]) (seqZ 0 2).
Proof.
  destruct (Transpose.transpose sample_matrix (Some [-1; 0])) as [a'|e] eqn:E.
  - exact (proj1 (transpose_returns_a_permutation sample_matrix a' [-1; 0] eq_refl E)).
  - vm_compute in E. discriminate E.
Defined.

Lemma transpose_raises_only_ValueError_witness :
  exists e, Transpose.transpose sample_matrix (Some [0; 0]) = Raise e /\ is_ValueError e = true.
Proof.
  destruct (Transpose.transpose sample_matrix (Some [0; 0])) as [a'|e] eqn:E.
  - vm_compute in E. discriminate E.
  - exists e. split; [reflexivity|].
    apply (proj1 (transpose_raises_only_ValueError sample_matrix ltac:(simpl; discriminate))
                 (Some [0; 0]) e E).
Defined.

Lemma tri_op_keeps_the_global_triangle_witness :
  exists m', Tri.tri_op 1 lower_shard 0 Tri.Upper = Ok m' /\
             Transpose.tget (Transpose.array m') [0; 4] = 0 /\
             Transpose.tget (Transpose.array m') [0; 5] = 35.
Proof.
  destruct (tri_op_keeps_the_global_triangle 1 lower_shard 0 Tri.Upper well_formed_lower_shard)
    as (m' & Hrun & _ & _ & _ & _ & _ & _ & Hel); [simpl; lia|].
  exists m'. split; [exact Hrun|]. split.
  - rewrite (Hel [0; 4]); [reflexivity|]. repeat constructor; lia.
  - rewrite (Hel [0; 5]); [reflexivity|]. repeat constructor; lia.
Defined.

Lemma tri_op_repeats_a_vector_witness :
  exists m', Tri.tri_op 1 sample_vector 0 Tri.Lower = Ok m' /\
             Transpose.shape m' = [5; 5] /\ Transpose.split m' = Some 1 /\
             Transpose.tget (Transpose.array m') [3; 0] = 13 /\
             Transpose.tget (Transpose.array m') [3; 1] = 0.
Proof.
  destruct (tri_op_repeats_a_vector 1 sample_vector 0 Tri.Lower 5 eq_refl eq_refl)
    as (m' & Hrun & Hsh & Hsp & _ & _ & _ & _ & Hel).
  exists m'. split; [exact Hrun|]. split; [exact Hsh|]. split; [exact Hsp|]. split.
  - rewrite (Hel 3 0); [reflexivity | lia | simpl; lia].
  - rewrite (Hel 3 1); [reflexivity | lia | simpl; lia].
Defined.

Lemma tril_and_triu_split_the_elements_witness :
  exists lo up,
    Tri.tril 1 lower_shard 0 = Ok lo /\ Tri.triu 1 lower_shard 1 = Ok up /\
    Transpose.tget (Transpose.array lo) [0; 5] = 35 /\
    Transpose.tget (Transpose.array up) [0; 5] = 0.
Proof.
  destruct (tril_and_triu_split_the_elements 1 lower_shard 0 well_formed_lower_shard)
    as (lo & up & Hlo & Hup & Hel); [simpl; lia|].
  exists lo, up. split; [exact Hlo|]. split; [exact Hup|].
  destruct (Hel [0; 5]) as [[H1 H2]|[H1 H2]]; [repeat constructor; lia | |].
  - split; [rewrite H1; reflexivity | exact H2].
  - exfalso. vm_compute in Hlo. injection Hlo as <-. vm_compute in H1. discriminate H1.
Defined.

Lemma tri_op_twice_witness :
  exists m' m'',
    Tri.tri_op 1 lower_shard 0 Tri.Upper = Ok m' /\ Tri.tri_op 1 m' 0 Tri.Upper = Ok m'' /\
    Transpose.tget (Transpose.array m'') [0; 5] = Transpose.tget (Transpose.array m') [0; 5].
Proof.
  destruct (tri_op_twice 1 lower_shard 0 Tri.Upper well_formed_lower_shard)
    as (m' & m'' & H1 & H2 & _ & _ & _ & Hel); [simpl; lia|].
  exists m', m''. split; [exact H1|]. split; [exact H2|].
  apply Hel. repeat constructor; lia.
Defined.

(** The operands of the cases of [matmul]: [tall] is 3 by 2, [wide] 2 by 3. *)
Lemma distribute_holds (size : Z) (split : option Z) (dt : htype) (n m : Z)
    (rows : list (list Z)) :
  1 <= size -> 0 <= n -> 0 <= m ->
  holds size (distribute size split dt n m rows) (of_rows n m rows).
Proof. intros Hs Hn Hm. apply factories_array_holds; assumption. Qed.

Lemma matmul_result_dtype_witness :
  exists c w',
    matmul 2 0%nat 1%nat false
           (operands (distribute 2 (Some 0) ht_float32 3 2 tall)
                     (distribute 2 None ht_float64 2 3 wide)) = (Ok c, w') /\
    dtype c = ht_float64.
Proof.
  destruct (matmul 2 0%nat 1%nat false
                   (operands (distribute 2 (Some 0) ht_float32 3 2 tall)
                             (distribute 2 None ht_float64 2 3 wide)))
    as [[c|e] w'] eqn:E.
  - exists c, w'. split; [reflexivity|].
    rewrite (matmul_result_dtype 2 0%nat 1%nat false
               (operands (distribute 2 (Some 0) ht_float32 3 2 tall)
                         (distribute 2 None ht_float64 2 3 wide)) w'
               (distribute 2 (Some 0) ht_float32 3 2 tall)
               (distribute 2 None ht_float64 2 3 wide) c eq_refl eq_refl
               (or_introl eq_refl) E).
    reflexivity.
  - exfalso.
    assert (is_Ok (fst (matmul 2 0%nat 1%nat false
                          (operands (distribute 2 (Some 0) ht_float32 3 2 tall)
                                    (distribute 2 None ht_float64 2 3 wide)))) = true)
      as Hok by (vm_compute; reflexivity).
    rewrite E in Hok. discriminate Hok.
Defined.

Lemma matmul_one_split_operand_witness :
  let w := operands (float32_on 2 (Some 0) 3 2 tall) (float32_on 2 None 2 3 wide) in
  exists c,
    matmul 2 0%nat 1%nat false w = (Ok c, w) /\
    split c = Some 0 /\ dtype c = ht_float32 /\
    holds 2 c (dense_product (of_rows 3 2 tall) (of_rows 2 3 wide)).
Proof.
  cbv zeta.
  apply (matmul_one_split_operand 2 0%nat 1%nat false
           (operands (float32_on 2 (Some 0) 3 2 tall) (float32_on 2 None 2 3 wide))
           (float32_on 2 (Some 0) 3 2 tall) (float32_on 2 None 2 3 wide)
           (of_rows 3 2 tall) (of_rows 2 3 wide)).
  - lia.
  - simpl; lia.
  - simpl; lia.
  - reflexivity.
  - reflexivity.
  - left. split; reflexivity.
  - apply distribute_holds; lia.
  - apply distribute_holds; lia.
  - reflexivity.
  - reflexivity.
  - reflexivity.
Defined.

Lemma matmul_split_contraction_witness :
  let w := operands (float32_on 2 (Some 1) 3 2 tall) (float32_on 2 None 2 3 wide) in
  exists c,
    matmul 2 0%nat 1%nat false w = (Ok c, mkWorld (heap w) (log w ++ [Comm Allreduce])) /\
    split c = Some 1 /\ dtype c = ht_float32 /\
    holds 2 c (dense_product (of_rows 3 2 tall) (of_rows 2 3 wide)).
Proof.
  cbv zeta.
  apply (@matmul_split_contraction Z exact
           (fun x y z => eq_sym (Z.add_assoc x y z)) Z.add_0_l Z.add_0_r
           2 0%nat 1%nat false
           (operands (float32_on 2 (Some 1) 3 2 tall) (float32_on 2 None 2 3 wide))
           (float32_on 2 (Some 1) 3 2 tall) (float32_on 2 None 2 3 wide)
           (of_rows 3 2 tall) (of_rows 2 3 wide)).
  - lia.
  - simpl; lia.
  - simpl; lia.
  - simpl; lia.
  - reflexivity.
  - reflexivity.
  - left. split; reflexivity.
  - apply distribute_holds; lia.
  - apply distribute_holds; lia.
  - reflexivity.
  - reflexivity.
  - reflexivity.
Defined.

Lemma balanced_distribute (size : Z) (split : option Z) (dt : htype) (n m : Z)
    (rows : list (list Z)) :
  1 <= size -> 0 <= n -> 0 <= m -> balanced size (distribute size split dt n m rows).
Proof.
  intros Hs Hn Hm rank Hr.
  destruct (distribute_holds size split dt n m rows Hs Hn Hm) as [_ Hl].
  destruct (Hl rank Hr) as (H1 & H2 & _). unfold lshape. rewrite H1, H2. reflexivity.
Qed.

Lemma setup_ring_completes_witness :
  exists st,
    setup_ring 2 (float32_on 2 (Some 0) 3 2 tall) (float32_on 2 (Some 1) 2 3 wide) = Ok st /\
    mB st = 1 /\ kB st = 2 /\ nB st = 1 /\
    rem_map st = [((0, 0), (0, 0)); ((0, 0), (0, 0))].
Proof.
  destruct (setup_ring_completes 2 ltac:(lia)
              (float32_on 2 (Some 0) 3 2 tall) (float32_on 2 (Some 1) 2 3 wide) 0 1)
    as (st & Hrun & Hm & Hk & Hn & _ & _ & Hrem).
  - simpl; lia.
  - simpl; lia.
  - simpl; lia.
  - reflexivity.
  - apply balanced_distribute; lia.
  - apply balanced_distribute; lia.
  - reflexivity.
  - reflexivity.
  - left; reflexivity.
  - right; reflexivity.
  - apply Z.leb_le; vm_compute; reflexivity.
  - apply Z.leb_le; vm_compute; reflexivity.
  - apply Z.leb_le; vm_compute; reflexivity.
  - exists st. split; [exact Hrun|]. split; [exact Hm|]. split; [exact Hk|].
    split; [exact Hn|]. rewrite Hrem. reflexivity.
Defined.

Lemma matmul_rows_times_columns_witness :
  let w := operands (float32_on 2 (Some 0) 3 2 tall) (float32_on 2 (Some 1) 2 3 wide) in
  exists c w',
    matmul 2 0%nat 1%nat false w = (Ok c, w') /\
    heap w' = heap w /\ (exists ops, log w' = log w ++ map Comm ops) /\
    split c = Some 0 /\ dtype c = ht_float32 /\
    holds 2 c (dense_product (of_rows 3 2 tall) (of_rows 2 3 wide)).
Proof.
  cbv zeta.
  apply (matmul_rows_times_columns 2 0%nat 1%nat false
           (operands (float32_on 2 (Some 0) 3 2 tall) (float32_on 2 (Some 1) 2 3 wide))
           (float32_on 2 (Some 0) 3 2 tall) (float32_on 2 (Some 1) 2 3 wide)
           (of_rows 3 2 tall) (of_rows 2 3 wide)).
  - lia.
  - simpl; lia.
  - simpl; lia.
  - simpl; lia.
  - reflexivity.
  - reflexivity.
  - reflexivity.
  - reflexivity.
  - apply distribute_holds; lia.
  - apply distribute_holds; lia.
  - reflexivity.
  - reflexivity.
  - reflexivity.
Defined.

Lemma matmul_columns_times_rows_witness :
  let w := operands (float32_on 2 (Some 1) 2 5 flat) (float32_on 2 (Some 0) 5 2 steep) in
  exists c w',
    matmul 2 0%nat 1%nat false w = (Ok c, w') /\
    heap w' = heap w /\ (exists ops, log w' = log w ++ map Comm ops) /\
    split c = Some 1 /\
    holds 2 c (dense_product (of_rows 2 5 flat) (of_rows 5 2 steep)).
Proof.
  cbv zeta.
  apply (@matmul_columns_times_rows Z exact
           (fun x y z => eq_sym (Z.add_assoc x y z)) Z.add_0_l Z.add_0_r
           2 0%nat 1%nat false
           (operands (float32_on 2 (Some 1) 2 5 flat) (float32_on 2 (Some 0) 5 2 steep))
           (float32_on 2 (Some 1) 2 5 flat) (float32_on 2 (Some 0) 5 2 steep)
           (of_rows 2 5 flat) (of_rows 5 2 steep)).
  - lia.
  - simpl; lia.
  - simpl; lia.
  - simpl; lia.
  - right; simpl; lia.
  - reflexivity.
  - reflexivity.
  - reflexivity.
  - reflexivity.
  - apply distribute_holds; lia.
  - apply distribute_holds; lia.
  - reflexivity.
  - reflexivity.
  - reflexivity.
Defined.

Lemma matmul_resplit_product_witness :
  let A := float32_on 2 None 3 2 tall in
  let w := operands A (float32_on 2 None 2 3 wide) in
  exists c,
    matmul 2 0%nat 1%nat true w
    = (Ok c, mkWorld (<[0%nat := resplit_0 2 A]> (heap w))
                     (log w ++ [Mutated 0%nat; Comm Allreduce])) /\
    split c = None /\ dtype c = ht_float32 /\
    holds 2 c (dense_product (of_rows 3 2 tall) (of_rows 2 3 wide)) /\
    split (resplit_0 2 A) = Some 0 /\
    holds 2 (resplit_0 2 A) (of_rows 3 2 tall).
Proof.
  cbv zeta.
  apply (@matmul_resplit_product Z exact Z.add_0_l Z.add_0_r 2 0%nat 1%nat
           (operands (float32_on 2 None 3 2 tall) (float32_on 2 None 2 3 wide))
           (float32_on 2 None 3 2 tall) (float32_on 2 None 2 3 wide)
           (of_rows 3 2 tall) (of_rows 2 3 wide)).
  - lia.
  - simpl; lia.
  - simpl; lia.
  - simpl; lia.
  - reflexivity.
  - reflexivity.
  - lia.
  - reflexivity.
  - reflexivity.
  - apply distribute_holds; lia.
  - apply distribute_holds; lia.
  - reflexivity.
  - reflexivity.
  - reflexivity.
Defined.

Lemma matmul_resplit_same_operand_witness :
  let A := float32_on 2 None 3 3 square in
  matmul 2 0%nat 0%nat true (mkWorld [A] [])
  = (Raise RuntimeError, mkWorld [resplit_0 2 A] [Mutated 0%nat]).
Proof.
  cbv zeta.
  apply (matmul_resplit_same_operand 2 0%nat (mkWorld [float32_on 2 None 3 3 square] [])
           (float32_on 2 None 3 3 square) (of_rows 3 3 square)).
  - lia.
  - simpl; lia.
  - reflexivity.
  - reflexivity.
  - reflexivity.
  - apply distribute_holds; lia.
  - reflexivity.
Defined.

(** [dot] with an [out] of another shape than the product: a 2 by 2
    [out] for the product of [tall] and [wide], which is 3 by 3. *)
Lemma dot_out_keeps_its_shape_witness :
  let O := float32_on 2 None 2 2 identity2 in
  let w := mkWorld [float32_on 2 None 3 2 tall; float32_on 2 None 2 3 wide; O] [] in
  exists c w1 objs ops,
    matmul 2 0%nat 1%nat false w = (Ok c, w1) /\
    Dot.dot 2 (fun _ _ => mret tt) (fun _ _ => mret tt)
            (Dot.Array 2 0%nat) (Dot.Array 2 1%nat) (Some 2%nat) w
    = (Ok (Dot.Out 2%nat),
       mkWorld (<[2%nat := mkDNDarray (gshape O) (dtype c) (split c) (larray c)]>
                  (heap w ++ objs))
               (log w ++ map Comm ops ++ [Mutated 2%nat])).
Proof.
  cbv zeta.
  destruct (matmul 2 0%nat 1%nat false
              (mkWorld [float32_on 2 None 3 2 tall; float32_on 2 None 2 3 wide;
                        float32_on 2 None 2 2 identity2] []))
    as [[c|e] w1] eqn:E.
  - destruct (proj1 (dot_out_keeps_its_shape 2 unit (fun _ _ => mret tt) (fun _ _ => mret tt)
                       0%nat 1%nat 2%nat
                       (mkWorld [float32_on 2 None 3 2 tall; float32_on 2 None 2 3 wide;
                                 float32_on 2 None 2 2 identity2] [])
                       (float32_on 2 None 2 2 identity2) eq_refl) c w1 E)
      as (objs & ops & Hdot).
    exists c, w1, objs, ops. split; [reflexivity | exact Hdot].
  - exfalso.
    assert (is_Ok (fst (matmul 2 0%nat 1%nat false
                          (mkWorld [float32_on 2 None 3 2 tall; float32_on 2 None 2 3 wide;
                                    float32_on 2 None 2 2 identity2] []))) = true)
      as Hok by (vm_compute; reflexivity).
    rewrite E in Hok. discriminate Hok.
Defined.

Lemma dot_mixed_dimensions_witness :
  Dot.dot 2 (fun _ _ => mret tt) (fun _ _ => mret tt)
          (Dot.Array 2 0%nat) (Dot.Array 1 1%nat) None (mkWorld (T := Z) [] [])
  = (Raise Dot.not_implemented, mkWorld [] []).
Proof.
  apply (dot_mixed_dimensions 2 unit (fun _ _ => mret tt) (fun _ _ => mret tt)
           2 1 0%nat 1%nat None (mkWorld [] [])).
  - lia.
  - lia.
  - lia.
  - lia.
Defined.

End MoreCases.

